(** * Viewport breakpoint observer: [useMediaQuery], [useIsMobile], [useIsTablet]

    A shallow embedding of [apps/ui/src/hooks/use-media-query.ts].

    The hook is twelve lines of effectful code that talk to two runtimes:
    the browser (the optional global [window], [window.matchMedia], the
    [MediaQueryList] objects it creates and their [change] listeners) and
    React ([useState], [useEffect] with the dependency array [[query]]).
    Both are modelled as explicit state:

    - [Window]: the viewport and the heap of [MediaQueryList] objects, each
      with its listener list; [World.window = None] is an environment where
      [typeof window === 'undefined'];
    - [Hook]: the memoised cells React keeps for one component instance
      calling the hook: the [useState] cell, the last dependency array, whether
      the effect is scheduled, and the destroy closure of the last effect run;
    - [World.trace]: every [setMatches], [addEventListener] and
      [removeEventListener] call, in program order.

    Hook code is written in a state-and-exception monad [M] over [World]. *)

From stdpp Require Import base option list gmap strings pretty.
From Stdlib Require Import ZArith Lia.

Open Scope Z_scope.
Open Scope nat_scope.

(** ** Data model *)

(** A function object: [handleChange] is a fresh closure at each effect run
    ([h_id] is its identity, the DOM compares listeners by reference) and it
    captures the [setMatches] of the component instance [h_inst]. *)
Record Handler := mkHandler { h_id : nat; h_inst : nat }.

#[export] Instance Handler_eq_dec : EqDecision Handler.
Proof. solve_decision. Defined.

(** [MediaQueryList]: its [media] string and its [change] listeners.
    [matches] is not stored: it is live, see [evalMedia]. *)
Record MediaQueryList := mkMQL { media : string; listeners : list Handler }.

Record MediaQueryListEvent := mkEvent { e_matches : bool }.

(** The destroy closure an effect returns:
    [() => mediaQuery.removeEventListener('change', handleChange)]. *)
Definition Destroy : Type := nat * Handler.

(** React's cells for one instance of a component that calls the hook. *)
Record Hook := mkHook {
  matches : bool;            (* const [matches, setMatches] = useState(...) *)
  deps : string;             (* [query] of the last render *)
  pending : bool;            (* the effect is scheduled and has not run yet *)
  cleanup : option Destroy   (* what the last effect run returned *)
}.

Inductive Event :=
| EvSetMatches (i : nat) (v : bool)
| EvAddListener (m : nat) (h : Handler)
| EvRemoveListener (m : nat) (h : Handler).

#[export] Instance Event_eq_dec : EqDecision Event.
Proof. solve_decision. Defined.

(** ** JavaScript numbers

    The hook of the implementation plan takes a number. It uses it twice:
    a template literal turns it into a string, and React compares it with
    the number of the previous render by [Object.is]. Numbers are a
    parameter of the model, as the query engine is: [JSNumber] is the type of
    number values, two of them equal when [Object.is] holds of them (so
    there is one [NaN], and [0] and [-0] are two values); [Number_toString]
    is the string that a template literal gives for a number; [number_768]
    is the value of the literal [768]. Nothing is assumed about how a number
    prints. *)
Class JSNumbers (JSNumber : Type) := {
  Object_is_dec :: EqDecision JSNumber;
  Number_toString : JSNumber -> string;
  number_768 : JSNumber
}.

(** ** A test double of the platform's query engine

    The browser is not part of the repository. The hook is verified against
    any query engine (the section variables below); this module is one
    engine to run it on, the fake viewport context of the design notes: the
    viewport is a width in CSS pixels, the engine knows the one media feature
    the hook's presets use, [(max-width: <n>px)], and raises on every other
    string. *)
Module TestDouble.

Definition digit_of (c : Ascii.ascii) : option Z :=
  let n := Z.of_nat (Ascii.nat_of_ascii c) in
  if ((48 <=? n) && (n <=? 57))%Z then Some (n - 48)%Z else None.

(** The leading decimal digits of [s], if any, and what follows them. *)
Fixpoint read_number (s : string) (acc : option Z) : option Z * string :=
  match s with
  | EmptyString => (acc, s)
  | String c s' =>
      match digit_of c with
      | Some d => read_number s' (Some (10 * default 0%Z acc + d)%Z)
      | None => (acc, s)
      end
  end.

Definition strip_prefix (p s : string) : option string :=
  if String.prefix p s
  then Some (String.substring (String.length p)
                              (String.length s - String.length p) s)
  else None.

Definition parse_max_width (s : string) : option Z :=
  match strip_prefix "(max-width: " s with
  | None => None
  | Some rest =>
      match read_number rest None with
      | (Some n, tail) => if String.eqb tail "px)" then Some n else None
      | (None, _) => None
      end
  end.

(** Modelled from the spec: the platform's media query engine, which is
    not in the repository. [(max-width: <n>px)] holds when the width is at
    most [n]: the specification words the two presets "width <= 768px" and
    "width <= 1024px", and so do the comments of [useIsMobile] and
    [useIsTablet] in the source. *)
Definition parseMedia (q : string) : string + (Z -> bool) :=
  match parse_max_width q with
  | Some n => inr (fun width => (width <=? n)%Z)
  | None => inl "SyntaxError"
  end.

Definition ReferenceError : string := "ReferenceError".

Definition widths : list Z := [320; 375; 428; 768; 769; 1024; 1200]%Z.

(** Numbers to run [useMobile] on: integers, printed in decimal, and the
    negative zero, which prints like zero and is another number than zero.
    This is how JavaScript prints and tells apart the integers below 2^53
    in absolute value; the theorems on [useMobile] hold for every
    [JSNumbers] and do not rely on this instance. *)
Inductive number := Integer (z : Z) | NegativeZero.

#[export] Instance number_eq_dec : EqDecision number.
Proof. solve_decision. Defined.

Definition print_number (n : number) : string :=
  match n with
  | Integer z => pretty z
  | NegativeZero => "0"
  end.

#[export] Instance numbers : JSNumbers number := {|
  Object_is_dec := number_eq_dec;
  Number_toString := print_number;
  number_768 := Integer 768
|}.

End TestDouble.

Section Observer.

(** The platform: what a viewport is, what it raises, and its media query
    engine. [parseMedia q] is [inl e] when the engine raises [e] on [q], and
    otherwise the condition that [q] denotes. *)
Context {Viewport Exn : Type}.
Variable ReferenceError : Exn.
Variable parseMedia : string -> Exn + (Viewport -> bool).

Record Window := mkWindow {
  viewport : Viewport;
  mqls : list MediaQueryList   (* a reference is an index in this heap *)
}.

Record World := mkWorld {
  window : option Window;      (* None: typeof window === 'undefined' *)
  fibers : gmap nat Hook;      (* mounted component instances *)
  closures : nat;              (* next function object identity *)
  trace : list Event
}.

(** ** The monad of hook code *)

Definition M (A : Type) : Type := World -> Exn + (A * World).

Definition ret {A} (a : A) : M A := fun w => inr (a, w).

Definition bind {A B} (m : M A) (k : A -> M B) : M B :=
  fun w => match m w with
           | inl e => inl e
           | inr (a, w') => k a w'
           end.

Definition lift (f : World -> World) : M unit := fun w => inr (tt, f w).

Notation "'let!' x ':=' m 'in' k" := (bind m (fun x => k))
  (at level 10, x name, m at level 100, k at level 200).
Notation "m '>>' k" := (bind m (fun _ => k))
  (at level 100, k at level 200, right associativity).

(** ** The platform *)

(** [mediaQuery.matches] for a list whose media string is [q], at viewport
    [v]. A list only exists for a [q] the engine accepted. *)
Definition evalMedia (q : string) (v : Viewport) : bool :=
  match parseMedia q with
  | inr holds => holds v
  | inl _ => false
  end.

(** [typeof window === 'undefined'] *)
Definition typeof_window_undefined : M bool :=
  fun w => inr (match window w with None => true | Some _ => false end, w).

(** [window.matchMedia(query)]: a new [MediaQueryList] object at each call,
    or the engine's exception. *)
Definition matchMedia (query : string) : M nat :=
  fun w =>
    match window w with
    | None => inl ReferenceError
    | Some win =>
        match parseMedia query with
        | inl e => inl e
        | inr _ =>
            inr (length (mqls win),
                 mkWorld (Some (mkWindow (viewport win)
                                         (mqls win ++ [mkMQL query []])))
                         (fibers w) (closures w) (trace w))
        end
    end.

(** [mediaQuery.matches] *)
Definition mql_matches (m : nat) : M bool :=
  fun w =>
    match window w with
    | None => inl ReferenceError
    | Some win =>
        match mqls win !! m with
        | None => inl ReferenceError
        | Some mq => inr (evalMedia (media mq) (viewport win), w)
        end
    end.

Definition add_listener (h : Handler) (mq : MediaQueryList) : MediaQueryList :=
  mkMQL (media mq)
        (if decide (h ∈ listeners mq) then listeners mq else listeners mq ++ [h]).

Definition remove_listener (h : Handler) (mq : MediaQueryList) : MediaQueryList :=
  mkMQL (media mq) (filter (fun h' => h' ≠ h) (listeners mq)).

Definition alter_mql (f : MediaQueryList -> MediaQueryList) (m : nat)
    (w : World) : World :=
  mkWorld (match window w with
           | None => None
           | Some win => Some (mkWindow (viewport win) (alter f m (mqls win)))
           end)
          (fibers w) (closures w) (trace w).

Definition log (ev : Event) (w : World) : World :=
  mkWorld (window w) (fibers w) (closures w) (trace w ++ [ev]).

(** [mediaQuery.addEventListener('change', h)]: a listener already in the
    list is not added again. *)
Definition addEventListener (m : nat) (h : Handler) : M unit :=
  lift (fun w => log (EvAddListener m h) (alter_mql (add_listener h) m w)).

(** [mediaQuery.removeEventListener('change', h)] *)
Definition removeEventListener (m : nat) (h : Handler) : M unit :=
  lift (fun w => log (EvRemoveListener m h) (alter_mql (remove_listener h) m w)).

(** ** React *)

Definition with_matches (v : bool) (hk : Hook) : Hook :=
  mkHook v (deps hk) (pending hk) (cleanup hk).

Definition with_effect (q : string) (hk : Hook) : Hook :=
  mkHook (matches hk) q true (cleanup hk).

Definition with_cleanup (c : option Destroy) (hk : Hook) : Hook :=
  mkHook (matches hk) (deps hk) false c.

Definition alter_fiber (f : Hook -> Hook) (i : nat) (w : World) : World :=
  mkWorld (window w) (alter f i (fibers w)) (closures w) (trace w).

(** [setMatches(v)] of instance [i]: the state cell takes the value [v]; on
    an instance that is not mounted React ignores the call. *)
Definition setMatches (i : nat) (v : bool) (w : World) : World :=
  log (EvSetMatches i v) (alter_fiber (with_matches v) i w).

(** Evaluating a function expression inside instance [i]. *)
Definition newClosure (i : nat) : M Handler :=
  fun w => inr (mkHandler (closures w) i,
                mkWorld (window w) (fibers w) (S (closures w)) (trace w)).

(** ** The hook: use-media-query.ts *)

(** Lines 9-12, the initialiser passed to [useState]. *)
Definition useState_init (query : string) : M bool :=
  let! undef := typeof_window_undefined in
  if (undef : bool) then ret false
  else
    let! mq := matchMedia query in
    mql_matches mq.

(** Lines 18-20, [handleChange]. *)
Definition handleChange (h : Handler) (e : MediaQueryListEvent) : World -> World :=
  setMatches (h_inst h) (e_matches e).

(** Lines 15-30, the function passed to [useEffect]; its result is the
    destroy closure, if any. *)
Definition effect (i : nat) (query : string) : M (option Destroy) :=
  let! undef := typeof_window_undefined in
  if (undef : bool) then ret None
  else
    let! mediaQuery := matchMedia query in
    let! handler := newClosure i in
    let! now := mql_matches mediaQuery in
    lift (setMatches i now) >>
    addEventListener mediaQuery handler >>
    ret (Some (mediaQuery, handler)).

(** Lines 28-30, running a destroy closure. *)
Definition destroy (c : option Destroy) : M unit :=
  match c with
  | Some (mediaQuery, handler) => removeEventListener mediaQuery handler
  | None => ret tt
  end.

(** React runs a scheduled effect of instance [i]: first the destroy closure
    of the previous run, then the effect, whose result it keeps. *)
Definition flushPassiveEffects (i : nat) : M unit :=
  fun w =>
    match fibers w !! i with
    | None => inr (tt, w)
    | Some hk =>
        if pending hk then
          (destroy (cleanup hk) >>
           let! c := effect i (deps hk) in
           lift (alter_fiber (with_cleanup c) i)) w
        else inr (tt, w)
    end.

(** Lines 8-34: one render of instance [i] with argument [query].

    On the first render [useState] runs its initialiser and the effect is
    scheduled. On a later render React has run the scheduled effects before
    it renders; [useState] gives the cell, and the effect is scheduled again
    when [[query]] differs from the last dependency array. *)
Definition useMediaQuery (i : nat) (query : string) : M bool :=
  fun w =>
    match fibers w !! i with
    | None =>
        (let! v := useState_init query in
         lift (fun w' => mkWorld (window w')
                                 (<[i := mkHook v query true None]> (fibers w'))
                                 (closures w') (trace w')) >>
         ret v) w
    | Some _ =>
        (flushPassiveEffects i >>
         fun w' =>
           match fibers w' !! i with
           | None => inl ReferenceError   (* not reached: effects keep the cells *)
           | Some hk =>
               inr (matches hk,
                    if decide (deps hk = query) then w'
                    else alter_fiber (with_effect query) i w')
           end) w
    end.

(** Lines 40-42. *)
Definition useIsMobile (i : nat) : M bool :=
  useMediaQuery i "(max-width: 768px)".

(** Lines 48-50. *)
Definition useIsTablet (i : nat) : M bool :=
  useMediaQuery i "(max-width: 1024px)".

(** React unmounts instance [i]: scheduled effects run, then the destroy
    closure, then the cells are dropped. *)
Definition unmount (i : nat) : M unit :=
  flushPassiveEffects i >>
  fun w =>
    match fibers w !! i with
    | None => inr (tt, w)
    | Some hk =>
        (destroy (cleanup hk) >>
         lift (fun w' => mkWorld (window w') (delete i (fibers w'))
                                 (closures w') (trace w'))) w
    end.

(** ** The platform reports viewport changes *)

(** Dispatching an event to the listeners of one list. [on_change] is what a
    listener does when called; the listener of the source is [handleChange]. *)
Definition fire
    (on_change : MediaQueryList -> Handler -> MediaQueryListEvent -> World -> World)
    (mq : MediaQueryList) (e : MediaQueryListEvent) (w : World) : World :=
  foldl (fun w' h => on_change mq h e w') w (listeners mq).

(** A list whose [matches] differs between the old and the new viewport gets
    one [change] event carrying its new [matches]. *)
Definition report_changes
    (on_change : MediaQueryList -> Handler -> MediaQueryListEvent -> World -> World)
    (old new : Viewport) (qs : list MediaQueryList) (w : World) : World :=
  foldl (fun w' mq =>
           if bool_decide (evalMedia (media mq) old = evalMedia (media mq) new)
           then w'
           else fire on_change mq (mkEvent (evalMedia (media mq) new)) w')
        w qs.

Definition setViewport_with
    (on_change : MediaQueryList -> Handler -> MediaQueryListEvent -> World -> World)
    (v : Viewport) (w : World) : World :=
  match window w with
  | None => w
  | Some win =>
      report_changes on_change (viewport win) v (mqls win)
        (mkWorld (Some (mkWindow v (mqls win))) (fibers w) (closures w) (trace w))
  end.

Definition setViewport : Viewport -> World -> World :=
  setViewport_with (fun _ => handleChange).

(** The listener as the specification words it: on firing, read
    [mediaQuery.matches] again and publish that. *)
Definition handleChange_reread (mq : MediaQueryList) (h : Handler)
    (_ : MediaQueryListEvent) (w : World) : World :=
  match window w with
  | None => w
  | Some win => setMatches (h_inst h) (evalMedia (media mq) (viewport win)) w
  end.

(** ** Executions *)

Inductive Action :=
| Render (i : nat) (query : string)
| Flush (i : nat)
| Unmount (i : nat)
| Resize (v : Viewport).

Definition step (a : Action) : M unit :=
  match a with
  | Render i query => useMediaQuery i query >> ret tt
  | Flush i => flushPassiveEffects i
  | Unmount i => unmount i
  | Resize v => lift (setViewport v)
  end.

Fixpoint run (acts : list Action) : M unit :=
  match acts with
  | [] => ret tt
  | a :: acts' => step a >> run acts'
  end.

Definition initial (v0 : option Viewport) : World :=
  mkWorld (match v0 with
           | None => None
           | Some v => Some (mkWindow v [])
           end) ∅ 0 [].

Definition reachable (w : World) : Prop :=
  exists v0 acts, run acts (initial v0) = inr (tt, w).


(** ** Observations *)

(** What the platform answers, synchronously, to
    [window.matchMedia(query).matches]. *)
Definition platform_match (query : string) : M bool :=
  let! mq := matchMedia query in
  mql_matches mq.

(** The values passed to [setMatches] of instance [i], oldest first. *)
Definition updates_of (i : nat) (tr : list Event) : list bool :=
  omap (fun ev => match ev with
                  | EvSetMatches j v => if decide (j = i) then Some v else None
                  | _ => None
                  end) tr.

Definition listeners_in (qs : list MediaQueryList) (m : nat) : list Handler :=
  match qs !! m with
  | None => []
  | Some mq => listeners mq
  end.

(** The listeners of the list that reference [m] denotes. *)
Definition listeners_at (w : World) (m : nat) : list Handler :=
  match window w with
  | None => []
  | Some win => listeners_in (mqls win) m
  end.

Definition media_at (w : World) (m : nat) : option string :=
  match window w with
  | None => None
  | Some win => media <$> mqls win !! m
  end.

Definition all_listeners (w : World) : list Handler :=
  match window w with
  | None => []
  | Some win => concat (listeners <$> mqls win)
  end.

(** The number of listeners, over all lists, that publish to instance [i]. *)
Definition subscriptions (w : World) (i : nat) : nat :=
  length (filter (fun h => h_inst h = i) (all_listeners w)).

(** Instance [i] observes [q]: there is a viewport context, the instance is
    mounted, its last render was with [q] and the effect of that render has
    run. *)
Definition live (w : World) (i : nat) (q : string) : Prop :=
  window w <> None /\
  exists hk, fibers w !! i = Some hk /\ deps hk = q /\ pending hk = false.

(** The lists after the destroy closure [c] has run. *)
Definition mqls_without (c : option Destroy) (qs : list MediaQueryList)
    : list MediaQueryList :=
  match c with
  | Some (m, h) => alter (remove_listener h) m qs
  | None => qs
  end.

Definition removal (c : option Destroy) : list Event :=
  match c with
  | Some (m, h) => [EvRemoveListener m h]
  | None => []
  end.

Definition value_of {A} (r : Exn + (A * World)) : option A :=
  match r with
  | inl _ => None
  | inr (a, _) => Some a
  end.

Definition resizes (vs : list Viewport) (w : World) : World :=
  foldl (fun w' v => setViewport v w') w vs.

Definition cycle (i : nat) (q : string) : list Action :=
  [Render i q; Flush i; Unmount i].

Fixpoint cycles (n : nat) (i : nat) (q : string) : list Action :=
  match n with
  | O => []
  | S n' => cycle i q ++ cycles n' i q
  end.

(** What a hook gives when a component calls it for the first time, at
    viewport [v]. *)
Definition observe_first (hook : nat -> M bool) (v : Viewport) : option bool :=
  value_of (hook 0 (initial (Some v))).

(** What a hook gives in a component mounted at viewport [v], once its effect
    has run. *)
Definition observe_at (hook : nat -> M bool) (v : Viewport) : option bool :=
  value_of ((hook 0 >> flushPassiveEffects 0 >> hook 0) (initial (Some v))).

(** What a hook gives in one component that stays mounted while the viewport
    takes the given values one after the other. *)
Fixpoint observe_from (hook : nat -> M bool) (vs : list Viewport)
    : M (list bool) :=
  match vs with
  | [] => ret []
  | v :: vs' =>
      lift (setViewport v) >>
      let! b := hook 0 in
      let! bs := observe_from hook vs' in
      ret (b :: bs)
  end.

Definition observe_through (hook : nat -> M bool) (vs : list Viewport)
    : option (list bool) :=
  match vs with
  | [] => Some []
  | v :: _ =>
      value_of ((hook 0 >> flushPassiveEffects 0 >> observe_from hook vs)
                  (initial (Some v)))
  end.

(** Every instance whose effect has run holds the current match state of its
    query. *)
Definition Current (w : World) : Prop :=
  forall i hk win,
    window w = Some win -> fibers w !! i = Some hk -> pending hk = false ->
    matches hk = evalMedia (deps hk) (viewport win).

(** The worlds of an environment with no viewport context. *)
Definition Headless (w : World) : Prop :=
  window w = None /\ trace w = [] /\
  forall i hk, fibers w !! i = Some hk -> matches hk = false /\ cleanup hk = None.

(** The [setMatches] calls that a viewport change from [old] to [new] leads
    to, in dispatch order: instance and value. *)
Definition fired (old new : Viewport) (qs : list MediaQueryList)
    : list (nat * bool) :=
  flat_map (fun mq =>
              if bool_decide (evalMedia (media mq) old = evalMedia (media mq) new)
              then []
              else map (fun h => (h_inst h, evalMedia (media mq) new))
                       (listeners mq)) qs.

Definition publish (sets : list (nat * bool)) (w : World) : World :=
  foldl (fun w' s => setMatches s.1 s.2 w') w sets.

(** The state cell of instance [i] after [sets], from the value [b]. *)
Definition settle (i : nat) (sets : list (nat * bool)) (b : bool) : bool :=
  foldl (fun b' s => if decide (s.1 = i) then s.2 else b') b sets.

(** ** The invariant of executions *)

Record Inv (w : World) : Prop := mkInv {
  inv_listener : forall m h,
    h ∈ listeners_at w m ->
    listeners_at w m = [h] /\
    exists hk, fibers w !! h_inst h = Some hk /\ cleanup hk = Some (m, h);
  inv_cleanup : forall i hk m h,
    fibers w !! i = Some hk -> cleanup hk = Some (m, h) ->
    h_inst h = i /\ listeners_at w m = [h] /\
    (pending hk = false -> media_at w m = Some (deps hk));
  inv_committed : forall i hk,
    fibers w !! i = Some hk -> pending hk = false -> window w <> None ->
    cleanup hk <> None
}.

(** ** The hook of the implementation plan: [useMobile]

    The plan for the mobile model selector (its step 1) gives a second hook,
    for the file [apps/ui/src/hooks/use-mobile.ts]:
    [useMobile(breakpoint: number = 768)]. It differs from [useMediaQuery] in
    four places: the state starts at [false], the effect does not test
    [typeof window], the query is built from a number, and the listener reads
    [mediaQuery.matches] instead of the event.

    [breakpoint] is a JavaScript number, see [JSNumbers]. *)

(** [handleChange] of [useMobile]:
    [() => { setIsMobile(mediaQuery.matches); }]. *)
Definition useMobile_handleChange (mediaQuery : MediaQueryList) (h : Handler)
    (_ : MediaQueryListEvent) (w : World) : World :=
  match window w with
  | None => w
  | Some win =>
      setMatches (h_inst h) (evalMedia (media mediaQuery) (viewport win)) w
  end.

(** The function passed to [useEffect]; [query] is the value of the template
    literal for the breakpoint of the render that scheduled the effect.
    [handleChange()] is the "Set initial value" call. *)
Definition useMobile_effect (i : nat) (query : string) : M (option Destroy) :=
  let! mediaQuery := matchMedia query in
  let! handler := newClosure i in
  let! now := mql_matches mediaQuery in
  lift (setMatches i now) >>
  addEventListener mediaQuery handler >>
  ret (Some (mediaQuery, handler)).

Definition useMobile_flush (i : nat) : M unit :=
  fun w =>
    match fibers w !! i with
    | None => inr (tt, w)
    | Some hk =>
        if pending hk then
          (destroy (cleanup hk) >>
           let! c := useMobile_effect i (deps hk) in
           lift (alter_fiber (with_cleanup c) i)) w
        else inr (tt, w)
    end.

(** React unmounts instance [i]: what happens to the cells of [World]. *)
Definition useMobile_unmount (i : nat) : M unit :=
  useMobile_flush i >>
  fun w =>
    match fibers w !! i with
    | None => inr (tt, w)
    | Some hk =>
        (destroy (cleanup hk) >>
         lift (fun w' => mkWorld (window w') (delete i (fibers w'))
                                 (closures w') (trace w'))) w
    end.

Definition mobile_resizes (vs : list Viewport) (w : World) : World :=
  foldl (fun w' v => setViewport_with useMobile_handleChange v w') w vs.

Section Numbers.

Context {JSNumber : Type} {numbers : JSNumbers JSNumber}.

(** The template literal [`(max-width: ${breakpoint}px)`]. *)
Definition mobile_query (breakpoint : JSNumber) : string :=
  "(max-width: " +:+ Number_toString breakpoint +:+ "px)".

(** What React holds for components that call [useMobile]: the cells of
    [World], where [deps] of an instance is the query of the effect that its
    last change of breakpoint scheduled, and the dependency array
    [[breakpoint]] of the last render of each instance. *)
Record MobileWorld := mkMobile {
  world : World;
  breakpoints : gmap nat JSNumber
}.

Definition MobileM (A : Type) : Type := MobileWorld -> Exn + (A * MobileWorld).

Definition mobile_ret {A} (a : A) : MobileM A := fun mw => inr (a, mw).

Definition mobile_bind {A B} (m : MobileM A) (k : A -> MobileM B) : MobileM B :=
  fun mw => match m mw with
            | inl e => inl e
            | inr (a, mw') => k a mw'
            end.

(** Code that does not read the dependency arrays. *)
Definition in_world {A} (m : M A) : MobileM A :=
  fun mw => match m (world mw) with
            | inl e => inl e
            | inr (a, w') => inr (a, mkMobile w' (breakpoints mw))
            end.

(** One render of instance [i] with argument [breakpoint]. The effect is
    scheduled again when [Object.is] does not hold of [breakpoint] and the
    breakpoint of the last render. *)
Definition useMobile (i : nat) (breakpoint : JSNumber) : MobileM bool :=
  fun mw =>
    match fibers (world mw) !! i with
    | None =>
        (* useState(false) *)
        inr (false,
             mkMobile
               (mkWorld (window (world mw))
                        (<[i := mkHook false (mobile_query breakpoint) true None]>
                           (fibers (world mw)))
                        (closures (world mw)) (trace (world mw)))
               (<[i := breakpoint]> (breakpoints mw)))
    | Some _ =>
        match useMobile_flush i (world mw) with
        | inl e => inl e
        | inr (_, w') =>
            match fibers w' !! i with
            | None => inl ReferenceError   (* not reached *)
            | Some hk =>
                inr (matches hk,
                     if decide (breakpoints mw !! i = Some breakpoint)
                     then mkMobile w' (breakpoints mw)
                     else mkMobile
                            (alter_fiber (with_effect (mobile_query breakpoint))
                                         i w')
                            (<[i := breakpoint]> (breakpoints mw)))
            end
        end
    end.

(** [useMobile()], with the default [breakpoint = 768]. *)
Definition useMobile_default (i : nat) : MobileM bool := useMobile i number_768.

(** Executions of components that call [useMobile]. *)
Inductive MobileAction :=
| MRender (i : nat) (breakpoint : JSNumber)
| MFlush (i : nat)
| MUnmount (i : nat)
| MResize (v : Viewport).

Definition mobile_step (a : MobileAction) : MobileM unit :=
  match a with
  | MRender i breakpoint =>
      mobile_bind (useMobile i breakpoint) (fun _ => mobile_ret tt)
  | MFlush i => in_world (useMobile_flush i)
  | MUnmount i =>
      fun mw => match useMobile_unmount i (world mw) with
                | inl e => inl e
                | inr (_, w') => inr (tt, mkMobile w' (delete i (breakpoints mw)))
                end
  | MResize v => in_world (lift (setViewport_with useMobile_handleChange v))
  end.

Fixpoint mobile_run (acts : list MobileAction) : MobileM unit :=
  match acts with
  | [] => mobile_ret tt
  | a :: acts' => mobile_bind (mobile_step a) (fun _ => mobile_run acts')
  end.

Definition mobile_initial (v0 : option Viewport) : MobileWorld :=
  mkMobile (initial v0) ∅.

Definition mobile_reachable (mw : MobileWorld) : Prop :=
  exists v0 acts, mobile_run acts (mobile_initial v0) = inr (tt, mw).

Definition mobile_value_of {A} (r : Exn + (A * MobileWorld)) : option A :=
  match r with
  | inl _ => None
  | inr (a, _) => Some a
  end.

(** The result of a render, without the dependency arrays. *)
Definition in_World {A} (r : Exn + (A * MobileWorld)) : Exn + (A * World) :=
  match r with
  | inl e => inl e
  | inr (a, mw) => inr (a, world mw)
  end.

(** What [useMobile] gives in one component that stays mounted while the
    viewport takes the given values one after the other. *)
Fixpoint mobile_observe_from (breakpoint : JSNumber) (vs : list Viewport)
    : MobileM (list bool) :=
  match vs with
  | [] => mobile_ret []
  | v :: vs' =>
      mobile_bind (in_world (lift (setViewport_with useMobile_handleChange v)))
        (fun _ =>
           mobile_bind (useMobile 0 breakpoint)
             (fun b =>
                mobile_bind (mobile_observe_from breakpoint vs')
                  (fun bs => mobile_ret (b :: bs))))
  end.

Definition mobile_observe_through (breakpoint : JSNumber) (vs : list Viewport)
    : option (list bool) :=
  match vs with
  | [] => Some []
  | v :: _ =>
      mobile_value_of
        (mobile_bind (useMobile 0 breakpoint)
           (fun _ =>
              mobile_bind (in_world (useMobile_flush 0))
                (fun _ => mobile_observe_from breakpoint vs))
           (mobile_initial (Some v)))
  end.

(** The query of each mounted instance is the one built from the breakpoint
    of its last render. *)
Definition Linked (mw : MobileWorld) : Prop :=
  forall i hk,
    fibers (world mw) !! i = Some hk ->
    exists n, breakpoints mw !! i = Some n /\ deps hk = mobile_query n.

End Numbers.

(** ** More observations *)

(** The engine accepts the query. *)
Definition accepts (q : string) : Prop :=
  exists holds, parseMedia q = inr holds.

(** Every query an instance was last rendered with is accepted. *)
Definition Accepted (w : World) : Prop :=
  forall i hk, fibers w !! i = Some hk -> accepts (deps hk).

(** The instance that React renders, flushes or unmounts in an action. *)
Definition instance_of (a : Action) : option nat :=
  match a with
  | Render i _ | Flush i | Unmount i => Some i
  | Resize _ => None
  end.

(** The listeners that publish to instance [i]. *)
Definition listeners_of (w : World) (i : nat) : list Handler :=
  filter (fun h => h_inst h = i) (all_listeners w).

(** The number of calls of [addEventListener] and of [removeEventListener]
    in a trace. *)
Definition added (tr : list Event) : nat :=
  length (omap (fun ev => match ev with
                          | EvAddListener m h => Some (m, h)
                          | _ => None
                          end) tr).

Definition removed (tr : list Event) : nat :=
  length (omap (fun ev => match ev with
                          | EvRemoveListener m h => Some (m, h)
                          | _ => None
                          end) tr).

(** Every listener in place was added and has not been removed since. *)
Definition Balanced (w : World) : Prop :=
  added (trace w) = removed (trace w) + length (all_listeners w).

(** The calls of [addEventListener] and of [removeEventListener] in a trace
    that name the list [m] and the closure [h], in the order of the trace. *)
Inductive ListenerCall := CallAdd | CallRemove.

Definition calls_on (m : nat) (h : Handler) (tr : list Event)
    : list ListenerCall :=
  omap (fun ev => match ev with
                  | EvAddListener m' h' =>
                      if decide (m' = m /\ h' = h) then Some CallAdd else None
                  | EvRemoveListener m' h' =>
                      if decide (m' = m /\ h' = h) then Some CallRemove else None
                  | EvSetMatches _ _ => None
                  end) tr.

(** A closure that is registered on a list has been added to it once and
    not removed; one that is not registered was never named in a call on
    that list, or was added once and then removed once. *)
Definition Paired (w : World) : Prop :=
  forall m h,
    (h ∈ listeners_at w m /\ calls_on m h (trace w) = [CallAdd]) \/
    ((h ∉ listeners_at w m) /\
     (calls_on m h (trace w) = [] \/
      calls_on m h (trace w) = [CallAdd; CallRemove])).

(** The closures named in the trace are older than the next closure. *)
Definition Fresh (w : World) : Prop :=
  forall m h, calls_on m h (trace w) <> [] -> h_id h < closures w.

(** * Proofs *)

(** ** The primitives, unfolded *)

Lemma bind_inr {A B} (m : M A) (k : A -> M B) w a w' :
  m w = inr (a, w') -> bind m k w = k a w'.
Proof. unfold bind. intros ->. reflexivity. Qed.

Lemma bind_inl {A B} (m : M A) (k : A -> M B) w e :
  m w = inl e -> bind m k w = inl e.
Proof. unfold bind. intros ->. reflexivity. Qed.

Lemma bind_inv {A B} (m : M A) (k : A -> M B) w b w'' :
  bind m k w = inr (b, w'') ->
  exists a w', m w = inr (a, w') /\ k a w' = inr (b, w'').
Proof.
  unfold bind. destruct (m w) as [e | [a w']]; [discriminate |].
  intros Hk. exists a, w'. split; [reflexivity | exact Hk].
Qed.

Lemma evalMedia_parsed q f v : parseMedia q = inr f -> evalMedia q v = f v.
Proof. unfold evalMedia. intros ->. reflexivity. Qed.

Lemma useState_init_no_window q w :
  window w = None -> useState_init q w = inr (false, w).
Proof.
  intros Hw. unfold useState_init, bind, typeof_window_undefined.
  rewrite Hw. reflexivity.
Qed.

Lemma useState_init_window q w win f :
  window w = Some win -> parseMedia q = inr f ->
  useState_init q w =
  inr (f (viewport win),
       mkWorld (Some (mkWindow (viewport win) (mqls win ++ [mkMQL q []])))
               (fibers w) (closures w) (trace w)).
Proof.
  intros Hw Hq.
  unfold useState_init, bind, typeof_window_undefined, matchMedia, mql_matches.
  repeat (simpl; rewrite ?Hw, ?Hq).
  rewrite list_lookup_middle by reflexivity. simpl.
  rewrite (evalMedia_parsed _ _ _ Hq). reflexivity.
Qed.

Lemma useState_init_raises q w win e :
  window w = Some win -> parseMedia q = inl e -> useState_init q w = inl e.
Proof.
  intros Hw Hq.
  unfold useState_init, bind, typeof_window_undefined, matchMedia.
  repeat (simpl; rewrite ?Hw, ?Hq). reflexivity.
Qed.

(** The first render of an instance. *)
Lemma mount_unfold i Q w :
  fibers w !! i = None ->
  useMediaQuery i Q w =
  bind (useState_init Q)
       (fun v => bind (lift (fun w' =>
                   mkWorld (window w')
                           (<[i := mkHook v Q true None]> (fibers w'))
                           (closures w') (trace w')))
                 (fun _ => ret v)) w.
Proof. intros Hi. unfold useMediaQuery. rewrite Hi. reflexivity. Qed.

Lemma effect_no_window i q w :
  window w = None -> effect i q w = inr (None, w).
Proof.
  intros Hw. unfold effect, bind, typeof_window_undefined.
  rewrite Hw. reflexivity.
Qed.

Lemma effect_raises i q w win e :
  window w = Some win -> parseMedia q = inl e -> effect i q w = inl e.
Proof.
  intros Hw Hq. unfold effect, bind, typeof_window_undefined, matchMedia.
  repeat (simpl; rewrite ?Hw, ?Hq). reflexivity.
Qed.

Lemma add_listener_fresh h q : add_listener h (mkMQL q []) = mkMQL q [h].
Proof.
  unfold add_listener. simpl.
  destruct (decide (h ∈ [])) as [Hin | _]; [| reflexivity].
  exfalso. revert Hin. apply not_elem_of_nil.
Qed.

Lemma alter_last {A} (f : A -> A) (l : list A) (x : A) :
  alter f (length l) (l ++ [x]) = l ++ [f x].
Proof.
  induction l as [| y l IH]; simpl; [reflexivity |].
  f_equal. exact IH.
Qed.

(** The effect in a viewport context, on a query the engine accepts: a new
    list, a new closure, one [setMatches] with the list's current [matches],
    then the registration. *)
Lemma effect_window i q w win f :
  window w = Some win -> parseMedia q = inr f ->
  effect i q w =
  inr (Some (length (mqls win), mkHandler (closures w) i),
       mkWorld (Some (mkWindow (viewport win)
                        (mqls win ++ [mkMQL q [mkHandler (closures w) i]])))
               (alter (with_matches (f (viewport win))) i (fibers w))
               (S (closures w))
               (trace w ++ [EvSetMatches i (f (viewport win))]
                        ++ [EvAddListener (length (mqls win))
                                          (mkHandler (closures w) i)])).
Proof.
  intros Hw Hq.
  unfold effect, bind, typeof_window_undefined, matchMedia, newClosure,
    mql_matches, lift, addEventListener, setMatches, log, alter_mql,
    alter_fiber, ret.
  repeat (simpl; rewrite ?Hw, ?Hq).
  rewrite list_lookup_middle by reflexivity. simpl.
  rewrite (evalMedia_parsed _ _ _ Hq).
  rewrite alter_last, add_listener_fresh.
  rewrite <- app_assoc. reflexivity.
Qed.

Lemma destroy_window c w win :
  window w = Some win ->
  destroy c w =
  inr (tt, mkWorld (Some (mkWindow (viewport win) (mqls_without c (mqls win))))
                   (fibers w) (closures w) (trace w ++ removal c)).
Proof.
  intros Hw. destruct c as [[m h] |]; simpl.
  - unfold removeEventListener, lift, log, alter_mql. simpl.
    rewrite Hw. reflexivity.
  - unfold ret. rewrite app_nil_r. destruct w as [wi fi cl tr]; simpl in *.
    rewrite Hw. destruct win; reflexivity.
Qed.

Lemma destroy_no_window w :
  window w = None -> destroy None w = inr (tt, w).
Proof. reflexivity. Qed.

Lemma length_mqls_without c qs : length (mqls_without c qs) = length qs.
Proof. destruct c as [[m h] |]; simpl; [apply length_alter | reflexivity]. Qed.

(** A scheduled effect runs, in a viewport context, on a query the engine
    accepts. *)
Lemma flush_window i w hk win f :
  fibers w !! i = Some hk -> pending hk = true ->
  window w = Some win -> parseMedia (deps hk) = inr f ->
  flushPassiveEffects i w =
  inr (tt,
       mkWorld
         (Some (mkWindow (viewport win)
                  (mqls_without (cleanup hk) (mqls win)
                   ++ [mkMQL (deps hk) [mkHandler (closures w) i]])))
         (<[i := mkHook (f (viewport win)) (deps hk) false
                        (Some (length (mqls win), mkHandler (closures w) i))]>
            (fibers w))
         (S (closures w))
         (trace w ++ removal (cleanup hk)
                  ++ [EvSetMatches i (f (viewport win));
                      EvAddListener (length (mqls win))
                                    (mkHandler (closures w) i)])).
Proof.
  intros Hi Hp Hw Hq. unfold flushPassiveEffects. rewrite Hi, Hp.
  rewrite (bind_inr _ _ _ _ _ (destroy_window _ _ _ Hw)).
  erewrite bind_inr; [| eapply effect_window; [reflexivity | exact Hq]].
  unfold lift, alter_fiber. simpl. rewrite length_mqls_without.
  do 2 f_equal. f_equal.
  - apply map_eq. intros j. destruct (decide (j = i)) as [-> | Hne].
    + rewrite !lookup_alter_eq, lookup_insert_eq, Hi. reflexivity.
    + rewrite !lookup_alter_ne, lookup_insert_ne by congruence. reflexivity.
  - rewrite <- !app_assoc. reflexivity.
Qed.

Lemma flush_no_window i w hk :
  fibers w !! i = Some hk -> pending hk = true ->
  window w = None -> cleanup hk = None ->
  flushPassiveEffects i w =
  inr (tt, mkWorld None (<[i := mkHook (matches hk) (deps hk) false None]> (fibers w))
                   (closures w) (trace w)).
Proof.
  intros Hi Hp Hw Hc. unfold flushPassiveEffects. rewrite Hi, Hp, Hc.
  rewrite (bind_inr _ _ _ _ _ (destroy_no_window _ Hw)).
  rewrite (bind_inr _ _ _ _ _ (effect_no_window _ _ _ Hw)).
  unfold lift, alter_fiber. rewrite Hw. do 2 f_equal. f_equal.
  apply map_eq. intros j. destruct (decide (j = i)) as [-> | Hne].
  - rewrite lookup_alter_eq, lookup_insert_eq, Hi. reflexivity.
  - rewrite lookup_alter_ne, lookup_insert_ne by congruence. reflexivity.
Qed.

Lemma flush_raises i w hk win e :
  fibers w !! i = Some hk -> pending hk = true ->
  window w = Some win -> parseMedia (deps hk) = inl e ->
  flushPassiveEffects i w = inl e.
Proof.
  intros Hi Hp Hw Hq. unfold flushPassiveEffects. rewrite Hi, Hp.
  rewrite (bind_inr _ _ _ _ _ (destroy_window _ _ _ Hw)).
  apply bind_inl. eapply effect_raises; [reflexivity | exact Hq].
Qed.

Lemma flush_idle i w :
  (forall hk, fibers w !! i = Some hk -> pending hk = false) ->
  flushPassiveEffects i w = inr (tt, w).
Proof.
  intros H. unfold flushPassiveEffects.
  destruct (fibers w !! i) as [hk |] eqn:Hi; [| reflexivity].
  rewrite (H hk eq_refl). reflexivity.
Qed.

(** ** Listener lists under the platform's operations *)

Lemma listeners_in_app qs mq m :
  listeners_in (qs ++ [mq]) m =
  if decide (m = length qs) then listeners mq else listeners_in qs m.
Proof.
  unfold listeners_in. destruct (decide (m = length qs)) as [-> | Hne].
  - rewrite list_lookup_middle by reflexivity. reflexivity.
  - destruct (decide (m < length qs)) as [Hlt | Hge].
    + rewrite lookup_app_l by exact Hlt. reflexivity.
    + rewrite !(lookup_ge_None_2); [reflexivity | lia |].
      rewrite length_app. simpl. lia.
Qed.

Lemma listeners_in_ge qs m : length qs <= m -> listeners_in qs m = [].
Proof. intros H. unfold listeners_in. rewrite lookup_ge_None_2; done. Qed.

Lemma listeners_in_remove h k qs m :
  listeners_in (alter (remove_listener h) k qs) m =
  if decide (m = k) then filter (fun h' => h' ≠ h) (listeners_in qs m)
  else listeners_in qs m.
Proof.
  unfold listeners_in. destruct (decide (m = k)) as [-> | Hne].
  - rewrite list_lookup_alter_eq. destruct (qs !! k); reflexivity.
  - rewrite list_lookup_alter_ne by congruence. reflexivity.
Qed.

Lemma media_app qs mq (m : nat) :
  media <$> (qs ++ [mq]) !! m =
  if decide (m = length qs) then Some (media mq) else media <$> qs !! m.
Proof.
  destruct (decide (m = length qs)) as [-> | Hne].
  - rewrite list_lookup_middle by reflexivity. reflexivity.
  - destruct (decide (m < length qs)) as [Hlt | Hge].
    + rewrite lookup_app_l by exact Hlt. reflexivity.
    + rewrite !(lookup_ge_None_2); [reflexivity | lia |].
      rewrite length_app. simpl. lia.
Qed.

Lemma media_mqls_without c qs (m : nat) :
  media <$> mqls_without c qs !! m = media <$> qs !! m.
Proof.
  destruct c as [[k h] |]; simpl; [| reflexivity].
  destruct (decide (m = k)) as [-> | Hne].
  - rewrite list_lookup_alter_eq. destruct (qs !! k); reflexivity.
  - rewrite list_lookup_alter_ne by congruence. reflexivity.
Qed.

Lemma listeners_in_lt qs m h : h ∈ listeners_in qs m -> m < length qs.
Proof.
  intros Hin. destruct (decide (m < length qs)) as [Hlt | Hge]; [exact Hlt |].
  rewrite listeners_in_ge in Hin by lia. exfalso. revert Hin. apply not_elem_of_nil.
Qed.

Lemma filter_ne_singleton (h : Handler) :
  filter (fun h' => h' ≠ h) [h] = [].
Proof. apply filter_singleton_False; [exact [] | intros Hne; apply Hne; reflexivity]. Qed.

Lemma in_singleton (h h' : Handler) : h ∈ [h'] -> h = h'.
Proof. apply list_elem_of_singleton. Qed.

Lemma singleton_in (h : Handler) l : l = [h] -> h ∈ l.
Proof. intros ->. apply list_elem_of_singleton. reflexivity. Qed.

(** ** The invariant holds in every reachable world *)

Lemma Inv_initial v0 : Inv (initial v0).
Proof.
  split.
  - intros m h Hin. exfalso. revert Hin.
    unfold listeners_at, initial. destruct v0; simpl; apply not_elem_of_nil.
  - intros i hk m h Hi. simpl in Hi. rewrite lookup_empty in Hi. discriminate.
  - intros i hk Hi. simpl in Hi. rewrite lookup_empty in Hi. discriminate.
Qed.

Lemma Inv_no_window_cleanup w i hk :
  Inv w -> window w = None -> fibers w !! i = Some hk -> cleanup hk = None.
Proof.
  intros HI Hw Hi. destruct (cleanup hk) as [[m h] |] eqn:Hc; [| reflexivity].
  destruct (inv_cleanup w HI i hk m h Hi Hc) as (_ & Hl & _).
  unfold listeners_at in Hl. rewrite Hw in Hl. discriminate.
Qed.

Lemma listeners_at_window w win m :
  window w = Some win -> listeners_at w m = listeners_in (mqls win) m.
Proof. intros Hw. unfold listeners_at. rewrite Hw. reflexivity. Qed.

(** After the destroy closure of instance [i] has run, what is left in a
    list was there before and belongs to another instance. *)
Lemma without_rest w i hk win m h0 :
  Inv w -> fibers w !! i = Some hk -> window w = Some win ->
  h0 ∈ listeners_in (mqls_without (cleanup hk) (mqls win)) m ->
  h0 ∈ listeners_in (mqls win) m /\ h_inst h0 ≠ i.
Proof.
  intros HI Hi Hw Hin.
  assert (Hother : h0 ∈ listeners_in (mqls win) m ->
                   (forall k h, cleanup hk = Some (k, h) -> m ≠ k) ->
                   h_inst h0 ≠ i).
  { intros Hin0 Hm Heq. rewrite <- (listeners_at_window w win m Hw) in Hin0.
    destruct (inv_listener w HI m h0 Hin0) as (_ & hk0 & Hf & Hc0).
    rewrite Heq, Hi in Hf. injection Hf as <-.
    exact (Hm m h0 Hc0 eq_refl). }
  destruct (cleanup hk) as [[k h] |] eqn:Hc; simpl in Hin.
  - destruct (inv_cleanup w HI i hk k h Hi Hc) as (_ & Hk & _).
    rewrite (listeners_at_window w win k Hw) in Hk.
    rewrite listeners_in_remove in Hin. destruct (decide (m = k)) as [-> | Hne].
    + rewrite Hk, filter_ne_singleton in Hin. exfalso. revert Hin.
      apply not_elem_of_nil.
    + split; [exact Hin |]. apply Hother; [exact Hin |]. congruence.
  - split; [exact Hin |]. apply Hother; [exact Hin |]. congruence.
Qed.

(** ... and the lists of the other instances are as they were. *)
Lemma without_keep w i hk win m h0 :
  Inv w -> fibers w !! i = Some hk -> window w = Some win ->
  listeners_in (mqls win) m = [h0] -> h_inst h0 ≠ i ->
  listeners_in (mqls_without (cleanup hk) (mqls win)) m = [h0].
Proof.
  intros HI Hi Hw Hm Hne. destruct (cleanup hk) as [[k h] |] eqn:Hc; simpl;
    [| exact Hm].
  destruct (inv_cleanup w HI i hk k h Hi Hc) as (Hhi & Hk & _).
  rewrite (listeners_at_window w win k Hw) in Hk.
  rewrite listeners_in_remove. destruct (decide (m = k)) as [-> | Hmk];
    [| exact Hm].
  rewrite Hk in Hm. injection Hm as ->. contradiction.
Qed.

Lemma Inv_flush_window i w hk win f :
  Inv w ->
  fibers w !! i = Some hk -> window w = Some win ->
  Inv (mkWorld
         (Some (mkWindow (viewport win)
                  (mqls_without (cleanup hk) (mqls win)
                   ++ [mkMQL (deps hk) [mkHandler (closures w) i]])))
         (<[i := mkHook (f (viewport win)) (deps hk) false
                        (Some (length (mqls win), mkHandler (closures w) i))]>
            (fibers w))
         (S (closures w))
         (trace w ++ removal (cleanup hk)
                  ++ [EvSetMatches i (f (viewport win));
                      EvAddListener (length (mqls win))
                                    (mkHandler (closures w) i)])).
Proof.
  intros HI Hi Hw.
  pose proof (fun m => listeners_at_window w win m Hw) as Hold.
  split.
  - intros m h0. unfold listeners_at. simpl.
    rewrite listeners_in_app, length_mqls_without. simpl.
    destruct (decide (m = length (mqls win))) as [-> | Hm].
    + intros Hin. apply in_singleton in Hin. subst h0. split; [reflexivity |].
      simpl. rewrite lookup_insert_eq. eexists. split; reflexivity.
    + intros Hin. destruct (without_rest w i hk win m h0 HI Hi Hw Hin) as [Hin0 Hne].
      rewrite <- Hold in Hin0.
      destruct (inv_listener w HI m h0 Hin0) as (Hl & hk0 & Hf & Hc0).
      split.
      * apply (without_keep w i hk win m h0 HI Hi Hw);
          [rewrite <- Hold; exact Hl | exact Hne].
      * exists hk0. rewrite lookup_insert_ne by congruence. split; assumption.
  - intros j hkj m h0. simpl. unfold listeners_at, media_at. simpl.
    rewrite listeners_in_app, media_app, length_mqls_without. simpl.
    destruct (decide (j = i)) as [-> | Hji].
    + rewrite lookup_insert_eq. intros Hj Hc. injection Hj as <-. simpl in *.
      injection Hc as <- <-. simpl.
      rewrite !decide_True by reflexivity. repeat split; reflexivity.
    + rewrite lookup_insert_ne by congruence. intros Hj Hc.
      destruct (inv_cleanup w HI j hkj m h0 Hj Hc) as (Hh & Hl & Hmed).
      rewrite Hold in Hl.
      assert (Hlt : m < length (mqls win)).
      { apply (listeners_in_lt _ _ h0). apply singleton_in. exact Hl. }
      rewrite !decide_False by lia.
      split; [exact Hh |]. split.
      * apply (without_keep w i hk win m h0 HI Hi Hw); [exact Hl | congruence].
      * intros Hp. rewrite media_mqls_without.
        specialize (Hmed Hp). unfold media_at in Hmed. rewrite Hw in Hmed.
        exact Hmed.
  - intros j hkj. simpl. destruct (decide (j = i)) as [-> | Hji].
    + rewrite lookup_insert_eq. intros Hj _ _. injection Hj as <-. discriminate.
    + rewrite lookup_insert_ne by congruence. intros Hj Hp _.
      apply (inv_committed w HI j hkj Hj Hp). rewrite Hw. discriminate.
Qed.


Lemma Inv_no_window w :
  window w = None ->
  (forall i hk, fibers w !! i = Some hk -> cleanup hk = None) ->
  Inv w.
Proof.
  intros Hw Hc. split.
  - intros m h Hin. unfold listeners_at in Hin. rewrite Hw in Hin.
    exfalso. revert Hin. apply not_elem_of_nil.
  - intros i hk m h Hi Hci. rewrite (Hc i hk Hi) in Hci. discriminate.
  - intros i hk _ _ Hne. contradiction.
Qed.

(** The invariant only reads the listener lists, the media strings and, of
    each instance, the scheduling flag, the dependency array and the destroy
    closure. *)
Lemma Inv_ext w w' :
  (forall m, listeners_at w' m = listeners_at w m) ->
  (forall m s, media_at w m = Some s -> media_at w' m = Some s) ->
  (window w' <> None -> window w <> None) ->
  (forall i hk', fibers w' !! i = Some hk' ->
     (cleanup hk' = None /\ pending hk' = true) \/
     exists hk, fibers w !! i = Some hk /\ cleanup hk' = cleanup hk /\
                (pending hk' = false -> pending hk = false /\ deps hk' = deps hk)) ->
  (forall i hk, fibers w !! i = Some hk ->
     exists hk', fibers w' !! i = Some hk' /\ cleanup hk' = cleanup hk) ->
  Inv w -> Inv w'.
Proof.
  intros Hl Hm Hw Hback Hfwd HI. split.
  - intros m h Hin. rewrite Hl in Hin |- *.
    destruct (inv_listener w HI m h Hin) as (Hone & hk & Hf & Hc).
    split; [exact Hone |].
    destruct (Hfwd _ _ Hf) as (hk' & Hf' & Hc'). exists hk'.
    split; [exact Hf' | congruence].
  - intros i hk' m h Hf' Hc'.
    destruct (Hback _ _ Hf') as [[Hnone _] | (hk & Hf & Hc & Hp)]; [congruence |].
    rewrite Hc in Hc'.
    destruct (inv_cleanup w HI i hk m h Hf Hc') as (Hh & Hone & Hmed).
    split; [exact Hh |]. split; [rewrite Hl; exact Hone |].
    intros Hp'. destruct (Hp Hp') as [Hp0 ->]. apply Hm, Hmed, Hp0.
  - intros i hk' Hf' Hp' Hw'.
    destruct (Hback _ _ Hf') as [[_ Hp] | (hk & Hf & Hc & Hp)]; [congruence |].
    rewrite Hc. apply (inv_committed w HI i hk Hf); [apply Hp, Hp' | apply Hw, Hw'].
Qed.

Lemma Inv_flush i w w' :
  Inv w -> flushPassiveEffects i w = inr (tt, w') -> Inv w'.
Proof.
  intros HI Hrun.
  destruct (fibers w !! i) as [hk |] eqn:Hi.
  2:{ rewrite flush_idle in Hrun by (intros hk; congruence).
      injection Hrun as <-. exact HI. }
  destruct (pending hk) eqn:Hp.
  2:{ rewrite flush_idle in Hrun by (intros hk0; congruence).
      injection Hrun as <-. exact HI. }
  destruct (window w) as [win |] eqn:Hw.
  - destruct (parseMedia (deps hk)) as [e | f] eqn:Hq.
    + rewrite (flush_raises i w hk win e Hi Hp Hw Hq) in Hrun. discriminate.
    + rewrite (flush_window i w hk win f Hi Hp Hw Hq) in Hrun.
      injection Hrun as <-. apply Inv_flush_window; assumption.
  - pose proof (Inv_no_window_cleanup w i hk HI Hw Hi) as Hc.
    rewrite (flush_no_window i w hk Hi Hp Hw Hc) in Hrun.
    injection Hrun as <-. apply Inv_no_window; [reflexivity |].
    intros j hkj. simpl. destruct (decide (j = i)) as [-> | Hji].
    + rewrite lookup_insert_eq. intros Hj. injection Hj as <-. reflexivity.
    + rewrite lookup_insert_ne by congruence.
      apply (Inv_no_window_cleanup w j hkj HI Hw).
Qed.

(** The three ways [flushPassiveEffects] returns. *)
Lemma flush_cases i w w' :
  Inv w -> flushPassiveEffects i w = inr (tt, w') ->
  (w' = w /\ forall hk, fibers w !! i = Some hk -> pending hk = false) \/
  (exists hk win f,
     fibers w !! i = Some hk /\ pending hk = true /\
     window w = Some win /\ parseMedia (deps hk) = inr f /\
     w' = mkWorld
            (Some (mkWindow (viewport win)
                     (mqls_without (cleanup hk) (mqls win)
                      ++ [mkMQL (deps hk) [mkHandler (closures w) i]])))
            (<[i := mkHook (f (viewport win)) (deps hk) false
                           (Some (length (mqls win), mkHandler (closures w) i))]>
               (fibers w))
            (S (closures w))
            (trace w ++ removal (cleanup hk)
                     ++ [EvSetMatches i (f (viewport win));
                         EvAddListener (length (mqls win))
                                       (mkHandler (closures w) i)])) \/
  (exists hk,
     fibers w !! i = Some hk /\ pending hk = true /\ window w = None /\
     w' = mkWorld None
            (<[i := mkHook (matches hk) (deps hk) false None]> (fibers w))
            (closures w) (trace w)).
Proof.
  intros HI Hrun.
  destruct (fibers w !! i) as [hk |] eqn:Hi.
  2:{ left. rewrite flush_idle in Hrun by (intros hk; congruence).
      injection Hrun as <-. split; [reflexivity | discriminate]. }
  destruct (pending hk) eqn:Hp.
  2:{ left. rewrite flush_idle in Hrun by (intros hk0; congruence).
      injection Hrun as <-. split; [reflexivity | congruence]. }
  right. destruct (window w) as [win |] eqn:Hw.
  - left. destruct (parseMedia (deps hk)) as [e | f] eqn:Hq.
    + rewrite (flush_raises i w hk win e Hi Hp Hw Hq) in Hrun. discriminate.
    + rewrite (flush_window i w hk win f Hi Hp Hw Hq) in Hrun.
      injection Hrun as <-. exists hk, win, f. repeat split; assumption.
  - right. pose proof (Inv_no_window_cleanup w i hk HI Hw Hi) as Hc.
    rewrite (flush_no_window i w hk Hi Hp Hw Hc) in Hrun.
    injection Hrun as <-. exists hk. repeat split; assumption.
Qed.

(** Running the effects of [i] keeps every instance mounted, leaves [i]
    with no scheduled effect, and does not touch the other instances. *)
Lemma flush_fibers i w w' :
  Inv w -> flushPassiveEffects i w = inr (tt, w') ->
  (forall hk, fibers w !! i = Some hk ->
     exists hk', fibers w' !! i = Some hk' /\ pending hk' = false /\
                 deps hk' = deps hk) /\
  (fibers w !! i = None -> fibers w' !! i = None) /\
  (forall j, j ≠ i -> fibers w' !! j = fibers w !! j) /\
  (window w' = None <-> window w = None).
Proof.
  intros HI Hrun.
  destruct (flush_cases i w w' HI Hrun)
    as [[-> Hidle] | [(hk & win & f & Hi & Hp & Hw & Hq & ->) |
                      (hk & Hi & Hp & Hw & ->)]]; simpl.
  - repeat split; try tauto.
    intros hk Hi. exists hk. repeat split; [exact Hi | apply Hidle, Hi].
  - repeat split.
    + intros hk0 Hi0. rewrite lookup_insert_eq. eexists. split; [reflexivity |].
      simpl. split; congruence.
    + congruence.
    + intros j Hj. apply lookup_insert_ne. congruence.
    + discriminate.
    + congruence.
  - repeat split.
    + intros hk0 Hi0. rewrite lookup_insert_eq. eexists. split; [reflexivity |].
      simpl. split; congruence.
    + congruence.
    + intros j Hj. apply lookup_insert_ne. congruence.
    + congruence.
Qed.

(** A render of a mounted instance, unfolded. *)
Lemma render_update i q w v w' :
  is_Some (fibers w !! i) -> Inv w ->
  useMediaQuery i q w = inr (v, w') ->
  exists w1 hk1,
    flushPassiveEffects i w = inr (tt, w1) /\
    fibers w1 !! i = Some hk1 /\ pending hk1 = false /\
    v = matches hk1 /\
    w' = if decide (deps hk1 = q) then w1
         else alter_fiber (with_effect q) i w1.
Proof.
  intros [hk Hi] HI. unfold useMediaQuery. rewrite Hi. intros Hrun.
  apply bind_inv in Hrun as ([] & w1 & Hflush & Hrest).
  destruct (flush_fibers i w w1 HI Hflush) as (Hkeep & _).
  destruct (Hkeep hk Hi) as (hk1 & Hi1 & Hp1 & _).
  rewrite Hi1 in Hrest. injection Hrest as <- <-.
  exists w1, hk1. repeat split; assumption.
Qed.

(** The first render of an instance, unfolded. *)
Lemma render_mount i q w v w' :
  fibers w !! i = None ->
  useMediaQuery i q w = inr (v, w') ->
  exists w0,
    useState_init q w = inr (v, w0) /\
    w' = mkWorld (window w0) (<[i := mkHook v q true None]> (fibers w0))
                 (closures w0) (trace w0).
Proof.
  intros Hi. unfold useMediaQuery. rewrite Hi. intros Hrun.
  apply bind_inv in Hrun as (v0 & w0 & Hinit & Hrest).
  unfold bind, lift, ret in Hrest. injection Hrest as <- <-.
  exists w0. split; [exact Hinit | reflexivity].
Qed.

Lemma useState_init_cases q w v w0 :
  useState_init q w = inr (v, w0) ->
  (window w = None /\ v = false /\ w0 = w) \/
  (exists win f,
     window w = Some win /\ parseMedia q = inr f /\ v = f (viewport win) /\
     w0 = mkWorld (Some (mkWindow (viewport win) (mqls win ++ [mkMQL q []])))
                  (fibers w) (closures w) (trace w)).
Proof.
  intros Hrun. destruct (window w) as [win |] eqn:Hw.
  - right. destruct (parseMedia q) as [e | f] eqn:Hq.
    + rewrite (useState_init_raises q w win e Hw Hq) in Hrun. discriminate.
    + rewrite (useState_init_window q w win f Hw Hq) in Hrun.
      injection Hrun as <- <-. exists win, f. repeat split; assumption.
  - left. rewrite (useState_init_no_window q w Hw) in Hrun.
    injection Hrun as <- <-. repeat split; assumption.
Qed.

Lemma Inv_render i q w v w' :
  Inv w -> useMediaQuery i q w = inr (v, w') -> Inv w'.
Proof.
  intros HI Hrun. destruct (fibers w !! i) as [hk |] eqn:Hi.
  - destruct (render_update i q w v w' (mk_is_Some _ _ Hi) HI Hrun)
      as (w1 & hk1 & Hflush & Hi1 & Hp1 & _ & ->).
    pose proof (Inv_flush i w w1 HI Hflush) as HI1.
    destruct (decide (deps hk1 = q)) as [_ | Hne]; [exact HI1 |].
    revert HI1. apply Inv_ext; unfold alter_fiber; simpl.
    + reflexivity.
    + tauto.
    + tauto.
    + intros j hk'. destruct (decide (j = i)) as [-> | Hji].
      * rewrite lookup_alter_eq, Hi1. simpl. intros Hj. injection Hj as <-.
        right. exists hk1. simpl. repeat split; [discriminate | discriminate].
      * rewrite lookup_alter_ne by congruence. intros Hj. right. exists hk'.
        repeat split; [exact Hj | assumption].
    + intros j hkj. destruct (decide (j = i)) as [-> | Hji].
      * rewrite lookup_alter_eq. intros ->. simpl. eexists.
        split; reflexivity.
      * rewrite lookup_alter_ne by congruence. intros Hj. exists hkj.
        split; [exact Hj | reflexivity].
  - destruct (render_mount i q w v w' Hi Hrun) as (w0 & Hinit & ->).
    assert (Hfib : forall j hk',
              <[i := mkHook v q true None]> (fibers w) !! j = Some hk' ->
              (cleanup hk' = None /\ pending hk' = true) \/
              exists hk, fibers w !! j = Some hk /\ cleanup hk' = cleanup hk /\
                (pending hk' = false -> pending hk = false /\ deps hk' = deps hk)).
    { intros j hk'. destruct (decide (j = i)) as [-> | Hji].
      - rewrite lookup_insert_eq. intros Hj. injection Hj as <-. left.
        split; reflexivity.
      - rewrite lookup_insert_ne by congruence. intros Hj. right. exists hk'.
        repeat split; [exact Hj | assumption]. }
    assert (Hfwd : forall j hk, fibers w !! j = Some hk ->
              exists hk', <[i := mkHook v q true None]> (fibers w) !! j = Some hk' /\
                          cleanup hk' = cleanup hk).
    { intros j hk Hj. exists hk. rewrite lookup_insert_ne by congruence.
      split; [exact Hj | reflexivity]. }
    destruct (useState_init_cases q w v w0 Hinit)
      as [(Hw & -> & ->) | (win & f & Hw & Hq & -> & ->)];
      revert HI; apply Inv_ext; simpl; try assumption; try tauto.
    + intros m. unfold listeners_at. simpl. rewrite Hw, listeners_in_app. simpl.
      destruct (decide (m = length (mqls win))) as [-> | Hm]; [| reflexivity].
      symmetry. apply listeners_in_ge. lia.
    + intros m s. unfold media_at. simpl. rewrite Hw, media_app.
      destruct (decide (m = length (mqls win))) as [-> | Hm]; [| tauto].
      rewrite lookup_ge_None_2 by lia. discriminate.
    + rewrite Hw. discriminate.
Qed.

(** ** Viewport changes *)

Lemma fire_publish mq e w :
  fire (fun _ => handleChange) mq e w =
  publish (map (fun h => (h_inst h, e_matches e)) (listeners mq)) w.
Proof.
  unfold fire, publish. generalize (listeners mq) as hs. intros hs. revert w.
  induction hs as [| h hs IH]; intros w; simpl; [reflexivity |]. apply IH.
Qed.

Lemma publish_app s1 s2 w : publish (s1 ++ s2) w = publish s2 (publish s1 w).
Proof. unfold publish. apply foldl_app. Qed.

Lemma report_changes_publish old new qs w :
  report_changes (fun _ => handleChange) old new qs w =
  publish (fired old new qs) w.
Proof.
  unfold report_changes. revert w.
  induction qs as [| mq qs IH]; intros w; simpl; [reflexivity |].
  rewrite publish_app, IH. f_equal.
  destruct (bool_decide _); [reflexivity |]. apply fire_publish.
Qed.

Lemma publish_window sets w : window (publish sets w) = window w.
Proof.
  revert w. induction sets as [| s sets IH]; intros w; simpl; [reflexivity |].
  unfold publish in *. simpl. rewrite IH. reflexivity.
Qed.

Lemma publish_trace sets w :
  trace (publish sets w) =
  trace w ++ map (fun s => EvSetMatches s.1 s.2) sets.
Proof.
  revert w. induction sets as [| s sets IH]; intros w; simpl.
  - rewrite app_nil_r. reflexivity.
  - unfold publish in *. simpl. rewrite IH. simpl.
    rewrite <- app_assoc. reflexivity.
Qed.

Lemma publish_fibers sets w i :
  fibers (publish sets w) !! i =
  (fun hk => with_matches (settle i sets (matches hk)) hk) <$> fibers w !! i.
Proof.
  revert w. induction sets as [| [j v] sets IH]; intros w; simpl.
  - destruct (fibers w !! i) as [[]|]; reflexivity.
  - unfold publish, settle in *. simpl. rewrite IH. simpl.
    destruct (decide (j = i)) as [-> | Hji].
    + rewrite lookup_alter_eq. destruct (fibers w !! i) as [[]|]; reflexivity.
    + rewrite lookup_alter_ne by congruence. reflexivity.
Qed.

Lemma settle_app i s1 s2 b :
  settle i (s1 ++ s2) b = settle i s2 (settle i s1 b).
Proof. unfold settle. apply foldl_app. Qed.

Lemma settle_others i sets b :
  (forall s, s ∈ sets -> s.1 ≠ i) -> settle i sets b = b.
Proof.
  induction sets as [| s sets IH]; intros Hall; [reflexivity |].
  unfold settle in *. simpl. rewrite decide_False.
  - apply IH. intros s' Hs'. apply Hall. apply elem_of_cons. right. exact Hs'.
  - apply Hall. apply elem_of_cons. left. reflexivity.
Qed.

Lemma updates_of_app i t1 t2 :
  updates_of i (t1 ++ t2) = updates_of i t1 ++ updates_of i t2.
Proof. unfold updates_of. apply omap_app. Qed.

Lemma updates_of_sets_others i sets :
  (forall s, s ∈ sets -> s.1 ≠ i) ->
  updates_of i (map (fun s => EvSetMatches s.1 s.2) sets) = [].
Proof.
  induction sets as [| s sets IH]; intros Hall; [reflexivity |].
  simpl. unfold updates_of in *. simpl. rewrite decide_False.
  - apply IH. intros s' Hs'. apply Hall. apply elem_of_cons. right. exact Hs'.
  - apply Hall. apply elem_of_cons. left. reflexivity.
Qed.

Lemma fired_app old new q1 q2 :
  fired old new (q1 ++ q2) = fired old new q1 ++ fired old new q2.
Proof. unfold fired. apply flat_map_app. Qed.

(** Only instances with a listener in some list are published to. *)
Lemma fired_inst old new qs s :
  s ∈ fired old new qs ->
  exists m mq h, qs !! m = Some mq /\ h ∈ listeners mq /\ s.1 = h_inst h.
Proof.
  unfold fired. intros Hin. apply list_elem_of_In, in_flat_map in Hin.
  destruct Hin as (mq & Hmq & Hs).
  apply list_elem_of_In, list_elem_of_lookup in Hmq as [m Hm].
  destruct (bool_decide _); [destruct Hs |].
  apply in_map_iff in Hs as (h & <- & Hh). apply list_elem_of_In in Hh.
  exists m, mq, h. repeat split; assumption.
Qed.

Lemma setViewport_publish v w win :
  window w = Some win ->
  setViewport v w =
  publish (fired (viewport win) v (mqls win))
          (mkWorld (Some (mkWindow v (mqls win))) (fibers w) (closures w)
                   (trace w)).
Proof.
  intros Hw. unfold setViewport, setViewport_with. rewrite Hw.
  apply report_changes_publish.
Qed.

Lemma setViewport_no_window v w : window w = None -> setViewport v w = w.
Proof. intros Hw. unfold setViewport, setViewport_with. rewrite Hw. reflexivity. Qed.

Lemma Inv_setViewport v w : Inv w -> Inv (setViewport v w).
Proof.
  intros HI. destruct (window w) as [win |] eqn:Hw.
  2:{ rewrite setViewport_no_window by exact Hw. exact HI. }
  rewrite (setViewport_publish v w win Hw). revert HI. apply Inv_ext.
  - intros m. unfold listeners_at. rewrite publish_window, Hw. reflexivity.
  - intros m s. unfold media_at. rewrite publish_window, Hw. simpl. tauto.
  - rewrite Hw. discriminate.
  - intros i hk'. rewrite publish_fibers. simpl.
    destruct (fibers w !! i) as [hk |]; simpl; [| discriminate].
    intros Hk. injection Hk as <-. right. exists hk. simpl.
    split; [reflexivity |]. split; [reflexivity |].
    intros Hp. split; [exact Hp | reflexivity].
  - intros i hk Hi. rewrite publish_fibers. simpl. rewrite Hi. simpl.
    eexists. split; reflexivity.
Qed.

(** ** Unmounting *)

Lemma unmount_cases i w w' :
  Inv w -> unmount i w = inr (tt, w') ->
  exists w1,
    flushPassiveEffects i w = inr (tt, w1) /\
    ((fibers w1 !! i = None /\ w' = w1) \/
     (exists hk win,
        fibers w1 !! i = Some hk /\ window w1 = Some win /\
        w' = mkWorld (Some (mkWindow (viewport win)
                              (mqls_without (cleanup hk) (mqls win))))
                     (delete i (fibers w1)) (closures w1)
                     (trace w1 ++ removal (cleanup hk))) \/
     (exists hk,
        fibers w1 !! i = Some hk /\ window w1 = None /\
        w' = mkWorld None (delete i (fibers w1)) (closures w1) (trace w1))).
Proof.
  intros HI Hrun. unfold unmount in Hrun.
  apply bind_inv in Hrun as ([] & w1 & Hflush & Hrest).
  exists w1. split; [exact Hflush |].
  pose proof (Inv_flush i w w1 HI Hflush) as HI1.
  destruct (fibers w1 !! i) as [hk |] eqn:Hi1.
  2:{ left. injection Hrest as <-. split; reflexivity. }
  right. destruct (window w1) as [win |] eqn:Hw1.
  - left. rewrite (bind_inr _ _ _ _ _ (destroy_window _ _ _ Hw1)) in Hrest.
    unfold lift in Hrest. injection Hrest as <-. exists hk, win.
    repeat split; reflexivity.
  - right. rewrite (Inv_no_window_cleanup w1 i hk HI1 Hw1 Hi1) in Hrest.
    rewrite (bind_inr _ _ _ _ _ (destroy_no_window _ Hw1)) in Hrest.
    unfold lift in Hrest. injection Hrest as <-. exists hk. rewrite Hw1.
    repeat split; reflexivity.
Qed.

Lemma Inv_unmounted i w hk win :
  Inv w -> fibers w !! i = Some hk -> window w = Some win ->
  Inv (mkWorld (Some (mkWindow (viewport win)
                        (mqls_without (cleanup hk) (mqls win))))
               (delete i (fibers w)) (closures w)
               (trace w ++ removal (cleanup hk))).
Proof.
  intros HI Hi Hw.
  pose proof (fun m => listeners_at_window w win m Hw) as Hold.
  split.
  - intros m h0. unfold listeners_at. simpl. intros Hin.
    destruct (without_rest w i hk win m h0 HI Hi Hw Hin) as [Hin0 Hne].
    rewrite <- Hold in Hin0.
    destruct (inv_listener w HI m h0 Hin0) as (Hl & hk0 & Hf & Hc0).
    split.
    + apply (without_keep w i hk win m h0 HI Hi Hw);
        [rewrite <- Hold; exact Hl | exact Hne].
    + exists hk0. rewrite lookup_delete_ne by congruence. split; assumption.
  - intros j hkj m h0. simpl. unfold listeners_at, media_at. simpl.
    destruct (decide (j = i)) as [-> | Hji].
    + rewrite lookup_delete_eq. discriminate.
    + rewrite lookup_delete_ne by congruence. intros Hj Hc.
      destruct (inv_cleanup w HI j hkj m h0 Hj Hc) as (Hh & Hl & Hmed).
      rewrite Hold in Hl.
      split; [exact Hh |]. split.
      * apply (without_keep w i hk win m h0 HI Hi Hw); [exact Hl | congruence].
      * intros Hp. rewrite media_mqls_without.
        specialize (Hmed Hp). unfold media_at in Hmed. rewrite Hw in Hmed.
        exact Hmed.
  - intros j hkj. simpl. destruct (decide (j = i)) as [-> | Hji].
    + rewrite lookup_delete_eq. discriminate.
    + rewrite lookup_delete_ne by congruence. intros Hj Hp _.
      apply (inv_committed w HI j hkj Hj Hp). rewrite Hw. discriminate.
Qed.

Lemma Inv_unmount i w w' : Inv w -> unmount i w = inr (tt, w') -> Inv w'.
Proof.
  intros HI Hrun.
  destruct (unmount_cases i w w' HI Hrun) as (w1 & Hflush & Hcases).
  pose proof (Inv_flush i w w1 HI Hflush) as HI1.
  destruct Hcases as [[_ ->] | [(hk & win & Hi1 & Hw1 & ->) |
                                 (hk & Hi1 & Hw1 & ->)]].
  - exact HI1.
  - apply Inv_unmounted; assumption.
  - apply Inv_no_window; [reflexivity |]. simpl. intros j hkj.
    destruct (decide (j = i)) as [-> | Hji].
    + rewrite lookup_delete_eq. discriminate.
    + rewrite lookup_delete_ne by congruence.
      apply (Inv_no_window_cleanup w1 j hkj HI1 Hw1).
Qed.

Lemma Inv_step a w w' : Inv w -> step a w = inr (tt, w') -> Inv w'.
Proof.
  intros HI. destruct a as [i q | i | i | v]; simpl.
  - intros Hrun. apply bind_inv in Hrun as (b & w1 & Hr & Hret).
    injection Hret as <-. exact (Inv_render i q w b w1 HI Hr).
  - apply Inv_flush, HI.
  - apply Inv_unmount, HI.
  - unfold lift. intros Hrun. injection Hrun as <-. apply Inv_setViewport, HI.
Qed.

Lemma Inv_run acts w w' : Inv w -> run acts w = inr (tt, w') -> Inv w'.
Proof.
  revert w. induction acts as [| a acts IH]; intros w HI; simpl.
  - unfold ret. intros Hrun. injection Hrun as <-. exact HI.
  - intros Hrun. apply bind_inv in Hrun as ([] & w1 & Hstep & Hrest).
    exact (IH w1 (Inv_step a w w1 HI Hstep) Hrest).
Qed.

Lemma reachable_Inv w : reachable w -> Inv w.
Proof. intros (v0 & acts & Hrun). exact (Inv_run acts _ w (Inv_initial v0) Hrun). Qed.

(** ** One listener per live instance *)

(** What the invariant says of an instance whose effect has run in a
    viewport context. *)
Lemma live_subscription w i q :
  Inv w -> live w i q ->
  exists win hk m h mq,
    window w = Some win /\ fibers w !! i = Some hk /\
    deps hk = q /\ pending hk = false /\ cleanup hk = Some (m, h) /\
    h_inst h = i /\ mqls win !! m = Some mq /\
    listeners mq = [h] /\ media mq = q.
Proof.
  intros HI (Hw & hk & Hi & Hq & Hp).
  destruct (window w) as [win |] eqn:Hwin; [| contradiction].
  destruct (cleanup hk) as [[m h] |] eqn:Hc.
  2:{ exfalso. apply (inv_committed w HI i hk Hi Hp); [rewrite Hwin |]; done. }
  destruct (inv_cleanup w HI i hk m h Hi Hc) as (Hh & Hl & Hm).
  specialize (Hm Hp). unfold media_at in Hm. unfold listeners_at in Hl.
  rewrite Hwin in Hm, Hl. unfold listeners_in in Hl.
  destruct (mqls win !! m) as [mq |] eqn:Hmq; [| discriminate].
  simpl in Hm. injection Hm as Hm.
  exists win, hk, m, h, mq.
  split; [reflexivity |]. split; [exact Hi |]. split; [exact Hq |].
  split; [exact Hp |]. split; [exact Hc |]. split; [exact Hh |].
  split; [exact Hmq |]. split; [exact Hl | congruence].
Qed.

(** A listener in another list than the one [i] subscribed to publishes to
    another instance. *)
Lemma other_list_other_instance w win i hk m h k mq' h' :
  Inv w -> window w = Some win ->
  fibers w !! i = Some hk -> cleanup hk = Some (m, h) ->
  mqls win !! k = Some mq' -> h' ∈ listeners mq' -> k ≠ m ->
  h_inst h' ≠ i.
Proof.
  intros HI Hw Hi Hc Hk Hin Hkm Heq.
  assert (Hreg : h' ∈ listeners_at w k).
  { unfold listeners_at, listeners_in. rewrite Hw, Hk. exact Hin. }
  destruct (inv_listener w HI k h' Hreg) as (_ & hk' & Hf & Hc').
  rewrite Heq, Hi in Hf. injection Hf as <-. congruence.
Qed.

Lemma split_at_subscription w win i hk m h mq :
  Inv w -> window w = Some win ->
  fibers w !! i = Some hk -> cleanup hk = Some (m, h) ->
  mqls win !! m = Some mq ->
  mqls win = take m (mqls win) ++ [mq] ++ drop (S m) (mqls win) /\
  (forall mq' h', mq' ∈ take m (mqls win) -> h' ∈ listeners mq' -> h_inst h' ≠ i) /\
  (forall mq' h', mq' ∈ drop (S m) (mqls win) -> h' ∈ listeners mq' -> h_inst h' ≠ i).
Proof.
  intros HI Hw Hi Hc Hm. split; [| split].
  - symmetry. apply take_drop_middle. exact Hm.
  - intros mq' h' Hin Hh. apply list_elem_of_lookup in Hin as [k Hk].
    apply lookup_take_Some in Hk as [Hk Hlt].
    apply (other_list_other_instance w win i hk m h k mq' h'); try assumption. lia.
  - intros mq' h' Hin Hh. apply list_elem_of_lookup in Hin as [k Hk].
    rewrite lookup_drop in Hk.
    apply (other_list_other_instance w win i hk m h (S m + k) mq' h');
      try assumption. lia.
Qed.

Lemma fired_others old new qs i :
  (forall mq' h', mq' ∈ qs -> h' ∈ listeners mq' -> h_inst h' ≠ i) ->
  forall s, s ∈ fired old new qs -> s.1 ≠ i.
Proof.
  intros Hall s Hs. apply fired_inst in Hs as (k & mq' & h' & Hk & Hh & ->).
  apply (Hall mq' h'); [| exact Hh]. apply list_elem_of_lookup. exists k. exact Hk.
Qed.

(** The [setMatches] calls of a viewport change, around the one list that
    instance [i] listens to. *)
Lemma fired_split w i q old new :
  Inv w -> live w i q ->
  exists win s1 s2,
    window w = Some win /\
    fired old new (mqls win) =
      s1 ++ (if bool_decide (evalMedia q old = evalMedia q new) then []
             else [(i, evalMedia q new)]) ++ s2 /\
    (forall s, s ∈ s1 -> s.1 ≠ i) /\ (forall s, s ∈ s2 -> s.1 ≠ i).
Proof.
  intros HI Hlive.
  destruct (live_subscription w i q HI Hlive)
    as (win & hk & m & h & mq & Hw & Hi & Hq & Hp & Hc & Hh & Hm & Hl & Hmed).
  destruct (split_at_subscription w win i hk m h mq HI Hw Hi Hc Hm)
    as (Hsplit & Hbefore & Hafter).
  exists win, (fired old new (take m (mqls win))),
    (fired old new (drop (S m) (mqls win))).
  split; [exact Hw |]. split; [| split].
  - rewrite Hsplit at 1. rewrite !fired_app. f_equal. f_equal.
    unfold fired. simpl. rewrite Hmed, Hl, app_nil_r. simpl. rewrite Hh.
    reflexivity.
  - apply fired_others. exact Hbefore.
  - apply fired_others. exact Hafter.
Qed.

Lemma all_listeners_elem w h :
  h ∈ all_listeners w -> exists m, h ∈ listeners_at w m.
Proof.
  unfold all_listeners, listeners_at, listeners_in.
  destruct (window w) as [win |]; [| intros Hin; inversion Hin].
  intros Hin. apply list_elem_of_In, in_concat in Hin as (l & Hl & Hin).
  apply list_elem_of_In in Hin, Hl.
  apply list_elem_of_fmap in Hl as (mq & -> & Hmq).
  apply list_elem_of_lookup in Hmq as [m Hm]. exists m. rewrite Hm. exact Hin.
Qed.

(** An instance that holds a destroy closure has exactly one listener, the
    one the closure removes. *)
Lemma subscribed_filter w i hk m h :
  Inv w -> fibers w !! i = Some hk -> cleanup hk = Some (m, h) ->
  filter (fun h' => h_inst h' = i) (all_listeners w) = [h].
Proof.
  intros HI Hi Hc.
  destruct (inv_cleanup w HI i hk m h Hi Hc) as (Hh & Hl & _).
  unfold listeners_at, listeners_in in Hl.
  destruct (window w) as [win |] eqn:Hw; [| discriminate].
  destruct (mqls win !! m) as [mq |] eqn:Hm; [| discriminate].
  destruct (split_at_subscription w win i hk m h mq HI Hw Hi Hc Hm)
    as (Hsplit & Hbefore & Hafter).
  assert (Hnone : forall qs,
            (forall mq' h', mq' ∈ qs -> h' ∈ listeners mq' -> h_inst h' ≠ i) ->
            filter (fun h' => h_inst h' = i) (concat (listeners <$> qs)) = []).
  { intros qs Hall. apply elem_of_nil_inv. intros h' Hin.
    apply list_elem_of_filter in Hin as [Hinst Hin].
    apply list_elem_of_In, in_concat in Hin as (l & Hl' & Hin).
    apply list_elem_of_In in Hin, Hl'.
    apply list_elem_of_fmap in Hl' as (mq' & -> & Hmq').
    exact (Hall mq' h' Hmq' Hin Hinst). }
  unfold all_listeners. rewrite Hw, Hsplit.
  rewrite !fmap_app, !concat_app, !filter_app.
  rewrite (Hnone _ Hbefore), (Hnone _ Hafter). simpl.
  rewrite Hl, app_nil_r. simpl.
  rewrite filter_cons_True by exact Hh. reflexivity.
Qed.

(** An instance that holds no destroy closure, or is not mounted, has no
    listener. *)
Lemma unsubscribed_filter w i :
  Inv w ->
  (forall hk, fibers w !! i = Some hk -> cleanup hk = None) ->
  filter (fun h' => h_inst h' = i) (all_listeners w) = [].
Proof.
  intros HI Hnone. apply elem_of_nil_inv. intros h Hin.
  apply list_elem_of_filter in Hin as [Hinst Hin].
  apply all_listeners_elem in Hin as [m Hin].
  destruct (inv_listener w HI m h Hin) as (_ & hk & Hf & Hc).
  rewrite Hinst in Hf. rewrite (Hnone hk Hf) in Hc. discriminate.
Qed.

Lemma subscriptions_live w i q :
  Inv w -> live w i q -> subscriptions w i = 1.
Proof.
  intros HI Hlive.
  destruct (live_subscription w i q HI Hlive)
    as (win & hk & m & h & mq & Hw & Hi & Hq & Hp & Hc & _).
  unfold subscriptions. rewrite (subscribed_filter w i hk m h HI Hi Hc).
  reflexivity.
Qed.

Lemma subscriptions_unmounted w i :
  Inv w -> fibers w !! i = None -> subscriptions w i = 0.
Proof.
  intros HI Hi. unfold subscriptions. rewrite unsubscribed_filter; [reflexivity | exact HI |].
  intros hk. congruence.
Qed.

Lemma subscriptions_le_1 w i : Inv w -> subscriptions w i <= 1.
Proof.
  intros HI. unfold subscriptions.
  destruct (fibers w !! i) as [hk |] eqn:Hi.
  - destruct (cleanup hk) as [[m h] |] eqn:Hc.
    + rewrite (subscribed_filter w i hk m h HI Hi Hc). simpl. lia.
    + rewrite unsubscribed_filter; [simpl; lia | exact HI |].
      intros hk0. congruence.
  - rewrite unsubscribed_filter; [simpl; lia | exact HI |].
    intros hk0. congruence.
Qed.

(** ** The first render *)

Lemma platform_match_window Q w win f :
  window w = Some win -> parseMedia Q = inr f ->
  value_of (platform_match Q w) = Some (f (viewport win)).
Proof.
  intros Hw Hq. unfold platform_match, bind, matchMedia, mql_matches.
  repeat (simpl; rewrite ?Hw, ?Hq).
  rewrite list_lookup_middle by reflexivity. simpl.
  rewrite (evalMedia_parsed _ _ _ Hq). reflexivity.
Qed.

(** C1. The value the first render of [useMediaQuery] gives is [false] when
    there is no [window], and otherwise what [window.matchMedia(Q).matches]
    answers at that moment: for a query the engine accepts, its condition on
    the current viewport. *)
Theorem useMediaQuery_initial_value (Q : string) (i : nat) (w : World) :
  fibers w !! i = None ->
  value_of (useMediaQuery i Q w) =
    match window w with
    | None => Some false
    | Some _ => value_of (platform_match Q w)
    end /\
  (forall win f, window w = Some win -> parseMedia Q = inr f ->
     value_of (useMediaQuery i Q w) = Some (f (viewport win))).
Proof.
  intros Hi. rewrite (mount_unfold i Q w Hi).
  destruct (window w) as [win |] eqn:Hw.
  - destruct (parseMedia Q) as [e | f] eqn:Hq.
    + rewrite (bind_inl _ _ _ _ (useState_init_raises Q w win e Hw Hq)).
      split; [| intros win' f' _ Hf'; discriminate].
      unfold platform_match, bind, matchMedia. rewrite Hw, Hq. reflexivity.
    + rewrite (bind_inr _ _ _ _ _ (useState_init_window Q w win f Hw Hq)).
      rewrite (platform_match_window Q w win f Hw Hq).
      split; [reflexivity |].
      intros win' f' Hw' Hf'. injection Hw' as <-. injection Hf' as <-.
      reflexivity.
  - rewrite (bind_inr _ _ _ _ _ (useState_init_no_window Q w Hw)).
    split; [reflexivity | intros win' f' Hw'; discriminate].
Qed.

(** ** No viewport context *)

Lemma Headless_initial : Headless (initial None).
Proof.
  split; [reflexivity |]. split; [reflexivity |].
  intros i hk Hi. simpl in Hi. rewrite lookup_empty in Hi. discriminate.
Qed.

Lemma Headless_flush i w :
  Headless w ->
  exists w', flushPassiveEffects i w = inr (tt, w') /\ Headless w' /\
             (forall hk, fibers w !! i = Some hk ->
                exists hk', fibers w' !! i = Some hk' /\ deps hk' = deps hk).
Proof.
  intros (Hw & Ht & Hf).
  destruct (fibers w !! i) as [hk |] eqn:Hi.
  2:{ exists w. rewrite flush_idle by (intros hk; congruence).
      split; [reflexivity |]. split; [exact (conj Hw (conj Ht Hf)) |].
      intros hk Hk. discriminate. }
  destruct (pending hk) eqn:Hp.
  2:{ exists w. rewrite flush_idle by (intros hk0; congruence).
      split; [reflexivity |]. split; [exact (conj Hw (conj Ht Hf)) |].
      intros hk0 Hk. injection Hk as <-. exists hk.
      split; [exact Hi | reflexivity]. }
  destruct (Hf i hk Hi) as [Hm Hc].
  rewrite (flush_no_window i w hk Hi Hp Hw Hc). eexists. split; [reflexivity |].
  split.
  - split; [reflexivity |]. split; [exact Ht |]. simpl. intros j hkj.
    destruct (decide (j = i)) as [-> | Hji].
    + rewrite lookup_insert_eq. intros Hj. injection Hj as <-. simpl.
      split; [exact Hm | reflexivity].
    + rewrite lookup_insert_ne by congruence. apply Hf.
  - intros hk0 Hk. injection Hk as <-. simpl. rewrite lookup_insert_eq.
    eexists. split; reflexivity.
Qed.

Lemma Headless_render i Q w :
  Headless w ->
  exists w', useMediaQuery i Q w = inr (false, w') /\ Headless w'.
Proof.
  intros HH. pose proof HH as (Hw & Ht & Hf). unfold useMediaQuery.
  destruct (fibers w !! i) as [hk |] eqn:Hi.
  - destruct (Headless_flush i w HH) as (w1 & Hflush & HH1 & Hkeep).
    destruct (Hkeep hk Hi) as (hk1 & Hi1 & _).
    rewrite (bind_inr _ _ _ _ _ Hflush), Hi1.
    destruct HH1 as (Hw1 & Ht1 & Hf1).
    destruct (Hf1 i hk1 Hi1) as [Hm1 Hc1]. rewrite Hm1.
    eexists. split; [reflexivity |].
    destruct (decide (deps hk1 = Q)) as [_ | Hne].
    + exact (conj Hw1 (conj Ht1 Hf1)).
    + split; [exact Hw1 |]. split; [exact Ht1 |]. simpl. intros j hkj.
      destruct (decide (j = i)) as [-> | Hji].
      * rewrite lookup_alter_eq, Hi1. simpl. intros Hj. injection Hj as <-.
        simpl. split; assumption.
      * rewrite lookup_alter_ne by congruence. apply Hf1.
  - rewrite (bind_inr _ _ _ _ _ (useState_init_no_window Q w Hw)).
    unfold bind, lift, ret. eexists. split; [reflexivity |].
    split; [exact Hw |]. split; [exact Ht |]. simpl. intros j hkj.
    destruct (decide (j = i)) as [-> | Hji].
    + rewrite lookup_insert_eq. intros Hj. injection Hj as <-.
      split; reflexivity.
    + rewrite lookup_insert_ne by congruence. apply Hf.
Qed.

Lemma Headless_unmount i w :
  Headless w -> exists w', unmount i w = inr (tt, w') /\ Headless w'.
Proof.
  intros HH. unfold unmount.
  destruct (Headless_flush i w HH) as (w1 & Hflush & HH1 & _).
  rewrite (bind_inr _ _ _ _ _ Hflush).
  pose proof HH1 as (Hw1 & Ht1 & Hf1).
  destruct (fibers w1 !! i) as [hk1 |] eqn:Hi1.
  2:{ exists w1. split; [reflexivity | exact HH1]. }
  destruct (Hf1 i hk1 Hi1) as [_ Hc1]. rewrite Hc1.
  rewrite (bind_inr _ _ _ _ _ (destroy_no_window _ Hw1)).
  unfold lift. eexists. split; [reflexivity |].
  split; [exact Hw1 |]. split; [exact Ht1 |]. simpl. intros j hkj.
  destruct (decide (j = i)) as [-> | Hji].
  - rewrite lookup_delete_eq. discriminate.
  - rewrite lookup_delete_ne by congruence. apply Hf1.
Qed.

Lemma Headless_step a w :
  Headless w -> exists w', step a w = inr (tt, w') /\ Headless w'.
Proof.
  intros HH. destruct a as [i q | i | i | v]; simpl.
  - destruct (Headless_render i q w HH) as (w' & Hr & HH').
    exists w'. rewrite (bind_inr _ _ _ _ _ Hr). split; [reflexivity | exact HH'].
  - destruct (Headless_flush i w HH) as (w' & Hr & HH' & _).
    exists w'. split; assumption.
  - apply Headless_unmount, HH.
  - exists w. unfold lift. rewrite setViewport_no_window by apply HH.
    split; [reflexivity | exact HH].
Qed.

Lemma Headless_run acts w :
  Headless w -> exists w', run acts w = inr (tt, w') /\ Headless w'.
Proof.
  revert w. induction acts as [| a acts IH]; intros w HH; simpl.
  - exists w. split; [reflexivity | exact HH].
  - destruct (Headless_step a w HH) as (w1 & Hstep & HH1).
    rewrite (bind_inr _ _ _ _ _ Hstep). apply IH, HH1.
Qed.

(** C2. With no viewport context the observer is the constant [false]:
    whatever is rendered, flushed, unmounted or resized, in whatever order,
    the execution goes through, no listener is ever registered, [setMatches]
    is never called (the trace stays empty), every instance holds [false] and
    no destroy closure, and a render with any query [Q] gives [false]. *)
Theorem no_viewport_constant_false (acts : list Action) :
  exists w,
    run acts (initial None) = inr (tt, w) /\
    window w = None /\ trace w = [] /\
    (forall i, subscriptions w i = 0) /\
    (forall i hk, fibers w !! i = Some hk ->
       matches hk = false /\ cleanup hk = None) /\
    (forall i Q, exists w',
       useMediaQuery i Q w = inr (false, w') /\ trace w' = []).
Proof.
  destruct (Headless_run acts (initial None) Headless_initial)
    as (w & Hrun & HH).
  exists w. pose proof HH as (Hw & Ht & Hf).
  split; [exact Hrun |]. split; [exact Hw |]. split; [exact Ht |].
  split; [| split; [exact Hf |]].
  - intros i. unfold subscriptions, all_listeners. rewrite Hw. reflexivity.
  - intros i Q. destruct (Headless_render i Q w HH) as (w' & Hr & HH').
    exists w'. split; [exact Hr | apply HH'].
Qed.

(** ** A live observer under viewport changes *)

Lemma render_idle i q w hk :
  fibers w !! i = Some hk -> pending hk = false ->
  useMediaQuery i q w =
  inr (matches hk,
       if decide (deps hk = q) then w else alter_fiber (with_effect q) i w).
Proof.
  intros Hi Hp. unfold useMediaQuery. rewrite Hi.
  rewrite (bind_inr _ _ _ tt w) by (apply flush_idle; intros hk0; congruence).
  rewrite Hi. reflexivity.
Qed.

(** What a viewport change does to a live observer of [q]: one [setMatches]
    with the new [matches] when the change crosses the threshold of [q], and
    nothing otherwise. *)
Lemma setViewport_live w i q win hk v :
  Inv w -> live w i q -> window w = Some win -> fibers w !! i = Some hk ->
  let crossed := negb (bool_decide (evalMedia q (viewport win) = evalMedia q v)) in
  updates_of i (trace (setViewport v w)) =
    updates_of i (trace w) ++ (if crossed then [evalMedia q v] else []) /\
  fibers (setViewport v w) !! i =
    Some (with_matches (if crossed then evalMedia q v else matches hk) hk) /\
  window (setViewport v w) = Some (mkWindow v (mqls win)).
Proof.
  intros HI Hlive Hw Hi crossed.
  destruct (fired_split w i q (viewport win) v HI Hlive)
    as (win' & s1 & s2 & Hw' & Hfired & H1 & H2).
  rewrite Hw in Hw'. injection Hw' as <-.
  rewrite (setViewport_publish v w win Hw).
  rewrite publish_trace, publish_fibers, publish_window. simpl.
  rewrite Hfired, Hi. simpl.
  rewrite !map_app, !updates_of_app, !settle_app.
  rewrite (updates_of_sets_others i s1 H1), (updates_of_sets_others i s2 H2).
  rewrite (settle_others i s2 _ H2), (settle_others i s1 _ H1).
  subst crossed. destruct (bool_decide _); simpl.
  - repeat split; reflexivity.
  - rewrite !decide_True by reflexivity. repeat split; reflexivity.
Qed.

Lemma live_setViewport w i q v :
  Inv w -> live w i q -> live (setViewport v w) i q.
Proof.
  intros HI Hlive. pose proof Hlive as (Hw & hk & Hi & Hq & Hp).
  destruct (window w) as [win |] eqn:Hwin; [| contradiction].
  destruct (setViewport_live w i q win hk v HI Hlive Hwin Hi) as (_ & Hf & Hw').
  split; [rewrite Hw'; discriminate |].
  eexists. split; [exact Hf |]. simpl. split; assumption.
Qed.

(** C5. While instance [i] observes [Q], a viewport change across the
    threshold of [Q] leads to exactly one [setMatches] call of [i]; it carries
    the match state of [Q] after the change, which is then the state cell and
    what the next render gives; the observer stays live. *)
Theorem threshold_crossing_one_update
    (w : World) (i : nat) (Q : string) (win : Window) (v' : Viewport) :
  reachable w -> live w i Q -> window w = Some win ->
  evalMedia Q (viewport win) <> evalMedia Q v' ->
  updates_of i (trace (setViewport v' w)) =
    updates_of i (trace w) ++ [evalMedia Q v'] /\
  (exists hk', fibers (setViewport v' w) !! i = Some hk' /\
               matches hk' = evalMedia Q v') /\
  value_of (useMediaQuery i Q (setViewport v' w)) = Some (evalMedia Q v') /\
  live (setViewport v' w) i Q.
Proof.
  intros Hreach Hlive Hw Hcross.
  pose proof (reachable_Inv w Hreach) as HI.
  pose proof Hlive as (_ & hk & Hi & Hq & Hp).
  destruct (setViewport_live w i Q win hk v' HI Hlive Hw Hi) as (Ht & Hf & _).
  rewrite bool_decide_eq_false_2 in Ht, Hf by exact Hcross. simpl in Ht, Hf.
  split; [exact Ht |]. split; [| split].
  - eexists. split; [exact Hf | reflexivity].
  - rewrite (render_idle i Q _ _ Hf Hp). reflexivity.
  - apply live_setViewport; assumption.
Qed.

(** ** The event's [matches] and the list's [matches] *)

Lemma fire_reread mq w win :
  window w = Some win ->
  fire handleChange_reread mq (mkEvent (evalMedia (media mq) (viewport win))) w =
  fire (fun _ => handleChange) mq
       (mkEvent (evalMedia (media mq) (viewport win))) w.
Proof.
  unfold fire. generalize (listeners mq) as hs. intros hs. revert w.
  induction hs as [| h hs IH]; intros w Hw; simpl; [reflexivity |].
  assert (Hsame : handleChange_reread mq h
                    (mkEvent (evalMedia (media mq) (viewport win))) w =
                  handleChange h (mkEvent (evalMedia (media mq) (viewport win))) w).
  { unfold handleChange_reread, handleChange. rewrite Hw. reflexivity. }
  rewrite Hsame. apply IH. unfold handleChange, setMatches. simpl. exact Hw.
Qed.

Lemma report_changes_reread old qs w win :
  window w = Some win ->
  report_changes handleChange_reread old (viewport win) qs w =
  report_changes (fun _ => handleChange) old (viewport win) qs w.
Proof.
  unfold report_changes. revert w.
  induction qs as [| mq qs IH]; intros w Hw; simpl; [reflexivity |].
  destruct (bool_decide _); [apply IH, Hw |].
  rewrite (fire_reread mq w win Hw). apply IH.
  rewrite fire_publish, publish_window. exact Hw.
Qed.

(** C8. The listener of the source publishes the [matches] carried by the
    event; a listener that reads [mediaQuery.matches] again when it fires
    publishes the same value: under the platform's dispatch the two leave
    the same world, trace of [setMatches] calls included, after every
    viewport change. *)
Theorem event_matches_is_reread (v : Viewport) (w : World) :
  setViewport v w = setViewport_with handleChange_reread v w.
Proof.
  unfold setViewport, setViewport_with.
  destruct (window w) as [win |] eqn:Hw; [| reflexivity].
  symmetry.
  apply (report_changes_reread (viewport win) (mqls win) _ (mkWindow v (mqls win))).
  reflexivity.
Qed.

(** ** Exceptions of the query engine *)

Lemma matchMedia_raises Q w e :
  window w <> None ->
  (matchMedia Q w = inl e <-> parseMedia Q = inl e).
Proof.
  intros Hw. unfold matchMedia. destruct (window w) as [win |]; [| contradiction].
  destruct (parseMedia Q) as [e' | f]; split; congruence.
Qed.

Lemma destroy_total c w :
  exists w1, destroy c w = inr (tt, w1) /\
             (window w = None -> window w1 = None).
Proof.
  destruct c as [[m h] |]; simpl.
  - eexists. split; [reflexivity |]. simpl. intros ->. reflexivity.
  - exists w. split; [reflexivity | tauto].
Qed.

Lemma flush_no_window_total j w :
  window w = None -> exists w', flushPassiveEffects j w = inr (tt, w').
Proof.
  intros Hw. unfold flushPassiveEffects.
  destruct (fibers w !! j) as [hk |]; [| eexists; reflexivity].
  destruct (pending hk); [| eexists; reflexivity].
  destruct (destroy_total (cleanup hk) w) as (w1 & Hd & Hw1).
  rewrite (bind_inr _ _ _ _ _ Hd).
  rewrite (bind_inr _ _ _ _ _ (effect_no_window _ _ _ (Hw1 Hw))).
  eexists. reflexivity.
Qed.

(** C9. [useMediaQuery] neither validates the query nor catches anything.
    The first render raises [e] exactly when there is a [window] and
    [window.matchMedia(Q)] raises [e]; so does the effect; and so does
    React's run of an effect that a render with [Q] scheduled. Without a
    [window] the hook never calls [matchMedia] and nothing is raised. *)
Theorem matchMedia_exception_propagates (Q : string) (w : World) (e : Exn) :
  (forall i, fibers w !! i = None ->
     (useMediaQuery i Q w = inl e <->
      window w <> None /\ matchMedia Q w = inl e)) /\
  (forall i,
     effect i Q w = inl e <-> window w <> None /\ matchMedia Q w = inl e) /\
  (forall j hk,
     fibers w !! j = Some hk -> pending hk = true -> deps hk = Q ->
     (flushPassiveEffects j w = inl e <->
      window w <> None /\ matchMedia Q w = inl e)).
Proof.
  destruct (window w) as [win |] eqn:Hw.
  - destruct (parseMedia Q) as [e' | f] eqn:HQ.
    + assert (Hmm : matchMedia Q w = inl e').
      { unfold matchMedia. rewrite Hw, HQ. reflexivity. }
      rewrite Hmm.
      assert (Hiff : forall A (r : Exn + A),
                r = inl e' ->
                (r = inl e <->
                 Some win <> None /\ @inl Exn (nat * World) e' = inl e)).
      { intros A r ->. split.
        - intros H. injection H as ->. split; [discriminate | reflexivity].
        - intros [_ H]. injection H as ->. reflexivity. }
      split; [| split].
      * intros i Hi. apply Hiff. rewrite (mount_unfold i Q w Hi).
        apply bind_inl, (useState_init_raises Q w win e' Hw HQ).
      * intros i. apply Hiff, (effect_raises i Q w win e' Hw HQ).
      * intros j hk Hj Hp Hq. apply Hiff. rewrite <- Hq in HQ.
        apply (flush_raises j w hk win e' Hj Hp Hw HQ).
    + assert (Hmm : exists r, matchMedia Q w = inr r).
      { unfold matchMedia. rewrite Hw, HQ. eexists. reflexivity. }
      destruct Hmm as [r ->].
      assert (Hiff : forall A (r0 : Exn + A) a,
                r0 = inr a ->
                (r0 = inl e <->
                 Some win <> None /\ @inr Exn (nat * World) r = inl e)).
      { intros A r0 a ->. split; [discriminate | intros [_ H]; discriminate]. }
      split; [| split].
      * intros i Hi. eapply Hiff. rewrite (mount_unfold i Q w Hi).
        rewrite (bind_inr _ _ _ _ _ (useState_init_window Q w win f Hw HQ)).
        reflexivity.
      * intros i. eapply Hiff, (effect_window i Q w win f Hw HQ).
      * intros j hk Hj Hp Hq. eapply Hiff. rewrite <- Hq in HQ.
        apply (flush_window j w hk win f Hj Hp Hw HQ).
  - assert (Hiff : forall A B (r0 : Exn + A) (r1 : Exn + B) a,
              r0 = inr a ->
              (r0 = inl e <-> @None Window <> None /\ r1 = inl e)).
    { intros A B r0 r1 a ->.
      split; [discriminate | intros [H _]; contradiction]. }
    split; [| split].
    + intros i Hi. eapply Hiff. rewrite (mount_unfold i Q w Hi).
      rewrite (bind_inr _ _ _ _ _ (useState_init_no_window Q w Hw)).
      reflexivity.
    + intros i. eapply Hiff, (effect_no_window i Q w Hw).
    + intros j hk _ _ _. destruct (flush_no_window_total j w Hw) as (w' & Hf).
      eapply Hiff, Hf.
Qed.

(** ** After disposal *)

Lemma updates_of_removal i c : updates_of i (removal c) = [].
Proof. destruct c as [[m h] |]; reflexivity. Qed.

(** Running the effects of another instance publishes nothing to [i]. *)
Lemma flush_quiet i j w w' :
  Inv w -> j ≠ i -> flushPassiveEffects j w = inr (tt, w') ->
  updates_of i (trace w') = updates_of i (trace w).
Proof.
  intros HI Hji Hrun.
  destruct (flush_cases j w w' HI Hrun)
    as [[-> _] | [(hk & win & f & _ & _ & _ & _ & ->) | (hk & _ & _ & _ & ->)]];
    simpl; try reflexivity.
  rewrite !updates_of_app, updates_of_removal. unfold updates_of. simpl.
  rewrite decide_False by exact Hji. apply app_nil_r.
Qed.

Lemma flush_absent i w : fibers w !! i = None -> flushPassiveEffects i w = inr (tt, w).
Proof. intros Hi. apply flush_idle. intros hk. congruence. Qed.

(** A viewport change publishes nothing to an instance that is not
    mounted. *)
Lemma setViewport_quiet i v w :
  Inv w -> fibers w !! i = None ->
  fibers (setViewport v w) !! i = None /\
  updates_of i (trace (setViewport v w)) = updates_of i (trace w).
Proof.
  intros HI Hi. destruct (window w) as [win |] eqn:Hw.
  2:{ rewrite setViewport_no_window by exact Hw. split; [exact Hi | reflexivity]. }
  rewrite (setViewport_publish v w win Hw).
  rewrite publish_fibers, publish_trace. simpl. rewrite Hi. split; [reflexivity |].
  rewrite updates_of_app, updates_of_sets_others; [apply app_nil_r |].
  intros s Hs Heq.
  apply fired_inst in Hs as (m & mq & h & Hm & Hh & Hs).
  assert (Hreg : h ∈ listeners_at w m).
  { unfold listeners_at, listeners_in. rewrite Hw, Hm. exact Hh. }
  destruct (inv_listener w HI m h Hreg) as (_ & hk & Hf & _).
  rewrite <- Hs, Heq, Hi in Hf. discriminate.
Qed.

(** While [i] is not mounted, nothing but a render of [i] publishes to it. *)
Lemma quiet_step i a w w' :
  Inv w -> fibers w !! i = None -> (forall q, a ≠ Render i q) ->
  step a w = inr (tt, w') ->
  fibers w' !! i = None /\ updates_of i (trace w') = updates_of i (trace w).
Proof.
  intros HI Hi Hnot. destruct a as [j q | j | j | v]; simpl.
  - assert (Hji : j ≠ i) by (intros ->; exact (Hnot q eq_refl)).
    intros Hrun. apply bind_inv in Hrun as (b & w1 & Hr & Hret).
    injection Hret as <-.
    destruct (fibers w !! j) as [hk |] eqn:Hj.
    + destruct (render_update j q w b w1 (mk_is_Some _ _ Hj) HI Hr)
        as (w0 & hk0 & Hflush & _ & _ & _ & ->).
      destruct (flush_fibers j w w0 HI Hflush) as (_ & _ & Hother & _).
      pose proof (flush_quiet i j w w0 HI Hji Hflush) as Hq.
      destruct (decide (deps hk0 = q)); simpl.
      * rewrite Hother by congruence. split; assumption.
      * rewrite lookup_alter_ne by exact Hji. rewrite Hother by congruence.
        split; assumption.
    + destruct (render_mount j q w b w1 Hj Hr) as (w0 & Hinit & ->). simpl.
      rewrite lookup_insert_ne by exact Hji.
      destruct (useState_init_cases q w b w0 Hinit)
        as [(_ & _ & ->) | (win & f & _ & _ & _ & ->)]; simpl;
        split; first [exact Hi | reflexivity].
  - intros Hrun. destruct (decide (j = i)) as [-> | Hji].
    + rewrite (flush_absent i w Hi) in Hrun. injection Hrun as <-.
      split; [exact Hi | reflexivity].
    + destruct (flush_fibers j w w' HI Hrun) as (_ & _ & Hother & _).
      rewrite Hother by congruence.
      split; [exact Hi | exact (flush_quiet i j w w' HI Hji Hrun)].
  - intros Hrun.
    destruct (unmount_cases j w w' HI Hrun) as (w1 & Hflush & Hcases).
    assert (H1 : fibers w1 !! i = None /\
                 updates_of i (trace w1) = updates_of i (trace w)).
    { destruct (decide (j = i)) as [-> | Hji].
      - rewrite (flush_absent i w Hi) in Hflush. injection Hflush as <-.
        split; [exact Hi | reflexivity].
      - destruct (flush_fibers j w w1 HI Hflush) as (_ & _ & Hother & _).
        rewrite Hother by congruence.
        split; [exact Hi | exact (flush_quiet i j w w1 HI Hji Hflush)]. }
    destruct H1 as [Hi1 Hu1].
    destruct Hcases as [[_ ->] | [(hk & win & Hj1 & _ & ->) | (hk & Hj1 & _ & ->)]];
      simpl.
    + split; assumption.
    + rewrite lookup_delete_ne by congruence.
      rewrite updates_of_app, updates_of_removal, app_nil_r. split; assumption.
    + rewrite lookup_delete_ne by congruence. split; assumption.
  - unfold lift. intros Hrun. injection Hrun as <-.
    apply setViewport_quiet; assumption.
Qed.

Lemma quiet_run i acts w w' :
  Inv w -> fibers w !! i = None -> (forall q, Render i q ∉ acts) ->
  run acts w = inr (tt, w') ->
  Inv w' /\ fibers w' !! i = None /\
  updates_of i (trace w') = updates_of i (trace w).
Proof.
  revert w. induction acts as [| a acts IH]; intros w HI Hi Hnot; simpl.
  - unfold ret. intros Hrun. injection Hrun as <-.
    split; [exact HI | split; [exact Hi | reflexivity]].
  - intros Hrun. apply bind_inv in Hrun as ([] & w1 & Hstep & Hrest).
    assert (Ha : forall q, a ≠ Render i q).
    { intros q ->. apply (Hnot q). apply elem_of_cons. left. reflexivity. }
    destruct (quiet_step i a w w1 HI Hi Ha Hstep) as [Hi1 Hu1].
    destruct (IH w1 (Inv_step a w w1 HI Hstep) Hi1) with (2 := Hrest)
      as (HI' & Hi' & Hu').
    { intros q Hin. apply (Hnot q). apply elem_of_cons. right. exact Hin. }
    split; [exact HI' | split; [exact Hi' | congruence]].
Qed.

Lemma run_resizes vs w : run (map Resize vs) w = inr (tt, resizes vs w).
Proof.
  revert w. induction vs as [| v vs IH]; intros w; simpl; [reflexivity |].
  unfold bind, lift. unfold resizes in *. simpl. apply IH.
Qed.

Lemma unmount_absent i w w' :
  Inv w -> unmount i w = inr (tt, w') -> fibers w' !! i = None.
Proof.
  intros HI Hrun.
  destruct (unmount_cases i w w' HI Hrun) as (w1 & _ & Hcases).
  destruct Hcases as [[Hi1 ->] | [(hk & win & _ & _ & ->) | (hk & _ & _ & ->)]];
    simpl; [exact Hi1 | apply lookup_delete_eq | apply lookup_delete_eq].
Qed.

(** Disposal goes through whenever no effect of [i] is waiting to run. *)
Lemma unmount_returns i w :
  (forall hk, fibers w !! i = Some hk -> pending hk = false) ->
  exists w1, unmount i w = inr (tt, w1).
Proof.
  intros Hidle. unfold unmount.
  rewrite (bind_inr _ _ _ _ _ (flush_idle i w Hidle)).
  destruct (fibers w !! i) as [hk |]; [| eexists; reflexivity].
  destruct (cleanup hk) as [[m h] |]; eexists; reflexivity.
Qed.

(** C6. Once [unmount i] has returned, instance [i] has no listener in any
    list, and nothing is published to it any more: not by any sequence of
    viewport changes, and not by any further activity of the other
    instances. *)
Theorem no_update_after_disposal (w : World) (i : nat) (w1 : World) :
  reachable w -> unmount i w = inr (tt, w1) ->
  subscriptions w1 i = 0 /\
  (forall m h, h ∈ listeners_at w1 m -> h_inst h <> i) /\
  (forall vs,
     updates_of i (trace (resizes vs w1)) = updates_of i (trace w1) /\
     subscriptions (resizes vs w1) i = 0) /\
  (forall acts w2,
     (forall q, Render i q ∉ acts) -> run acts w1 = inr (tt, w2) ->
     updates_of i (trace w2) = updates_of i (trace w1) /\
     subscriptions w2 i = 0).
Proof.
  intros Hreach Hrun. pose proof (reachable_Inv w Hreach) as HI.
  pose proof (Inv_unmount i w w1 HI Hrun) as HI1.
  pose proof (unmount_absent i w w1 HI Hrun) as Hi1.
  assert (Hgen : forall acts w2,
            (forall q, Render i q ∉ acts) -> run acts w1 = inr (tt, w2) ->
            updates_of i (trace w2) = updates_of i (trace w1) /\
            subscriptions w2 i = 0).
  { intros acts w2 Hnot Hacts.
    destruct (quiet_run i acts w1 w2 HI1 Hi1 Hnot Hacts) as (HI2 & Hi2 & Hu2).
    split; [exact Hu2 | exact (subscriptions_unmounted w2 i HI2 Hi2)]. }
  split; [exact (subscriptions_unmounted w1 i HI1 Hi1) |].
  split; [| split; [| exact Hgen]].
  - intros m h Hin Heq.
    destruct (inv_listener w1 HI1 m h Hin) as (_ & hk & Hf & _).
    rewrite Heq, Hi1 in Hf. discriminate.
  - intros vs. apply (Hgen (map Resize vs)); [| apply run_resizes].
    intros q Hin. apply list_elem_of_fmap in Hin as (v & Hv & _). discriminate.
Qed.

(** ** Mount and dispose cycles *)

Lemma all_listeners_no_fibers w : Inv w -> fibers w = ∅ -> all_listeners w = [].
Proof.
  intros HI Hempty. apply elem_of_nil_inv. intros h Hin.
  apply all_listeners_elem in Hin as [m Hin].
  destruct (inv_listener w HI m h Hin) as (_ & hk & Hf & _).
  rewrite Hempty, lookup_empty in Hf. discriminate.
Qed.

Lemma run_app a1 a2 w w1 :
  run a1 w = inr (tt, w1) -> run (a1 ++ a2) w = run a2 w1.
Proof.
  revert w. induction a1 as [| a a1 IH]; intros w; simpl.
  - unfold ret. intros H. injection H as <-. reflexivity.
  - intros Hrun. apply bind_inv in Hrun as ([] & w0 & Hstep & Hrest).
    rewrite (bind_inr _ _ _ _ _ Hstep). apply IH, Hrest.
Qed.

Lemma reachable_run acts w w' :
  reachable w -> run acts w = inr (tt, w') -> reachable w'.
Proof.
  intros (v0 & acts0 & Hrun0) Hrun. exists v0, (acts0 ++ acts).
  rewrite (run_app acts0 acts _ w Hrun0). exact Hrun.
Qed.

(** One cycle in a viewport context: mount, subscribe, dispose. The two
    lists it created are left without listeners. *)
Lemma cycle_window j q f w win :
  window w = Some win -> fibers w !! j = None -> parseMedia q = inr f ->
  exists w',
    run (cycle j q) w = inr (tt, w') /\
    window w' = Some (mkWindow (viewport win)
                               (mqls win ++ [mkMQL q []] ++ [mkMQL q []])) /\
    fibers w' = fibers w.
Proof.
  intros Hw Hj Hq. unfold cycle, run, step.
  (* Render j q *)
  rewrite (bind_inr _ _ _ tt
             (mkWorld (Some (mkWindow (viewport win) (mqls win ++ [mkMQL q []])))
                      (<[j := mkHook (f (viewport win)) q true None]> (fibers w))
                      (closures w) (trace w))).
  2:{ erewrite bind_inr; [reflexivity |].
      rewrite (mount_unfold j q w Hj).
      rewrite (bind_inr _ _ _ _ _ (useState_init_window q w win f Hw Hq)).
      reflexivity. }
  (* Flush j *)
  erewrite bind_inr.
  2:{ eapply (flush_window j _ (mkHook (f (viewport win)) q true None));
        [apply lookup_insert_eq | reflexivity | reflexivity | exact Hq]. }
  simpl.
  (* Unmount j *)
  unfold unmount.
  erewrite bind_inr.
  2:{ erewrite bind_inr.
      2:{ apply flush_idle. simpl. intros hk. rewrite lookup_insert_eq.
          intros H. injection H as <-. reflexivity. }
      simpl. rewrite lookup_insert_eq.
      erewrite bind_inr; [| apply destroy_window; reflexivity].
      unfold lift. simpl. reflexivity. }
  unfold ret. eexists. split; [reflexivity |]. simpl. split.
  - rewrite length_app. simpl.
    replace (length (mqls win) + 1) with (length (mqls win ++ [mkMQL q []]))
      by (rewrite length_app; reflexivity).
    rewrite alter_last. unfold remove_listener. simpl.
    rewrite filter_ne_singleton, <- app_assoc. reflexivity.
  - rewrite !delete_insert_eq. apply delete_id. exact Hj.
Qed.

Lemma cycles_window n j q f w win :
  window w = Some win -> fibers w !! j = None -> parseMedia q = inr f ->
  exists w',
    run (cycles n j q) w = inr (tt, w') /\
    fibers w' = fibers w /\ all_listeners w' = all_listeners w.
Proof.
  intros Hw Hj Hq. revert w win Hw Hj.
  induction n as [| n IH]; intros w win Hw Hj.
  - exists w. repeat split; reflexivity.
  - destruct (cycle_window j q f w win Hw Hj Hq) as (w1 & Hrun1 & Hw1 & Hf1).
    destruct (IH w1 _ Hw1) as (w' & Hrun & Hf & Hl); [congruence |].
    exists w'. change (cycles (S n) j q) with (cycle j q ++ cycles n j q).
    rewrite (run_app _ _ _ _ Hrun1).
    split; [exact Hrun |]. split; [congruence |].
    rewrite Hl. unfold all_listeners. rewrite Hw, Hw1. simpl.
    rewrite !fmap_app, !concat_app. simpl. rewrite !app_nil_r. reflexivity.
Qed.

(** C7. In every reachable world an instance has at most one listener over
    all lists, exactly one while it is live, and none when it is not mounted;
    and any number of mount-subscribe-dispose cycles of a new instance goes
    through and leaves the listeners and the mounted instances as they
    were: from a world with no instance mounted, no listener is left. *)
Theorem one_subscription_no_residue (w : World) :
  reachable w ->
  (forall i, subscriptions w i <= 1) /\
  (forall i q, live w i q -> subscriptions w i = 1) /\
  (forall i, fibers w !! i = None -> subscriptions w i = 0) /\
  (forall n j q f win,
     window w = Some win -> fibers w !! j = None -> parseMedia q = inr f ->
     exists w',
       run (cycles n j q) w = inr (tt, w') /\
       fibers w' = fibers w /\
       all_listeners w' = all_listeners w /\
       (forall i, subscriptions w' i = subscriptions w i) /\
       (fibers w = ∅ -> all_listeners w' = [])).
Proof.
  intros Hreach. pose proof (reachable_Inv w Hreach) as HI.
  split; [intros i; apply subscriptions_le_1, HI |].
  split; [intros i q; apply subscriptions_live, HI |].
  split; [intros i; apply subscriptions_unmounted, HI |].
  intros n j q f win Hw Hj Hq.
  destruct (cycles_window n j q f w win Hw Hj Hq) as (w' & Hrun & Hf & Hl).
  exists w'. split; [exact Hrun |]. split; [exact Hf |]. split; [exact Hl |].
  split.
  - intros i. unfold subscriptions. rewrite Hl. reflexivity.
  - intros Hempty. rewrite Hl. apply all_listeners_no_fibers; assumption.
Qed.

(** ** The value of a live observer is current *)

Lemma Current_initial v0 : Current (initial v0).
Proof. intros i hk win _ Hi. simpl in Hi. rewrite lookup_empty in Hi. discriminate. Qed.

Lemma Current_flush i w w' :
  Inv w -> Current w -> flushPassiveEffects i w = inr (tt, w') -> Current w'.
Proof.
  intros HI HC Hrun.
  destruct (flush_cases i w w' HI Hrun)
    as [[-> _] | [(hk & win & f & Hi & Hp & Hw & Hq & ->) |
                  (hk & Hi & Hp & Hw & ->)]].
  - exact HC.
  - intros j hkj win' Hw' Hj Hpj. simpl in Hw', Hj. injection Hw' as <-. simpl.
    destruct (decide (j = i)) as [-> | Hji].
    + rewrite lookup_insert_eq in Hj. injection Hj as <-. simpl.
      symmetry. apply evalMedia_parsed, Hq.
    + rewrite lookup_insert_ne in Hj by congruence.
      exact (HC j hkj win Hw Hj Hpj).
  - intros j hkj win' Hw'. discriminate.
Qed.

Lemma Current_render i q w v w' :
  Inv w -> Current w -> useMediaQuery i q w = inr (v, w') -> Current w'.
Proof.
  intros HI HC Hrun. destruct (fibers w !! i) as [hk |] eqn:Hi.
  - destruct (render_update i q w v w' (mk_is_Some _ _ Hi) HI Hrun)
      as (w1 & hk1 & Hflush & Hi1 & Hp1 & _ & ->).
    pose proof (Current_flush i w w1 HI HC Hflush) as HC1.
    destruct (decide (deps hk1 = q)) as [_ | Hne]; [exact HC1 |].
    intros j hkj win Hw Hj Hpj. simpl in Hw, Hj.
    destruct (decide (j = i)) as [-> | Hji].
    + rewrite lookup_alter_eq, Hi1 in Hj. injection Hj as <-. discriminate.
    + rewrite lookup_alter_ne in Hj by congruence.
      exact (HC1 j hkj win Hw Hj Hpj).
  - destruct (render_mount i q w v w' Hi Hrun) as (w0 & Hinit & ->).
    intros j hkj win' Hw' Hj Hpj. simpl in Hw', Hj.
    destruct (useState_init_cases q w v w0 Hinit)
      as [(Hw & -> & ->) | (win & f & Hw & Hq & -> & ->)]; simpl in *.
    + congruence.
    + injection Hw' as <-. simpl.
      destruct (decide (j = i)) as [-> | Hji].
      * rewrite lookup_insert_eq in Hj. injection Hj as <-. discriminate.
      * rewrite lookup_insert_ne in Hj by congruence.
        exact (HC j hkj win Hw Hj Hpj).
Qed.

Lemma Current_unmount i w w' :
  Inv w -> Current w -> unmount i w = inr (tt, w') -> Current w'.
Proof.
  intros HI HC Hrun.
  destruct (unmount_cases i w w' HI Hrun) as (w1 & Hflush & Hcases).
  pose proof (Current_flush i w w1 HI HC Hflush) as HC1.
  destruct Hcases as [[_ ->] | [(hk & win & Hi1 & Hw1 & ->) |
                                 (hk & Hi1 & Hw1 & ->)]].
  - exact HC1.
  - intros j hkj win' Hw' Hj Hpj. simpl in Hw', Hj. injection Hw' as <-. simpl.
    destruct (decide (j = i)) as [-> | Hji].
    + rewrite lookup_delete_eq in Hj. discriminate.
    + rewrite lookup_delete_ne in Hj by congruence.
      exact (HC1 j hkj win Hw1 Hj Hpj).
  - intros j hkj win' Hw'. discriminate.
Qed.

Lemma Current_setViewport v w : Inv w -> Current w -> Current (setViewport v w).
Proof.
  intros HI HC j hkj win' Hw' Hj Hpj.
  destruct (window w) as [win |] eqn:Hw.
  2:{ rewrite setViewport_no_window in Hw' by exact Hw. congruence. }
  assert (Hold : exists hk, fibers w !! j = Some hk /\ pending hk = false /\
                            deps hk = deps hkj).
  { rewrite (setViewport_publish v w win Hw), publish_fibers in Hj. simpl in Hj.
    destruct (fibers w !! j) as [hk |]; [| discriminate].
    simpl in Hj. injection Hj as <-. exists hk. simpl in Hpj.
    repeat split; [exact Hpj]. }
  destruct Hold as (hk & Hk & Hpk & Hdeps).
  assert (Hlive : live w j (deps hkj)).
  { split; [rewrite Hw; discriminate |]. exists hk. repeat split; assumption. }
  destruct (setViewport_live w j (deps hkj) win hk v HI Hlive Hw Hk)
    as (_ & Hf & Hwin).
  rewrite Hj in Hf. injection Hf as ->. rewrite Hw' in Hwin.
  injection Hwin as ->. simpl.
  destruct (bool_decide _) eqn:Hb; simpl; [| rewrite Hdeps; reflexivity].
  apply bool_decide_eq_true_1 in Hb. rewrite Hdeps, <- Hb, <- Hdeps.
  exact (HC j hk win Hw Hk Hpk).
Qed.

Lemma Current_run acts w w' :
  Inv w -> Current w -> run acts w = inr (tt, w') -> Current w'.
Proof.
  revert w. induction acts as [| a acts IH]; intros w HI HC; simpl.
  - unfold ret. intros Hrun. injection Hrun as <-. exact HC.
  - intros Hrun. apply bind_inv in Hrun as ([] & w1 & Hstep & Hrest).
    apply (IH w1 (Inv_step a w w1 HI Hstep)); [| exact Hrest].
    destruct a as [i q | i | i | v]; simpl in Hstep.
    + apply bind_inv in Hstep as (b & w0 & Hr & Hret). injection Hret as <-.
      exact (Current_render i q w b w0 HI HC Hr).
    + exact (Current_flush i w w1 HI HC Hstep).
    + exact (Current_unmount i w w1 HI HC Hstep).
    + unfold lift in Hstep. injection Hstep as <-.
      exact (Current_setViewport v w HI HC).
Qed.

(** In every reachable world, a render of a live observer of [q] gives the
    match state of [q] at the current viewport, and changes nothing. *)
Lemma live_value_current w i q win :
  reachable w -> live w i q -> window w = Some win ->
  useMediaQuery i q w = inr (evalMedia q (viewport win), w).
Proof.
  intros Hreach (_ & hk & Hi & Hq & Hp) Hw.
  destruct Hreach as (v0 & acts & Hrun).
  pose proof (Current_run acts _ w (Inv_initial v0) (Current_initial v0) Hrun)
    as HC.
  rewrite (render_idle i q w hk Hi Hp).
  rewrite decide_True by exact Hq.
  rewrite (HC i hk win Hw Hi Hp), Hq. reflexivity.
Qed.

(** ** Observing through a hook *)

(** Mounting an observer of an accepted query and running its effect. *)
Lemma mount_and_subscribe i q f v :
  parseMedia q = inr f ->
  exists w,
    run [Render i q; Flush i] (initial (Some v)) = inr (tt, w) /\
    (useMediaQuery i q >> flushPassiveEffects i) (initial (Some v)) =
      inr (tt, w) /\
    live w i q /\ exists qs, window w = Some (mkWindow v qs).
Proof.
  intros Hq.
  assert (Hmount : useMediaQuery i q (initial (Some v)) =
            inr (f v, mkWorld (Some (mkWindow v ([] ++ [mkMQL q []])))
                              (<[i := mkHook (f v) q true None]> ∅) 0 [])).
  { rewrite mount_unfold by apply lookup_empty.
    erewrite bind_inr; [| apply useState_init_window; [reflexivity | exact Hq]].
    reflexivity. }
  pose proof (flush_window i
                (mkWorld (Some (mkWindow v ([] ++ [mkMQL q []])))
                         (<[i := mkHook (f v) q true None]> ∅) 0 [])
                (mkHook (f v) q true None) (mkWindow v ([] ++ [mkMQL q []])) f
                (lookup_insert_eq _ _ _) eq_refl eq_refl Hq) as Hflush.
  simpl in Hflush, Hmount.
  eexists. split; [| split; [| split]].
  - unfold run, step, bind, ret. rewrite Hmount. cbn beta iota.
    rewrite Hflush. reflexivity.
  - unfold bind. rewrite Hmount. exact Hflush.
  - split; [discriminate |]. eexists. split; [apply lookup_insert_eq |].
    split; reflexivity.
  - eexists. reflexivity.
Qed.

Lemma observe_first_query q f v :
  parseMedia q = inr f ->
  observe_first (fun i => useMediaQuery i q) v = Some (f v).
Proof.
  intros Hq. unfold observe_first.
  rewrite mount_unfold by apply lookup_empty.
  erewrite bind_inr; [| apply useState_init_window; [reflexivity | exact Hq]].
  reflexivity.
Qed.

Lemma observe_at_query q f v :
  parseMedia q = inr f ->
  observe_at (fun i => useMediaQuery i q) v = Some (f v).
Proof.
  intros Hq. unfold observe_at.
  destruct (mount_and_subscribe 0 q f v Hq) as (w & Hrun & Hms & Hlive & qs & Hw).
  assert (Hreach : reachable w) by (exists (Some v), [Render 0 q; Flush 0]; exact Hrun).
  unfold bind in Hms |- *.
  destruct (useMediaQuery 0 q (initial (Some v))) as [e | [b w0]];
    [discriminate |].
  rewrite Hms. rewrite (live_value_current w 0 q _ Hreach Hlive Hw). simpl.
  rewrite (evalMedia_parsed q f v Hq). reflexivity.
Qed.

Lemma observe_from_live q vs w :
  reachable w -> live w 0 q ->
  value_of (observe_from (fun i => useMediaQuery i q) vs w) =
  Some (map (evalMedia q) vs).
Proof.
  revert w. induction vs as [| v vs IH]; intros w Hreach Hlive; [reflexivity |].
  pose proof (reachable_Inv w Hreach) as HI.
  pose proof Hlive as (Hw & hk & Hi & _).
  destruct (window w) as [win |] eqn:Hwin; [| contradiction].
  destruct (setViewport_live w 0 q win hk v HI Hlive Hwin Hi) as (_ & _ & Hw').
  assert (Hreach' : reachable (setViewport v w)).
  { apply (reachable_run [Resize v] w); [exact Hreach | reflexivity]. }
  pose proof (live_setViewport w 0 q v HI Hlive) as Hlive'.
  simpl. unfold bind at 1, lift.
  rewrite (bind_inr _ _ _ _ _ (live_value_current _ 0 q _ Hreach' Hlive' Hw')).
  specialize (IH _ Hreach' Hlive'). unfold bind, ret. simpl.
  destruct (observe_from _ vs (setViewport v w)) as [e | [bs w1]];
    [discriminate |].
  simpl in IH. injection IH as ->. reflexivity.
Qed.

Lemma observe_through_query q f vs :
  parseMedia q = inr f ->
  observe_through (fun i => useMediaQuery i q) vs = Some (map f vs).
Proof.
  intros Hq. destruct vs as [| v vs]; [reflexivity |]. unfold observe_through.
  destruct (mount_and_subscribe 0 q f v Hq) as (w & Hrun & Hms & Hlive & qs & Hw).
  assert (Hreach : reachable w) by (exists (Some v), [Render 0 q; Flush 0]; exact Hrun).
  pose proof (observe_from_live q (v :: vs) w Hreach Hlive) as Hobs.
  unfold bind in Hms |- *.
  destruct (useMediaQuery 0 q (initial (Some v))) as [e | [b w0]];
    [discriminate |].
  rewrite Hms, Hobs. f_equal. apply map_ext. intros v'.
  apply evalMedia_parsed, Hq.
Qed.

(** ** A changed query *)

(** C10. While instance [i] observes [q], a render with another query [q']
    that the engine accepts schedules the effect again and touches nothing
    else; when the effect runs, the listener on the list of [q] is removed,
    then [setMatches] is called with the current match state of [q'], then
    a listener, a new closure, is added to a new list of [q'], in that
    order. Afterwards the old list has no listener, the instance holds the new match state and
    exactly one listener, and it observes [q']. *)
Theorem query_change_resubscribes
    (w : World) (i : nat) (q q' : string) (win : Window)
    (f : Viewport -> bool) :
  reachable w -> live w i q -> window w = Some win ->
  q' <> q -> parseMedia q' = inr f ->
  exists hk m h w1 w2 m' h',
    m' = length (mqls win) /\ h' = mkHandler (closures w) i /\
    fibers w !! i = Some hk /\ cleanup hk = Some (m, h) /\
    listeners_at w m = [h] /\ media_at w m = Some q /\
    useMediaQuery i q' w = inr (matches hk, w1) /\
    trace w1 = trace w /\ window w1 = window w /\
    flushPassiveEffects i w1 = inr (tt, w2) /\
    trace w2 = trace w ++ [EvRemoveListener m h;
                           EvSetMatches i (evalMedia q' (viewport win));
                           EvAddListener m' h'] /\
    listeners_at w2 m = [] /\
    listeners_at w2 m' = [h'] /\ media_at w2 m' = Some q' /\ h_inst h' = i /\
    fibers w2 !! i =
      Some (mkHook (evalMedia q' (viewport win)) q' false (Some (m', h'))) /\
    live w2 i q' /\ subscriptions w2 i = 1.
Proof.
  intros Hreach Hlive Hw Hne Hq'. pose proof (reachable_Inv w Hreach) as HI.
  destruct (live_subscription w i q HI Hlive)
    as (win0 & hk & m & h & mq & Hw0 & Hi & Hq & Hp & Hc & Hh & Hm & Hl & Hmed).
  rewrite Hw in Hw0. injection Hw0 as <-.
  pose proof (render_idle i q' w hk Hi Hp) as Hrender.
  rewrite decide_False in Hrender by congruence.
  set (w1 := alter_fiber (with_effect q') i w) in *.
  assert (Hi1 : fibers w1 !! i = Some (with_effect q' hk)).
  { unfold w1. simpl. rewrite lookup_alter_eq, Hi. reflexivity. }
  pose proof (flush_window i w1 (with_effect q' hk) win f Hi1 eq_refl Hw Hq')
    as Hflush.
  simpl in Hflush. rewrite Hc in Hflush. simpl in Hflush.
  rewrite <- (evalMedia_parsed q' f (viewport win) Hq') in Hflush.
  match type of Hflush with _ = inr (tt, ?W) => set (w2 := W) in * end.
  assert (HI2 : Inv w2).
  { apply (Inv_flush i w1 w2); [| exact Hflush].
    apply (Inv_render i q' w (matches hk) w1 HI Hrender). }
  assert (Hlt : m < length (mqls win)) by (apply lookup_lt_Some in Hm; exact Hm).
  assert (Hlive2 : live w2 i q').
  { split; [discriminate |]. eexists. split; [apply lookup_insert_eq |].
    split; reflexivity. }
  exists hk, m, h, w1, w2, (length (mqls win)), (mkHandler (closures w) i).
  split; [reflexivity |]. split; [reflexivity |].
  split; [exact Hi |]. split; [exact Hc |].
  split; [unfold listeners_at, listeners_in; rewrite Hw, Hm; exact Hl |].
  split; [unfold media_at; rewrite Hw, Hm; simpl; congruence |].
  split; [exact Hrender |]. split; [reflexivity |]. split; [reflexivity |].
  split; [exact Hflush |]. split; [reflexivity |].
  split.
  { unfold listeners_at. simpl. rewrite listeners_in_app, length_alter.
    rewrite decide_False by lia. rewrite listeners_in_remove.
    rewrite decide_True by reflexivity. unfold listeners_in. rewrite Hm, Hl.
    apply filter_ne_singleton. }
  split.
  { unfold listeners_at. simpl. rewrite listeners_in_app, length_alter.
    rewrite decide_True by reflexivity. reflexivity. }
  split.
  { unfold media_at. simpl. rewrite media_app, length_alter.
    rewrite decide_True by reflexivity. reflexivity. }
  split; [reflexivity |].
  split; [apply lookup_insert_eq |].
  split; [exact Hlive2 | exact (subscriptions_live w2 i q' HI2 Hlive2)].
Qed.

(** * Further properties of [useMediaQuery] *)

Lemma reachable_Current w : reachable w -> Current w.
Proof.
  intros (v0 & acts & Hrun).
  exact (Current_run acts _ w (Inv_initial v0) (Current_initial v0) Hrun).
Qed.

Lemma with_matches_same hk : with_matches (matches hk) hk = hk.
Proof. destruct hk; reflexivity. Qed.

(** X1. A render of a live observer with the query it observes gives the
    match state of that query at the current viewport and leaves the world as
    it is: the initialiser does not run again, no effect is scheduled, and
    running the effects does nothing (no new list, no listener added or
    removed, no [setMatches]). *)
Theorem live_render_is_current_and_idle
    (w : World) (i : nat) (q : string) (win : Window) :
  reachable w -> live w i q -> window w = Some win ->
  useMediaQuery i q w = inr (evalMedia q (viewport win), w) /\
  flushPassiveEffects i w = inr (tt, w) /\
  run [Render i q; Flush i; Render i q] w = inr (tt, w).
Proof.
  intros Hreach Hlive Hw.
  pose proof (live_value_current w i q win Hreach Hlive Hw) as Hrender.
  assert (Hflush : flushPassiveEffects i w = inr (tt, w)).
  { destruct Hlive as (_ & hk & Hi & _ & Hp). apply flush_idle.
    intros hk0 Hk. congruence. }
  split; [exact Hrender |]. split; [exact Hflush |].
  simpl. unfold bind, ret. rewrite Hrender, Hflush, Hrender. reflexivity.
Qed.

(** X2. A viewport change that does not cross the threshold of the observed
    query is silent for a live observer: no [setMatches] call, the cells of
    the instance are untouched, and a render gives the same value as
    before. *)
Theorem resize_without_crossing_is_silent
    (w : World) (i : nat) (q : string) (win : Window) (v' : Viewport) :
  reachable w -> live w i q -> window w = Some win ->
  evalMedia q (viewport win) = evalMedia q v' ->
  updates_of i (trace (setViewport v' w)) = updates_of i (trace w) /\
  fibers (setViewport v' w) !! i = fibers w !! i /\
  useMediaQuery i q (setViewport v' w) =
    inr (evalMedia q (viewport win), setViewport v' w).
Proof.
  intros Hreach Hlive Hw Hsame. pose proof (reachable_Inv w Hreach) as HI.
  pose proof Hlive as (_ & hk & Hi & _ & _).
  destruct (setViewport_live w i q win hk v' HI Hlive Hw Hi) as (Ht & Hf & Hw').
  rewrite bool_decide_eq_true_2 in Ht, Hf by exact Hsame. simpl in Ht, Hf.
  rewrite app_nil_r in Ht. rewrite with_matches_same in Hf.
  split; [exact Ht |]. split; [congruence |].
  rewrite Hsame.
  apply (live_value_current (setViewport v' w) i q (mkWindow v' (mqls win))).
  - apply (reachable_run [Resize v'] w); [exact Hreach | reflexivity].
  - apply live_setViewport; assumption.
  - exact Hw'.
Qed.

(** X4. The render that changes the query of a live observer still answers
    for the old query: [useState] does not run its initialiser again. The
    answer for the new query comes with the next render, after the effect
    has run. *)
Theorem changed_query_is_answered_after_the_effect
    (w : World) (i : nat) (q q' : string) (win : Window)
    (f : Viewport -> bool) :
  reachable w -> live w i q -> window w = Some win ->
  q' <> q -> parseMedia q' = inr f ->
  exists w1 w2,
    useMediaQuery i q' w = inr (evalMedia q (viewport win), w1) /\
    flushPassiveEffects i w1 = inr (tt, w2) /\
    useMediaQuery i q' w2 = inr (f (viewport win), w2).
Proof.
  intros Hreach (_ & hk & Hi & Hq & Hp) Hw Hne Hq'.
  pose proof (reachable_Current w Hreach i hk win Hw Hi Hp) as Hcur.
  pose proof (render_idle i q' w hk Hi Hp) as Hrender.
  rewrite decide_False in Hrender by congruence.
  rewrite Hcur, Hq in Hrender.
  set (w1 := alter_fiber (with_effect q') i w) in *.
  assert (Hi1 : fibers w1 !! i = Some (with_effect q' hk)).
  { unfold w1. simpl. rewrite lookup_alter_eq, Hi. reflexivity. }
  pose proof (flush_window i w1 (with_effect q' hk) win f Hi1 eq_refl Hw Hq')
    as Hflush.
  simpl in Hflush.
  match type of Hflush with _ = inr (tt, ?W) => set (w2 := W) in * end.
  exists w1, w2. split; [exact Hrender |]. split; [exact Hflush |].
  pose proof (render_idle i q' w2 (mkHook (f (viewport win)) q' false
                (Some (length (mqls win), mkHandler (closures w) i)))
                (lookup_insert_eq _ _ _) eq_refl) as Hagain.
  simpl in Hagain. rewrite decide_True in Hagain by reflexivity.
  exact Hagain.
Qed.

(** ** Accepted queries *)

Lemma flush_returns i w :
  Inv w -> Accepted w ->
  exists w', flushPassiveEffects i w = inr (tt, w') /\ Accepted w'.
Proof.
  intros HI HA. destruct (fibers w !! i) as [hk |] eqn:Hi.
  2:{ exists w. split; [apply flush_absent, Hi | exact HA]. }
  destruct (pending hk) eqn:Hp.
  2:{ exists w. split; [| exact HA]. apply flush_idle. intros hk0 Hk. congruence. }
  assert (Hkeep : forall x c, Accepted
            (mkWorld x (<[i := mkHook c.1 (deps hk) false c.2]> (fibers w))
                     (closures w) (trace w))).
  { intros x c j hkj. simpl. destruct (decide (j = i)) as [-> | Hji].
    - rewrite lookup_insert_eq. intros Hj. injection Hj as <-. simpl.
      exact (HA i hk Hi).
    - rewrite lookup_insert_ne by congruence. apply HA. }
  destruct (window w) as [win |] eqn:Hw.
  - destruct (HA i hk Hi) as [f Hq].
    rewrite (flush_window i w hk win f Hi Hp Hw Hq). eexists.
    split; [reflexivity |].
    intros j hkj Hj. simpl in Hj.
    apply (Hkeep None (f (viewport win),
                       Some (length (mqls win), mkHandler (closures w) i)) j hkj).
    exact Hj.
  - rewrite (flush_no_window i w hk Hi Hp Hw
               (Inv_no_window_cleanup w i hk HI Hw Hi)).
    eexists. split; [reflexivity |]. exact (Hkeep None (matches hk, None)).
Qed.

Lemma render_returns i q w :
  Inv w -> Accepted w -> accepts q ->
  exists v w', useMediaQuery i q w = inr (v, w') /\ Accepted w'.
Proof.
  intros HI HA [f Hq]. destruct (fibers w !! i) as [hk |] eqn:Hi.
  - destruct (flush_returns i w HI HA) as (w1 & Hflush & HA1).
    destruct (flush_fibers i w w1 HI Hflush) as (Hkeep & _).
    destruct (Hkeep hk Hi) as (hk1 & Hi1 & _).
    unfold useMediaQuery. rewrite Hi, (bind_inr _ _ _ _ _ Hflush), Hi1.
    eexists. eexists. split; [reflexivity |].
    destruct (decide (deps hk1 = q)) as [_ | Hne]; [exact HA1 |].
    intros j hkj. simpl. destruct (decide (j = i)) as [-> | Hji].
    + rewrite lookup_alter_eq, Hi1. simpl. intros Hj. injection Hj as <-.
      exists f. exact Hq.
    + rewrite lookup_alter_ne by congruence. apply HA1.
  - assert (Hnew : forall v j hkj,
              <[i := mkHook v q true None]> (fibers w) !! j = Some hkj ->
              accepts (deps hkj)).
    { intros v j hkj. destruct (decide (j = i)) as [-> | Hji].
      - rewrite lookup_insert_eq. intros Hj. injection Hj as <-.
        exists f. exact Hq.
      - rewrite lookup_insert_ne by congruence. apply HA. }
    rewrite (mount_unfold i q w Hi). destruct (window w) as [win |] eqn:Hw.
    + rewrite (bind_inr _ _ _ _ _ (useState_init_window q w win f Hw Hq)).
      eexists. eexists. split; [reflexivity |]. exact (Hnew _).
    + rewrite (bind_inr _ _ _ _ _ (useState_init_no_window q w Hw)).
      eexists. eexists. split; [reflexivity |]. exact (Hnew _).
Qed.

Lemma unmount_returns_accepted i w :
  Inv w -> Accepted w ->
  exists w', unmount i w = inr (tt, w') /\ Accepted w'.
Proof.
  intros HI HA. destruct (flush_returns i w HI HA) as (w1 & Hflush & HA1).
  unfold unmount. rewrite (bind_inr _ _ _ _ _ Hflush).
  destruct (fibers w1 !! i) as [hk |] eqn:Hi1;
    [| exists w1; split; [reflexivity | exact HA1]].
  destruct (cleanup hk) as [[m h] |]; (eexists; split; [reflexivity |]);
    intros j hkj; simpl;
    (destruct (decide (j = i)) as [-> | Hji];
     [rewrite lookup_delete_eq; discriminate
     | rewrite lookup_delete_ne by congruence; apply HA1]).
Qed.

Lemma Accepted_setViewport v w : Accepted w -> Accepted (setViewport v w).
Proof.
  intros HA. destruct (window w) as [win |] eqn:Hw.
  2:{ rewrite setViewport_no_window by exact Hw. exact HA. }
  rewrite (setViewport_publish v w win Hw). intros i hk.
  rewrite publish_fibers. simpl.
  destruct (fibers w !! i) as [hk0 |] eqn:Hi; [| discriminate].
  simpl. intros Hk. injection Hk as <-. simpl. exact (HA i hk0 Hi).
Qed.

Lemma run_returns acts w :
  Inv w -> Accepted w ->
  (forall i q, Render i q ∈ acts -> accepts q) ->
  exists w', run acts w = inr (tt, w').
Proof.
  revert w. induction acts as [| a acts IH]; intros w HI HA Hall.
  - exists w. reflexivity.
  - assert (Hstep : exists w1, step a w = inr (tt, w1) /\ Accepted w1).
    { destruct a as [i q | i | i | v]; simpl.
      - destruct (render_returns i q w HI HA) as (b & w1 & Hr & HA1).
        { apply (Hall i q). apply elem_of_cons. left. reflexivity. }
        exists w1. rewrite (bind_inr _ _ _ _ _ Hr). split; [reflexivity | exact HA1].
      - apply flush_returns; assumption.
      - apply unmount_returns_accepted; assumption.
      - exists (setViewport v w). split; [reflexivity |].
        apply Accepted_setViewport, HA. }
    destruct Hstep as (w1 & Hstep & HA1).
    destruct (IH w1 (Inv_step a w w1 HI Hstep) HA1) as (w' & Hrun).
    { intros i q Hin. apply (Hall i q). apply elem_of_cons. right. exact Hin. }
    exists w'. simpl. rewrite (bind_inr _ _ _ _ _ Hstep). exact Hrun.
Qed.

(** X3. The hook itself never raises: an execution in which every rendered
    query is one the engine accepts runs to its end, with or without a
    viewport context, whatever the order of renders, effect runs, unmounts
    and viewport changes. *)
Theorem accepted_queries_never_raise
    (v0 : option Viewport) (acts : list Action) :
  (forall i q, Render i q ∈ acts -> accepts q) ->
  exists w, run acts (initial v0) = inr (tt, w).
Proof.
  apply run_returns; [apply Inv_initial |].
  intros i hk Hi. simpl in Hi. rewrite lookup_empty in Hi. discriminate.
Qed.

(** ** Between the first render and the effect *)

Lemma publish_closures sets w : closures (publish sets w) = closures w.
Proof.
  revert w. induction sets as [| s sets IH]; intros w; simpl; [reflexivity |].
  unfold publish in *. simpl. rewrite IH. reflexivity.
Qed.

(** An instance that holds no destroy closure is not published to by a
    viewport change. *)
Lemma setViewport_unsubscribed i v w hk :
  Inv w -> fibers w !! i = Some hk -> cleanup hk = None ->
  fibers (setViewport v w) !! i = Some hk /\
  updates_of i (trace (setViewport v w)) = updates_of i (trace w).
Proof.
  intros HI Hi Hc. destruct (window w) as [win |] eqn:Hw.
  2:{ rewrite setViewport_no_window by exact Hw. split; [exact Hi | reflexivity]. }
  assert (Hnone : forall s, s ∈ fired (viewport win) v (mqls win) -> s.1 ≠ i).
  { intros s Hs Heq.
    apply fired_inst in Hs as (m & mq & h & Hm & Hh & Hs).
    assert (Hreg : h ∈ listeners_at w m).
    { unfold listeners_at, listeners_in. rewrite Hw, Hm. exact Hh. }
    destruct (inv_listener w HI m h Hreg) as (_ & hk' & Hf & Hc').
    rewrite <- Hs, Heq, Hi in Hf. injection Hf as <-. congruence. }
  rewrite (setViewport_publish v w win Hw).
  rewrite publish_fibers, publish_trace. simpl. rewrite Hi. simpl.
  rewrite (settle_others i _ _ Hnone), with_matches_same.
  split; [reflexivity |].
  rewrite updates_of_app, (updates_of_sets_others i _ Hnone). apply app_nil_r.
Qed.

Lemma last_viewport_cons (d v : Viewport) vs :
  default d (last (v :: vs)) = default v (last vs).
Proof.
  revert d v. induction vs as [| v0 vs IH]; intros d v; [reflexivity |].
  change (last (v :: v0 :: vs)) with (last (v0 :: vs)).
  rewrite (IH d v0), (IH v v0). reflexivity.
Qed.

Lemma resizes_unsubscribed i vs w hk win :
  Inv w -> fibers w !! i = Some hk -> cleanup hk = None ->
  window w = Some win ->
  Inv (resizes vs w) /\
  fibers (resizes vs w) !! i = Some hk /\
  updates_of i (trace (resizes vs w)) = updates_of i (trace w) /\
  closures (resizes vs w) = closures w /\
  window (resizes vs w) =
    Some (mkWindow (default (viewport win) (last vs)) (mqls win)).
Proof.
  revert w win. induction vs as [| v vs IH]; intros w win HI Hi Hc Hw.
  - simpl. repeat (split; [first [assumption | reflexivity] |]).
    rewrite Hw. destruct win; reflexivity.
  - destruct (setViewport_unsubscribed i v w hk HI Hi Hc) as [Hi1 Hu1].
    assert (Hw1 : window (setViewport v w) = Some (mkWindow v (mqls win))).
    { rewrite (setViewport_publish v w win Hw). apply publish_window. }
    assert (Hc1 : closures (setViewport v w) = closures w).
    { rewrite (setViewport_publish v w win Hw), publish_closures. reflexivity. }
    destruct (IH (setViewport v w) _ (Inv_setViewport v w HI) Hi1 Hc Hw1)
      as (HI' & Hi' & Hu' & Hc' & Hw').
    change (resizes (v :: vs) w) with (resizes vs (setViewport v w)).
    split; [exact HI' |]. split; [exact Hi' |]. split; [congruence |].
    split; [congruence |]. rewrite Hw', last_viewport_cons. reflexivity.
Qed.

(** X5. Viewport changes between the first render and the run of its effect
    reach no listener of the instance, and are not lost: the effect's own
    [setMatches(mediaQuery.matches)] is the one call the instance gets, with
    the match state at the viewport of that moment, and the next render
    gives it. *)
Theorem effect_publishes_state_at_subscription
    (w : World) (i : nat) (q : string) (f : Viewport -> bool)
    (win : Window) (vs : list Viewport) :
  reachable w -> window w = Some win -> fibers w !! i = None ->
  parseMedia q = inr f ->
  exists w',
    run (Render i q :: map Resize vs ++ [Flush i]) w = inr (tt, w') /\
    updates_of i (trace w') =
      updates_of i (trace w) ++ [f (default (viewport win) (last vs))] /\
    useMediaQuery i q w' = inr (f (default (viewport win) (last vs)), w') /\
    live w' i q.
Proof.
  intros Hreach Hw Hi Hq. pose proof (reachable_Inv w Hreach) as HI.
  set (hk := mkHook (f (viewport win)) q true None).
  set (w1 := mkWorld (Some (mkWindow (viewport win) (mqls win ++ [mkMQL q []])))
                     (<[i := hk]> (fibers w)) (closures w) (trace w)).
  assert (Hmount : useMediaQuery i q w = inr (f (viewport win), w1)).
  { rewrite (mount_unfold i q w Hi).
    rewrite (bind_inr _ _ _ _ _ (useState_init_window q w win f Hw Hq)).
    reflexivity. }
  pose proof (Inv_render i q w _ w1 HI Hmount) as HI1.
  destruct (resizes_unsubscribed i vs w1 hk
              (mkWindow (viewport win) (mqls win ++ [mkMQL q []]))
              HI1 (lookup_insert_eq _ _ _) eq_refl eq_refl)
    as (HI2 & Hi2 & Hu2 & Hc2 & Hw2).
  simpl in Hw2. set (w2 := resizes vs w1) in *.
  pose proof (flush_window i w2 hk _ f Hi2 eq_refl Hw2 Hq) as Hflush.
  simpl in Hflush.
  match type of Hflush with _ = inr (tt, ?W) => set (w3 := W) in * end.
  exists w3. split; [| split; [| split]].
  - change (Render i q :: map Resize vs ++ [Flush i])
      with ([Render i q] ++ (map Resize vs ++ [Flush i])).
    rewrite (run_app [Render i q] _ w w1).
    2:{ unfold run, step, bind, ret. rewrite Hmount. reflexivity. }
    rewrite (run_app (map Resize vs) _ w1 w2) by apply run_resizes.
    unfold run, step, bind, ret. rewrite Hflush. reflexivity.
  - unfold w3. simpl. rewrite updates_of_app, Hu2. unfold updates_of at 2. simpl.
    rewrite decide_True by reflexivity. reflexivity.
  - pose proof (render_idle i q w3
                  (mkHook (f (default (viewport win) (last vs))) q false
                     (Some (length (mqls win ++ [mkMQL q []]),
                            mkHandler (closures w2) i)))
                  (lookup_insert_eq _ _ _) eq_refl) as Hrender.
    simpl in Hrender. rewrite decide_True in Hrender by reflexivity.
    exact Hrender.
  - split; [discriminate |]. eexists. split; [apply lookup_insert_eq |].
    split; reflexivity.
Qed.

(** ** Several observers *)

Lemma listeners_of_cleanup w i :
  Inv w ->
  listeners_of w i =
  match fibers w !! i with
  | Some hk => match cleanup hk with
               | Some (m, h) => [h]
               | None => []
               end
  | None => []
  end.
Proof.
  intros HI. unfold listeners_of. destruct (fibers w !! i) as [hk |] eqn:Hi.
  - destruct (cleanup hk) as [[m h] |] eqn:Hc.
    + exact (subscribed_filter w i hk m h HI Hi Hc).
    + apply unsubscribed_filter; [exact HI |]. intros hk0 Hk. congruence.
  - apply unsubscribed_filter; [exact HI |]. intros hk0 Hk. congruence.
Qed.

(** What React does to instance [j] leaves the cells of another instance as
    they are and publishes nothing to it. *)
Lemma other_step i j a w w' :
  Inv w -> instance_of a = Some j -> j ≠ i -> step a w = inr (tt, w') ->
  fibers w' !! i = fibers w !! i /\
  updates_of i (trace w') = updates_of i (trace w).
Proof.
  intros HI Ha Hji.
  assert (Hflush : forall w1, flushPassiveEffects j w = inr (tt, w1) ->
            fibers w1 !! i = fibers w !! i /\
            updates_of i (trace w1) = updates_of i (trace w)).
  { intros w1 Hf. destruct (flush_fibers j w w1 HI Hf) as (_ & _ & Hother & _).
    split; [apply Hother; congruence | exact (flush_quiet i j w w1 HI Hji Hf)]. }
  destruct a as [k q | k | k | v]; simpl in Ha; try discriminate;
    injection Ha as ->; simpl.
  - intros Hrun. apply bind_inv in Hrun as (b & w1 & Hr & Hret).
    injection Hret as <-.
    destruct (fibers w !! j) as [hk |] eqn:Hj.
    + destruct (render_update j q w b w1 (mk_is_Some _ _ Hj) HI Hr)
        as (w0 & hk0 & Hf & _ & _ & _ & ->).
      destruct (Hflush w0 Hf) as [Hi0 Hu0].
      destruct (decide (deps hk0 = q)); simpl; [split; assumption |].
      rewrite lookup_alter_ne by exact Hji. split; assumption.
    + destruct (render_mount j q w b w1 Hj Hr) as (w0 & Hinit & ->). simpl.
      rewrite lookup_insert_ne by exact Hji.
      destruct (useState_init_cases q w b w0 Hinit)
        as [(_ & _ & ->) | (win & f & _ & _ & _ & ->)]; simpl;
        split; reflexivity.
  - apply Hflush.
  - intros Hrun.
    destruct (unmount_cases j w w' HI Hrun) as (w1 & Hf & Hcases).
    destruct (Hflush w1 Hf) as [Hi1 Hu1].
    destruct Hcases as [[_ ->] | [(hk & win & _ & _ & ->) | (hk & _ & _ & ->)]];
      simpl.
    + split; assumption.
    + rewrite lookup_delete_ne by exact Hji.
      rewrite updates_of_app, updates_of_removal, app_nil_r. split; assumption.
    + rewrite lookup_delete_ne by exact Hji. split; assumption.
Qed.

(** X6. Observers do not share anything: a render, an effect run or the
    unmounting of one instance leaves the state cell, the dependency array
    and the destroy closure of every other instance as they were, calls no
    [setMatches] of it, and leaves its listener in place. *)
Theorem observers_are_independent
    (w : World) (i j : nat) (a : Action) (w' : World) :
  reachable w -> instance_of a = Some j -> j <> i ->
  step a w = inr (tt, w') ->
  fibers w' !! i = fibers w !! i /\
  updates_of i (trace w') = updates_of i (trace w) /\
  listeners_of w' i = listeners_of w i.
Proof.
  intros Hreach Ha Hji Hstep. pose proof (reachable_Inv w Hreach) as HI.
  destruct (other_step i j a w w' HI Ha Hji Hstep) as [Hf Hu].
  split; [exact Hf |]. split; [exact Hu |].
  rewrite (listeners_of_cleanup w i HI).
  rewrite (listeners_of_cleanup w' i (Inv_step a w w' HI Hstep)), Hf.
  reflexivity.
Qed.

(** ** Every listener is accounted for *)

Lemma added_app t1 t2 : added (t1 ++ t2) = added t1 + added t2.
Proof. unfold added. rewrite omap_app, length_app. lia. Qed.

Lemma removed_app t1 t2 : removed (t1 ++ t2) = removed t1 + removed t2.
Proof. unfold removed. rewrite omap_app, length_app. lia. Qed.

Lemma added_sets sets : added (map (fun s => EvSetMatches s.1 s.2) sets) = 0.
Proof. induction sets as [| s sets IH]; [reflexivity | exact IH]. Qed.

Lemma removed_sets sets :
  removed (map (fun s => EvSetMatches s.1 s.2) sets) = 0.
Proof. induction sets as [| s sets IH]; [reflexivity | exact IH]. Qed.

Lemma count_app (q1 q2 : list MediaQueryList) :
  length (concat (listeners <$> (q1 ++ q2))) =
  length (concat (listeners <$> q1)) + length (concat (listeners <$> q2)).
Proof. rewrite fmap_app, concat_app, length_app. lia. Qed.

(** Removing the one listener of a list makes the count drop by one. *)
Lemma count_remove qs m h :
  listeners_in qs m = [h] ->
  length (concat (listeners <$> alter (remove_listener h) m qs)) + 1 =
  length (concat (listeners <$> qs)).
Proof.
  revert m. induction qs as [| mq qs IH]; intros m Hm.
  - unfold listeners_in in Hm. rewrite lookup_nil in Hm. discriminate.
  - destruct m as [| m].
    + unfold listeners_in in Hm. simpl in Hm. simpl.
      rewrite Hm, filter_ne_singleton. simpl. lia.
    + specialize (IH m Hm).
      change (length (listeners mq ++
                      concat (listeners <$> alter (remove_listener h) m qs)) + 1 =
              length (listeners mq ++ concat (listeners <$> qs))).
      rewrite !length_app. lia.
Qed.

Lemma count_without w i hk win :
  Inv w -> fibers w !! i = Some hk -> window w = Some win ->
  length (concat (listeners <$> mqls_without (cleanup hk) (mqls win))) +
    removed (removal (cleanup hk)) =
  length (concat (listeners <$> mqls win)).
Proof.
  intros HI Hi Hw. destruct (cleanup hk) as [[m h] |] eqn:Hc; simpl.
  - destruct (inv_cleanup w HI i hk m h Hi Hc) as (_ & Hl & _).
    rewrite (listeners_at_window w win m Hw) in Hl.
    apply (count_remove _ _ _ Hl).
  - unfold removed. simpl. lia.
Qed.

Lemma added_removal c : added (removal c) = 0.
Proof. destruct c as [[m h] |]; reflexivity. Qed.

Lemma Balanced_flush i w w' :
  Inv w -> Balanced w -> flushPassiveEffects i w = inr (tt, w') -> Balanced w'.
Proof.
  intros HI HB Hrun. unfold Balanced in *.
  destruct (flush_cases i w w' HI Hrun)
    as [[-> _] | [(hk & win & f & Hi & Hp & Hw & Hq & ->) |
                  (hk & Hi & Hp & Hw & ->)]].
  - exact HB.
  - pose proof (count_without w i hk win HI Hi Hw) as Hcount.
    unfold all_listeners in HB |- *. rewrite Hw in HB. simpl.
    rewrite !added_app, !removed_app, added_removal, count_app.
    unfold added at 2, removed at 3. simpl. lia.
  - unfold all_listeners in HB |- *. rewrite Hw in HB. simpl. exact HB.
Qed.

Lemma Balanced_render i q w v w' :
  Inv w -> Balanced w -> useMediaQuery i q w = inr (v, w') -> Balanced w'.
Proof.
  intros HI HB Hrun. destruct (fibers w !! i) as [hk |] eqn:Hi.
  - destruct (render_update i q w v w' (mk_is_Some _ _ Hi) HI Hrun)
      as (w1 & hk1 & Hflush & _ & _ & _ & ->).
    pose proof (Balanced_flush i w w1 HI HB Hflush) as HB1.
    destruct (decide (deps hk1 = q)); exact HB1.
  - destruct (render_mount i q w v w' Hi Hrun) as (w0 & Hinit & ->).
    destruct (useState_init_cases q w v w0 Hinit)
      as [(_ & _ & ->) | (win & f & Hw & _ & _ & ->)]; [exact HB |].
    unfold Balanced, all_listeners in HB |- *. rewrite Hw in HB. simpl.
    rewrite count_app. simpl. lia.
Qed.

Lemma Balanced_unmount i w w' :
  Inv w -> Balanced w -> unmount i w = inr (tt, w') -> Balanced w'.
Proof.
  intros HI HB Hrun.
  destruct (unmount_cases i w w' HI Hrun) as (w1 & Hflush & Hcases).
  pose proof (Inv_flush i w w1 HI Hflush) as HI1.
  pose proof (Balanced_flush i w w1 HI HB Hflush) as HB1.
  destruct Hcases as [[_ ->] | [(hk & win & Hi1 & Hw1 & ->) |
                                 (hk & Hi1 & Hw1 & ->)]].
  - exact HB1.
  - pose proof (count_without w1 i hk win HI1 Hi1 Hw1) as Hcount.
    unfold Balanced, all_listeners in HB1 |- *. rewrite Hw1 in HB1. simpl.
    rewrite !added_app, !removed_app, added_removal. lia.
  - unfold Balanced, all_listeners in HB1 |- *. rewrite Hw1 in HB1. exact HB1.
Qed.

Lemma Balanced_setViewport v w : Balanced w -> Balanced (setViewport v w).
Proof.
  intros HB. destruct (window w) as [win |] eqn:Hw.
  2:{ rewrite setViewport_no_window by exact Hw. exact HB. }
  unfold Balanced, all_listeners in HB |- *. rewrite Hw in HB.
  rewrite (setViewport_publish v w win Hw), publish_trace, publish_window.
  simpl. rewrite added_app, removed_app, added_sets, removed_sets. lia.
Qed.

Lemma Balanced_run acts w w' :
  Inv w -> Balanced w -> run acts w = inr (tt, w') -> Balanced w'.
Proof.
  revert w. induction acts as [| a acts IH]; intros w HI HB; simpl.
  - unfold ret. intros Hrun. injection Hrun as <-. exact HB.
  - intros Hrun. apply bind_inv in Hrun as ([] & w1 & Hstep & Hrest).
    apply (IH w1 (Inv_step a w w1 HI Hstep)); [| exact Hrest].
    destruct a as [i q | i | i | v]; simpl in Hstep.
    + apply bind_inv in Hstep as (b & w0 & Hr & Hret). injection Hret as <-.
      exact (Balanced_render i q w b w0 HI HB Hr).
    + exact (Balanced_flush i w w1 HI HB Hstep).
    + exact (Balanced_unmount i w w1 HI HB Hstep).
    + unfold lift in Hstep. injection Hstep as <-.
      exact (Balanced_setViewport v w HB).
Qed.

(** ** Every call on a listener is paired *)

Lemma calls_on_app m h t1 t2 :
  calls_on m h (t1 ++ t2) = calls_on m h t1 ++ calls_on m h t2.
Proof. unfold calls_on. apply omap_app. Qed.

Lemma calls_on_sets m h sets :
  calls_on m h (map (fun s => EvSetMatches s.1 s.2) sets) = [].
Proof. induction sets as [| s sets IH]; [reflexivity | exact IH]. Qed.

Lemma calls_on_removal m h c :
  calls_on m h (removal c) =
  if decide (c = Some (m, h)) then [CallRemove] else [].
Proof.
  destruct c as [[k g] |].
  - assert (Hone : calls_on m h (removal (Some (k, g))) =
                   if decide (k = m /\ g = h) then [CallRemove] else []).
    { unfold calls_on. simpl. destruct (decide (k = m /\ g = h)); reflexivity. }
    etransitivity; [exact Hone |]. repeat case_decide; try reflexivity.
    + exfalso. destruct H as [-> ->]. apply H0. reflexivity.
    + exfalso. injection H0 as -> ->. apply H. split; reflexivity.
  - case_decide; [discriminate | reflexivity].
Qed.

Lemma calls_on_subscribe m h i x n g :
  calls_on m h [EvSetMatches i x; EvAddListener n g] =
  if decide (n = m /\ g = h) then [CallAdd] else [].
Proof.
  unfold calls_on. simpl. destruct (decide (n = m /\ g = h)); reflexivity.
Qed.

(** The pairing only reads the listener lists, the calls of the trace and
    the closure counter. *)
Lemma Paired_ext w w' :
  (forall m, listeners_at w' m = listeners_at w m) ->
  (forall m h, calls_on m h (trace w') = calls_on m h (trace w)) ->
  closures w <= closures w' ->
  Paired w /\ Fresh w -> Paired w' /\ Fresh w'.
Proof.
  intros Hl Hc Hcl [HP HF]. split.
  - intros m h. rewrite Hl, Hc. apply HP.
  - intros m h. rewrite Hc. intros Hne. specialize (HF m h Hne). lia.
Qed.

(** The destroy closure of an instance takes its own listener out and no
    other. *)
Lemma member_without w i hk win m h :
  Inv w -> fibers w !! i = Some hk -> window w = Some win ->
  cleanup hk <> Some (m, h) ->
  h ∈ listeners_in (mqls_without (cleanup hk) (mqls win)) m <->
  h ∈ listeners_in (mqls win) m.
Proof.
  intros HI Hi Hw Hne. destruct (cleanup hk) as [[k g] |] eqn:Hc; simpl; [| tauto].
  rewrite listeners_in_remove. destruct (decide (m = k)) as [-> | Hmk]; [| tauto].
  destruct (inv_cleanup w HI i hk k g Hi Hc) as (_ & Hk & _).
  rewrite (listeners_at_window w win k Hw) in Hk. rewrite Hk, filter_ne_singleton.
  split; intros Hin.
  - exfalso. revert Hin. apply not_elem_of_nil.
  - apply in_singleton in Hin. subst h. exfalso. apply Hne. reflexivity.
Qed.

Lemma member_without_own w i hk win m h :
  Inv w -> fibers w !! i = Some hk -> window w = Some win ->
  cleanup hk = Some (m, h) ->
  h ∈ listeners_in (mqls win) m /\
  h ∉ listeners_in (mqls_without (cleanup hk) (mqls win)) m.
Proof.
  intros HI Hi Hw Hc. destruct (inv_cleanup w HI i hk m h Hi Hc) as (_ & Hk & _).
  rewrite (listeners_at_window w win m Hw) in Hk. split.
  - apply singleton_in, Hk.
  - rewrite Hc. simpl. rewrite listeners_in_remove, decide_True by reflexivity.
    rewrite Hk, filter_ne_singleton. apply not_elem_of_nil.
Qed.

Lemma Paired_destroy w i hk win (F : gmap nat Hook) :
  Inv w -> Paired w /\ Fresh w ->
  fibers w !! i = Some hk -> window w = Some win ->
  Paired (mkWorld (Some (mkWindow (viewport win)
                           (mqls_without (cleanup hk) (mqls win))))
                  F (closures w) (trace w ++ removal (cleanup hk))) /\
  Fresh (mkWorld (Some (mkWindow (viewport win)
                          (mqls_without (cleanup hk) (mqls win))))
                 F (closures w) (trace w ++ removal (cleanup hk))).
Proof.
  intros HI [HP HF] Hi Hw.
  assert (Hcalls : forall m h, cleanup hk = Some (m, h) ->
                     calls_on m h (trace w) = [CallAdd]).
  { intros m h Hc.
    destruct (member_without_own w i hk win m h HI Hi Hw Hc) as [Hin _].
    rewrite <- (listeners_at_window w win m Hw) in Hin.
    destruct (HP m h) as [[_ Hcalls] | [Hout _]]; [exact Hcalls | contradiction]. }
  split.
  - intros m h. unfold listeners_at. simpl.
    rewrite calls_on_app, calls_on_removal.
    destruct (decide (cleanup hk = Some (m, h))) as [Hc | Hc].
    + right. split; [apply (member_without_own w i hk win m h HI Hi Hw Hc) |].
      right. rewrite (Hcalls m h Hc). reflexivity.
    + rewrite app_nil_r.
      pose proof (member_without w i hk win m h HI Hi Hw Hc) as Hiff.
      rewrite <- (listeners_at_window w win m Hw) in Hiff.
      destruct (HP m h) as [[Hin Hcl] | [Hout Hcl]].
      * left. split; [apply Hiff, Hin | exact Hcl].
      * right. split; [intros Hin; apply Hout, Hiff, Hin | exact Hcl].
  - intros m h. simpl. rewrite calls_on_app, calls_on_removal. intros Hne.
    apply (HF m h).
    destruct (decide (cleanup hk = Some (m, h))) as [Hc | Hc].
    + rewrite (Hcalls m h Hc). discriminate.
    + rewrite app_nil_r in Hne. exact Hne.
Qed.

(** A new list with a new closure on it. *)
Lemma Paired_subscribe w win v q i x (F : gmap nat Hook) :
  window w = Some win -> Paired w /\ Fresh w ->
  Paired (mkWorld (Some (mkWindow v
                           (mqls win ++ [mkMQL q [mkHandler (closures w) i]])))
                  F (S (closures w))
                  (trace w ++ [EvSetMatches i x;
                               EvAddListener (length (mqls win))
                                             (mkHandler (closures w) i)])) /\
  Fresh (mkWorld (Some (mkWindow v
                          (mqls win ++ [mkMQL q [mkHandler (closures w) i]])))
                 F (S (closures w))
                 (trace w ++ [EvSetMatches i x;
                              EvAddListener (length (mqls win))
                                            (mkHandler (closures w) i)])).
Proof.
  intros Hw [HP HF].
  assert (Hnew : calls_on (length (mqls win)) (mkHandler (closures w) i)
                          (trace w) = []).
  { destruct (calls_on (length (mqls win)) (mkHandler (closures w) i) (trace w))
      as [| c cs] eqn:Hc; [reflexivity |]. exfalso.
    assert (H : h_id (mkHandler (closures w) i) < closures w).
    { apply (HF (length (mqls win))). rewrite Hc. discriminate. }
    simpl in H. lia. }
  split.
  - intros m h. unfold listeners_at. simpl.
    rewrite calls_on_app, calls_on_subscribe, listeners_in_app. simpl.
    destruct (decide (length (mqls win) = m /\ mkHandler (closures w) i = h))
      as [[<- <-] | Hne].
    + left. rewrite decide_True by reflexivity.
      split; [apply list_elem_of_singleton; reflexivity |].
      rewrite Hnew. reflexivity.
    + rewrite app_nil_r.
      destruct (decide (m = length (mqls win))) as [-> | Hm].
      * right. split.
        -- intros Hin. apply in_singleton in Hin. apply Hne.
           split; [reflexivity | symmetry; exact Hin].
        -- destruct (HP (length (mqls win)) h) as [[Hin _] | [_ Hc]];
             [| exact Hc].
           exfalso. rewrite (listeners_at_window w win _ Hw) in Hin.
           rewrite listeners_in_ge in Hin by lia.
           revert Hin. apply not_elem_of_nil.
      * rewrite <- (listeners_at_window w win m Hw). apply HP.
  - intros m h. simpl. rewrite calls_on_app, calls_on_subscribe. intros Hne.
    destruct (decide (length (mqls win) = m /\ mkHandler (closures w) i = h))
      as [[_ <-] | Hd].
    + simpl. lia.
    + rewrite app_nil_r in Hne. specialize (HF m h Hne). lia.
Qed.

Lemma Paired_flush i w w' :
  Inv w -> Paired w /\ Fresh w -> flushPassiveEffects i w = inr (tt, w') ->
  Paired w' /\ Fresh w'.
Proof.
  intros HI HT Hrun.
  destruct (flush_cases i w w' HI Hrun)
    as [[-> _] | [(hk & win & f & Hi & Hp & Hw & Hq & ->) |
                  (hk & Hi & Hp & Hw & ->)]].
  - exact HT.
  - pose proof (Paired_destroy w i hk win (fibers w) HI HT Hi Hw) as HT1.
    pose proof (Paired_subscribe
                  (mkWorld (Some (mkWindow (viewport win)
                                    (mqls_without (cleanup hk) (mqls win))))
                           (fibers w) (closures w)
                           (trace w ++ removal (cleanup hk)))
                  (mkWindow (viewport win) (mqls_without (cleanup hk) (mqls win)))
                  (viewport win) (deps hk) i (f (viewport win))
                  (<[i := mkHook (f (viewport win)) (deps hk) false
                                 (Some (length (mqls win),
                                        mkHandler (closures w) i))]> (fibers w))
                  eq_refl HT1) as HT2.
    simpl in HT2. rewrite length_mqls_without, <- app_assoc in HT2. exact HT2.
  - revert HT. apply Paired_ext.
    + intros m. unfold listeners_at. simpl. rewrite Hw. reflexivity.
    + reflexivity.
    + simpl. lia.
Qed.

Lemma Paired_render i q w v w' :
  Inv w -> Paired w /\ Fresh w -> useMediaQuery i q w = inr (v, w') ->
  Paired w' /\ Fresh w'.
Proof.
  intros HI HT Hrun. destruct (fibers w !! i) as [hk |] eqn:Hi.
  - destruct (render_update i q w v w' (mk_is_Some _ _ Hi) HI Hrun)
      as (w1 & hk1 & Hflush & _ & _ & _ & ->).
    pose proof (Paired_flush i w w1 HI HT Hflush) as HT1.
    destruct (decide (deps hk1 = q)); [exact HT1 |].
    revert HT1. apply Paired_ext; [reflexivity | reflexivity | simpl; lia].
  - destruct (render_mount i q w v w' Hi Hrun) as (w0 & Hinit & ->).
    destruct (useState_init_cases q w v w0 Hinit)
      as [(_ & _ & ->) | (win & f & Hw & _ & _ & ->)];
      revert HT; apply Paired_ext; try reflexivity; try (simpl; lia).
    intros m. unfold listeners_at. simpl. rewrite Hw, listeners_in_app. simpl.
    destruct (decide (m = length (mqls win))) as [-> | Hm]; [| reflexivity].
    symmetry. apply listeners_in_ge. lia.
Qed.

Lemma Paired_unmount i w w' :
  Inv w -> Paired w /\ Fresh w -> unmount i w = inr (tt, w') ->
  Paired w' /\ Fresh w'.
Proof.
  intros HI HT Hrun.
  destruct (unmount_cases i w w' HI Hrun) as (w1 & Hflush & Hcases).
  pose proof (Inv_flush i w w1 HI Hflush) as HI1.
  pose proof (Paired_flush i w w1 HI HT Hflush) as HT1.
  destruct Hcases as [[_ ->] | [(hk & win & Hi1 & Hw1 & ->) |
                                 (hk & Hi1 & Hw1 & ->)]].
  - exact HT1.
  - apply (Paired_destroy w1 i hk win _ HI1 HT1 Hi1 Hw1).
  - revert HT1. apply Paired_ext.
    + intros m. unfold listeners_at. simpl. rewrite Hw1. reflexivity.
    + reflexivity.
    + simpl. lia.
Qed.

Lemma Paired_setViewport v w :
  Paired w /\ Fresh w -> Paired (setViewport v w) /\ Fresh (setViewport v w).
Proof.
  intros HT. destruct (window w) as [win |] eqn:Hw.
  2:{ rewrite setViewport_no_window by exact Hw. exact HT. }
  rewrite (setViewport_publish v w win Hw). revert HT. apply Paired_ext.
  - intros m. unfold listeners_at. rewrite publish_window, Hw. reflexivity.
  - intros m h. rewrite publish_trace. simpl.
    rewrite calls_on_app, calls_on_sets, app_nil_r. reflexivity.
  - rewrite publish_closures. simpl. lia.
Qed.

Lemma Paired_run acts w w' :
  Inv w -> Paired w /\ Fresh w -> run acts w = inr (tt, w') ->
  Paired w' /\ Fresh w'.
Proof.
  revert w. induction acts as [| a acts IH]; intros w HI HT; simpl.
  - unfold ret. intros Hrun. injection Hrun as <-. exact HT.
  - intros Hrun. apply bind_inv in Hrun as ([] & w1 & Hstep & Hrest).
    apply (IH w1 (Inv_step a w w1 HI Hstep)); [| exact Hrest].
    destruct a as [i q | i | i | v]; simpl in Hstep.
    + apply bind_inv in Hstep as (b & w0 & Hr & Hret). injection Hret as <-.
      exact (Paired_render i q w b w0 HI HT Hr).
    + exact (Paired_flush i w w1 HI HT Hstep).
    + exact (Paired_unmount i w w1 HI HT Hstep).
    + unfold lift in Hstep. injection Hstep as <-.
      exact (Paired_setViewport v w HT).
Qed.

Lemma Paired_initial v0 : Paired (initial v0) /\ Fresh (initial v0).
Proof.
  split.
  - intros m h. right. split; [| left; reflexivity].
    unfold listeners_at, initial. destruct v0; simpl; apply not_elem_of_nil.
  - intros m h Hne. exfalso. apply Hne. reflexivity.
Qed.

(** X7. Every call of [addEventListener] and of [removeEventListener] is
    accounted for. For each list and each closure, the calls that name the
    two are, in order, one of: no call, and the closure is not registered;
    one add, and the closure is registered; one add and then one remove, and
    the closure is not registered. Over the whole trace the number of adds
    is the number of removes plus the number of closures registered, and
    once no instance is mounted the two numbers are equal. *)
Theorem listeners_are_accounted_for (w : World) :
  reachable w ->
  (forall m h,
     (h ∈ listeners_at w m /\ calls_on m h (trace w) = [CallAdd]) \/
     ((h ∉ listeners_at w m) /\
      (calls_on m h (trace w) = [] \/
       calls_on m h (trace w) = [CallAdd; CallRemove]))) /\
  added (trace w) = removed (trace w) + length (all_listeners w) /\
  (fibers w = ∅ -> added (trace w) = removed (trace w)).
Proof.
  intros Hreach. pose proof (reachable_Inv w Hreach) as HI.
  destruct Hreach as (v0 & acts & Hrun).
  assert (HB : Balanced w).
  { apply (Balanced_run acts (initial v0) w (Inv_initial v0)); [| exact Hrun].
    unfold Balanced, all_listeners. destruct v0; reflexivity. }
  split.
  { apply (Paired_run acts (initial v0) w (Inv_initial v0) (Paired_initial v0)
             Hrun). }
  split; [exact HB |]. intros Hempty. unfold Balanced in HB.
  rewrite (all_listeners_no_fibers w HI Hempty) in HB. simpl in HB. lia.
Qed.

(** * The hook of the plan, [useMobile] *)

Lemma useMobile_effect_window i q w :
  window w <> None -> useMobile_effect i q w = effect i q w.
Proof.
  intros Hw. unfold effect, bind at 1, typeof_window_undefined.
  destruct (window w); [reflexivity | contradiction].
Qed.

Lemma useMobile_effect_no_window i q w :
  window w = None -> useMobile_effect i q w = inl ReferenceError.
Proof.
  intros Hw. unfold useMobile_effect, bind, matchMedia. rewrite Hw. reflexivity.
Qed.

Lemma destroy_keeps_window c w w1 :
  destroy c w = inr (tt, w1) -> (window w1 = None <-> window w = None).
Proof.
  destruct c as [[m h] |]; simpl; unfold removeEventListener, lift, ret;
    intros H; injection H as <-; simpl; [| tauto].
  destruct (window w); split; congruence.
Qed.

Lemma useMobile_flush_window i w :
  window w <> None -> useMobile_flush i w = flushPassiveEffects i w.
Proof.
  intros Hw. unfold useMobile_flush, flushPassiveEffects.
  destruct (fibers w !! i) as [hk |]; [| reflexivity].
  destruct (pending hk); [| reflexivity].
  destruct (destroy_total (cleanup hk) w) as (w1 & Hd & _).
  rewrite !(bind_inr _ _ _ _ _ Hd).
  unfold bind. rewrite useMobile_effect_window; [reflexivity |].
  intros Hw1. apply Hw, (destroy_keeps_window _ _ _ Hd), Hw1.
Qed.

(** Without a [window] the effect raises. *)
Lemma useMobile_flush_no_window i w hk :
  window w = None -> fibers w !! i = Some hk -> pending hk = true ->
  useMobile_flush i w = inl ReferenceError.
Proof.
  intros Hw Hi Hp. unfold useMobile_flush. rewrite Hi, Hp.
  destruct (destroy_total (cleanup hk) w) as (w1 & Hd & Hw1).
  rewrite (bind_inr _ _ _ _ _ Hd). apply bind_inl.
  apply useMobile_effect_no_window, Hw1, Hw.
Qed.

Lemma useMobile_flush_idle i w :
  (forall hk, fibers w !! i = Some hk -> pending hk = false) ->
  useMobile_flush i w = inr (tt, w).
Proof.
  intros H. unfold useMobile_flush.
  destruct (fibers w !! i) as [hk |] eqn:Hi; [| reflexivity].
  rewrite (H hk eq_refl). reflexivity.
Qed.

(** Whenever the effects of [useMobile] run through, they did what the
    effects of [useMediaQuery] do. *)
Lemma useMobile_flush_sim i w w' :
  useMobile_flush i w = inr (tt, w') -> flushPassiveEffects i w = inr (tt, w').
Proof.
  intros Hrun. destruct (window w) as [win |] eqn:Hw.
  - rewrite <- useMobile_flush_window by (rewrite Hw; discriminate). exact Hrun.
  - destruct (fibers w !! i) as [hk |] eqn:Hi.
    + destruct (pending hk) eqn:Hp.
      * rewrite (useMobile_flush_no_window i w hk Hw Hi Hp) in Hrun. discriminate.
      * rewrite useMobile_flush_idle in Hrun by (intros hk0 Hk; congruence).
        rewrite flush_idle by (intros hk0 Hk; congruence). exact Hrun.
    + rewrite useMobile_flush_idle in Hrun by (intros hk0 Hk; congruence).
      rewrite flush_idle by (intros hk0 Hk; congruence). exact Hrun.
Qed.

Lemma useMobile_unmount_sim i w w' :
  useMobile_unmount i w = inr (tt, w') -> unmount i w = inr (tt, w').
Proof.
  unfold useMobile_unmount, unmount. intros Hrun.
  apply bind_inv in Hrun as ([] & w1 & Hflush & Hrest).
  rewrite (bind_inr _ _ _ _ _ (useMobile_flush_sim i w w1 Hflush)). exact Hrest.
Qed.

(** The listener of [useMobile] under the platform's dispatch. *)
Lemma useMobile_dispatch v w :
  setViewport_with useMobile_handleChange v w = setViewport v w.
Proof.
  unfold setViewport, setViewport_with.
  destruct (window w) as [win |] eqn:Hw; [| reflexivity].
  apply (report_changes_reread (viewport win) (mqls win) _
           (mkWindow v (mqls win))).
  reflexivity.
Qed.

Lemma mobile_resizes_resizes vs w : mobile_resizes vs w = resizes vs w.
Proof.
  unfold mobile_resizes, resizes. revert w.
  induction vs as [| v vs IH]; intros w; simpl; [reflexivity |].
  rewrite useMobile_dispatch. apply IH.
Qed.

(** ** The invariant of [useMobile] executions *)

(** Scheduling an effect keeps the invariant. *)
Lemma Inv_schedule q i w : Inv w -> Inv (alter_fiber (with_effect q) i w).
Proof.
  apply Inv_ext; unfold alter_fiber; simpl.
  - reflexivity.
  - tauto.
  - tauto.
  - intros j hk'. destruct (decide (j = i)) as [-> | Hji].
    + rewrite lookup_alter_eq.
      destruct (fibers w !! i) as [hk |]; simpl; [| discriminate].
      intros Hj. injection Hj as <-. right. exists hk. simpl.
      split; [reflexivity |]. split; [reflexivity | discriminate].
    + rewrite lookup_alter_ne by congruence. intros Hj. right. exists hk'.
      split; [exact Hj |]. split; [reflexivity | tauto].
  - intros j hkj. destruct (decide (j = i)) as [-> | Hji].
    + rewrite lookup_alter_eq. intros ->. simpl. eexists.
      split; reflexivity.
    + rewrite lookup_alter_ne by congruence. intros Hj. exists hkj.
      split; [exact Hj | reflexivity].
Qed.

Lemma Current_schedule q i w :
  Current w -> Current (alter_fiber (with_effect q) i w).
Proof.
  intros HC j hkj win Hw Hj Hp. simpl in Hw, Hj.
  destruct (decide (j = i)) as [-> | Hji].
  - rewrite lookup_alter_eq in Hj.
    destruct (fibers w !! i); simpl in Hj; [| discriminate].
    injection Hj as <-. discriminate.
  - rewrite lookup_alter_ne in Hj by congruence. exact (HC j hkj win Hw Hj Hp).
Qed.

(** The effects, an unmount and a viewport change leave the dependency
    arrays of the instances that stay mounted as they are. *)
Lemma flush_deps i w w' j hk' :
  Inv w -> flushPassiveEffects i w = inr (tt, w') ->
  fibers w' !! j = Some hk' ->
  exists hk, fibers w !! j = Some hk /\ deps hk' = deps hk.
Proof.
  intros HI Hrun Hj.
  destruct (flush_fibers i w w' HI Hrun) as (Hkeep & Hnone & Hother & _).
  destruct (decide (j = i)) as [-> | Hji].
  - destruct (fibers w !! i) as [hk |] eqn:Hi.
    + destruct (Hkeep hk eq_refl) as (hk1 & Hi1 & _ & Hd). exists hk.
      split; [reflexivity | congruence].
    + rewrite (Hnone eq_refl) in Hj. discriminate.
  - exists hk'. rewrite <- (Hother j Hji). split; [exact Hj | reflexivity].
Qed.

Lemma unmount_deps i w w' j hk' :
  Inv w -> unmount i w = inr (tt, w') -> fibers w' !! j = Some hk' ->
  j <> i /\ exists hk, fibers w !! j = Some hk /\ deps hk' = deps hk.
Proof.
  intros HI Hrun Hj.
  pose proof (unmount_absent i w w' HI Hrun) as Habs.
  assert (Hji : j <> i) by (intros ->; congruence).
  split; [exact Hji |].
  destruct (unmount_cases i w w' HI Hrun) as (w1 & Hflush & Hcases).
  apply (flush_deps i w w1 j hk' HI Hflush).
  destruct Hcases as [[_ ->] | [(hk & win & _ & _ & ->) | (hk & _ & _ & ->)]];
    simpl in Hj.
  - exact Hj.
  - rewrite lookup_delete_ne in Hj by congruence. exact Hj.
  - rewrite lookup_delete_ne in Hj by congruence. exact Hj.
Qed.

Lemma setViewport_deps v w j hk' :
  fibers (setViewport v w) !! j = Some hk' ->
  exists hk, fibers w !! j = Some hk /\ deps hk' = deps hk.
Proof.
  destruct (window w) as [win |] eqn:Hw.
  - rewrite (setViewport_publish v w win Hw), publish_fibers. simpl.
    destruct (fibers w !! j) as [hk |]; simpl; [| discriminate].
    intros H. injection H as <-. exists hk. split; reflexivity.
  - rewrite setViewport_no_window by exact Hw. intros H. exists hk'.
    split; [exact H | reflexivity].
Qed.

Section NumbersProofs.

Context {JSNumber : Type} {numbers : JSNumbers JSNumber}.

Lemma mobile_bind_inr {A B} (m : MobileM (JSNumber := JSNumber) A) (k : A -> MobileM B) mw a mw' :
  m mw = inr (a, mw') -> mobile_bind m k mw = k a mw'.
Proof. unfold mobile_bind. intros ->. reflexivity. Qed.

Lemma mobile_bind_inl {A B} (m : MobileM (JSNumber := JSNumber) A) (k : A -> MobileM B) mw e :
  m mw = inl e -> mobile_bind m k mw = inl e.
Proof. unfold mobile_bind. intros ->. reflexivity. Qed.

Lemma mobile_bind_inv {A B} (m : MobileM (JSNumber := JSNumber) A) (k : A -> MobileM B) mw b mw'' :
  mobile_bind m k mw = inr (b, mw'') ->
  exists a mw', m mw = inr (a, mw') /\ k a mw' = inr (b, mw'').
Proof.
  unfold mobile_bind. destruct (m mw) as [e | [a mw']]; [discriminate |].
  intros Hk. exists a, mw'. split; [reflexivity | exact Hk].
Qed.

Lemma in_world_inr {A} (m : M A) (mw : MobileWorld (JSNumber := JSNumber)) a w' :
  m (world mw) = inr (a, w') ->
  in_world m mw = inr (a, mkMobile w' (breakpoints mw)).
Proof. unfold in_world. intros ->. reflexivity. Qed.

Lemma in_world_inl {A} (m : M A) (mw : MobileWorld (JSNumber := JSNumber)) e :
  m (world mw) = inl e -> in_world m mw = inl e.
Proof. unfold in_world. intros ->. reflexivity. Qed.

Lemma in_world_inv {A} (m : M A) (mw : MobileWorld (JSNumber := JSNumber)) a mw' :
  in_world m mw = inr (a, mw') ->
  exists w', m (world mw) = inr (a, w') /\ mw' = mkMobile w' (breakpoints mw).
Proof.
  unfold in_world. destruct (m (world mw)) as [e | [a0 w']]; [discriminate |].
  intros H. injection H as <- <-. exists w'. split; reflexivity.
Qed.

(** ** Renders of [useMobile], unfolded *)

Lemma useMobile_mount i b mw :
  fibers (world mw) !! i = None ->
  useMobile i b mw =
  inr (false,
       mkMobile
         (mkWorld (window (world mw))
                  (<[i := mkHook false (mobile_query b) true None]>
                     (fibers (world mw)))
                  (closures (world mw)) (trace (world mw)))
         (<[i := b]> (breakpoints mw))).
Proof. intros Hi. unfold useMobile. rewrite Hi. reflexivity. Qed.

Lemma useMobile_idle i b mw hk :
  fibers (world mw) !! i = Some hk -> pending hk = false ->
  useMobile i b mw =
  inr (matches hk,
       if decide (breakpoints mw !! i = Some b)
       then mkMobile (world mw) (breakpoints mw)
       else mkMobile (alter_fiber (with_effect (mobile_query b)) i (world mw))
                     (<[i := b]> (breakpoints mw))).
Proof.
  intros Hi Hp. unfold useMobile. rewrite Hi.
  rewrite useMobile_flush_idle by (intros hk0 Hk; congruence).
  rewrite Hi. reflexivity.
Qed.

Lemma useMobile_update i b mw x mw' :
  Inv (world mw) -> is_Some (fibers (world mw) !! i) ->
  useMobile i b mw = inr (x, mw') ->
  exists w1 hk1,
    flushPassiveEffects i (world mw) = inr (tt, w1) /\
    fibers w1 !! i = Some hk1 /\ pending hk1 = false /\
    x = matches hk1 /\
    mw' = if decide (breakpoints mw !! i = Some b)
          then mkMobile w1 (breakpoints mw)
          else mkMobile (alter_fiber (with_effect (mobile_query b)) i w1)
                        (<[i := b]> (breakpoints mw)).
Proof.
  intros HI [hk Hi]. unfold useMobile. rewrite Hi.
  destruct (useMobile_flush i (world mw)) as [e | [[] w1]] eqn:Hflush;
    [discriminate |].
  pose proof (useMobile_flush_sim i _ w1 Hflush) as Hflush'.
  destruct (flush_fibers i _ w1 HI Hflush') as (Hkeep & _).
  destruct (Hkeep hk Hi) as (hk1 & Hi1 & Hp1 & _).
  rewrite Hi1. intros Hr. injection Hr as <- <-.
  exists w1, hk1. split; [exact Hflush' |]. split; [exact Hi1 |].
  split; [exact Hp1 |]. split; reflexivity.
Qed.

Lemma Linked_world w bps w' :
  (forall j hk', fibers w' !! j = Some hk' ->
     exists hk, fibers w !! j = Some hk /\ deps hk' = deps hk) ->
  Linked (mkMobile w bps) -> Linked (mkMobile w' bps).
Proof.
  intros Hback HL j hk' Hj. simpl in *.
  destruct (Hback j hk' Hj) as (hk & Hk & Hd).
  destruct (HL j hk Hk) as (n & Hn & Hq). exists n.
  split; [exact Hn | congruence].
Qed.

Lemma Linked_insert w bps w' i b :
  (forall hk', fibers w' !! i = Some hk' -> deps hk' = mobile_query b) ->
  (forall j hk', j <> i -> fibers w' !! j = Some hk' ->
     exists hk, fibers w !! j = Some hk /\ deps hk' = deps hk) ->
  Linked (mkMobile w bps) -> Linked (mkMobile w' (<[i := b]> bps)).
Proof.
  intros Hi Hback HL j hk' Hj. simpl in *.
  destruct (decide (j = i)) as [-> | Hji].
  - exists b. rewrite lookup_insert_eq. split; [reflexivity | apply Hi, Hj].
  - destruct (Hback j hk' Hji Hj) as (hk & Hk & Hd).
    destruct (HL j hk Hk) as (n & Hn & Hq). exists n.
    rewrite lookup_insert_ne by congruence. split; [exact Hn | congruence].
Qed.

Lemma Linked_delete w bps w' i :
  (forall j hk', fibers w' !! j = Some hk' ->
     j <> i /\ exists hk, fibers w !! j = Some hk /\ deps hk' = deps hk) ->
  Linked (mkMobile w bps) -> Linked (mkMobile w' (delete i bps)).
Proof.
  intros Hback HL j hk' Hj. simpl in *.
  destruct (Hback j hk' Hj) as (Hji & hk & Hk & Hd).
  destruct (HL j hk Hk) as (n & Hn & Hq). exists n.
  rewrite lookup_delete_ne by congruence. split; [exact Hn | congruence].
Qed.

Lemma mobile_step_Inv a mw mw' :
  Inv (world mw) /\ Current (world mw) /\ Linked mw ->
  mobile_step a mw = inr (tt, mw') ->
  Inv (world mw') /\ Current (world mw') /\ Linked mw'.
Proof.
  intros (HI & HC & HL). destruct mw as [w bps]. simpl in HI, HC.
  destruct a as [i b | i | i | v]; simpl; intros Hstep.
  - apply mobile_bind_inv in Hstep as (x & mw1 & Hr & Hret).
    unfold mobile_ret in Hret. injection Hret as <-.
    destruct (fibers w !! i) as [hk |] eqn:Hi.
    + destruct (useMobile_update i b (mkMobile w bps) x mw1 HI
                  (mk_is_Some _ _ Hi) Hr)
        as (w1 & hk1 & Hflush & Hi1 & Hp1 & _ & ->).
      simpl in Hflush.
      pose proof (Inv_flush i w w1 HI Hflush) as HI1.
      pose proof (Current_flush i w w1 HI HC Hflush) as HC1.
      assert (HL1 : Linked (mkMobile w1 bps)).
      { revert HL. apply Linked_world. intros j hk' Hj.
        exact (flush_deps i w w1 j hk' HI Hflush Hj). }
      simpl. destruct (decide (bps !! i = Some b)) as [_ | Hne]; simpl.
      * split; [exact HI1 |]. split; [exact HC1 | exact HL1].
      * split; [apply Inv_schedule, HI1 |].
        split; [apply Current_schedule, HC1 |].
        revert HL1. apply Linked_insert; simpl.
        -- intros hk'. rewrite lookup_alter_eq, Hi1. simpl.
           intros H. injection H as <-. reflexivity.
        -- intros j hk' Hji. rewrite lookup_alter_ne by congruence.
           intros Hj. exists hk'. split; [exact Hj | reflexivity].
    + rewrite (useMobile_mount i b (mkMobile w bps) Hi) in Hr.
      injection Hr as _ <-. simpl.
      split; [| split].
      * revert HI. apply Inv_ext; simpl; try tauto.
        -- intros j hk'. destruct (decide (j = i)) as [-> | Hji].
           ++ rewrite lookup_insert_eq. intros Hj. injection Hj as <-. left.
              split; reflexivity.
           ++ rewrite lookup_insert_ne by congruence. intros Hj. right.
              exists hk'. split; [exact Hj |]. split; [reflexivity | tauto].
        -- intros j hk Hj. exists hk. rewrite lookup_insert_ne by congruence.
           split; [exact Hj | reflexivity].
      * intros j hkj win Hw Hj Hpj. simpl in Hw, Hj.
        destruct (decide (j = i)) as [-> | Hji].
        -- rewrite lookup_insert_eq in Hj. injection Hj as <-. discriminate.
        -- rewrite lookup_insert_ne in Hj by congruence.
           exact (HC j hkj win Hw Hj Hpj).
      * revert HL. apply Linked_insert; simpl.
        -- intros hk'. rewrite lookup_insert_eq. intros H. injection H as <-.
           reflexivity.
        -- intros j hk' Hji. rewrite lookup_insert_ne by congruence.
           intros Hj. exists hk'. split; [exact Hj | reflexivity].
  - apply in_world_inv in Hstep as (w1 & Hflush & ->). simpl in Hflush |- *.
    apply useMobile_flush_sim in Hflush.
    split; [exact (Inv_flush i w w1 HI Hflush) |].
    split; [exact (Current_flush i w w1 HI HC Hflush) |].
    revert HL. apply Linked_world. intros j hk' Hj.
    exact (flush_deps i w w1 j hk' HI Hflush Hj).
  - destruct (useMobile_unmount i w) as [e | [[] w1]] eqn:Hun; [discriminate |].
    injection Hstep as <-. apply useMobile_unmount_sim in Hun. simpl.
    split; [exact (Inv_unmount i w w1 HI Hun) |].
    split; [exact (Current_unmount i w w1 HI HC Hun) |].
    revert HL. apply Linked_delete. intros j hk' Hj.
    exact (unmount_deps i w w1 j hk' HI Hun Hj).
  - apply in_world_inv in Hstep as (w1 & Hres & ->). simpl in Hres |- *.
    unfold lift in Hres. injection Hres as <-. rewrite useMobile_dispatch.
    split; [apply Inv_setViewport, HI |].
    split; [apply Current_setViewport; assumption |].
    revert HL. apply Linked_world. intros j hk'. apply setViewport_deps.
Qed.

Lemma mobile_run_Inv acts mw mw' :
  Inv (world mw) /\ Current (world mw) /\ Linked mw ->
  mobile_run acts mw = inr (tt, mw') ->
  Inv (world mw') /\ Current (world mw') /\ Linked mw'.
Proof.
  revert mw. induction acts as [| a acts IH]; intros mw HG; simpl.
  - unfold mobile_ret. intros Hrun. injection Hrun as <-. exact HG.
  - intros Hrun. apply mobile_bind_inv in Hrun as ([] & mw1 & Hstep & Hrest).
    exact (IH mw1 (mobile_step_Inv a mw mw1 HG Hstep) Hrest).
Qed.

Lemma mobile_initial_Inv v0 :
  Inv (world (mobile_initial (JSNumber := JSNumber) v0)) /\
  Current (world (mobile_initial (JSNumber := JSNumber) v0)) /\
  Linked (mobile_initial v0).
Proof.
  split; [apply Inv_initial |]. split; [apply Current_initial |].
  intros i hk Hi. simpl in Hi. rewrite lookup_empty in Hi. discriminate.
Qed.

Lemma mobile_reachable_Inv mw :
  mobile_reachable mw ->
  Inv (world mw) /\ Current (world mw) /\ Linked mw.
Proof.
  intros (v0 & acts & Hrun).
  exact (mobile_run_Inv acts _ mw (mobile_initial_Inv v0) Hrun).
Qed.

(** X8. [useMobile] needs a [window]: where there is none its first render
    still gives [false], but its effect calls [window.matchMedia] without
    testing [typeof window] and raises, whatever the breakpoint; the effect
    of [useMediaQuery] for the same query returns without a listener. *)
Theorem useMobile_needs_a_window (mw : MobileWorld) (i : nat) (b : JSNumber) :
  window (world mw) = None -> fibers (world mw) !! i = None ->
  exists mw1,
    useMobile i b mw = inr (false, mw1) /\
    useMobile_flush i (world mw1) = inl ReferenceError /\
    mobile_run [MRender i b; MFlush i] mw = inl ReferenceError /\
    exists w2,
      flushPassiveEffects i (world mw1) = inr (tt, w2) /\
      trace w2 = trace (world mw) /\ subscriptions w2 i = 0.
Proof.
  intros Hw Hi. eexists. split; [apply (useMobile_mount i b mw Hi) |].
  set (hk := mkHook false (mobile_query b) true None).
  set (w1 := mkWorld (window (world mw)) (<[i := hk]> (fibers (world mw)))
                     (closures (world mw)) (trace (world mw))).
  assert (Hraise : useMobile_flush i w1 = inl ReferenceError).
  { apply (useMobile_flush_no_window i w1 hk Hw (lookup_insert_eq _ _ _) eq_refl). }
  split; [exact Hraise |]. split.
  - unfold mobile_run.
    erewrite mobile_bind_inr;
      [| unfold mobile_step; erewrite mobile_bind_inr;
         [reflexivity | apply (useMobile_mount i b mw Hi)]].
    apply mobile_bind_inl. apply in_world_inl. exact Hraise.
  - eexists. split.
    + apply (flush_no_window i w1 hk (lookup_insert_eq _ _ _) eq_refl Hw eq_refl).
    + split; [reflexivity |]. unfold subscriptions, all_listeners. reflexivity.
Qed.

(** X9. Where there is a [window], [useMobile] does what [useMediaQuery]
    does for the query built from the breakpoint, in all but the first
    render: its effect, the run of its scheduled effect and its unmounting
    are the same functions of the world, and its listener, which reads
    [mediaQuery.matches], leaves the same world as the listener that
    publishes the event's [matches]. A later render gives the same value and
    the same world, provided that the breakpoint is the number of the last
    render whenever it prints like it: React compares the numbers, and
    [useMediaQuery] the strings. *)
Theorem useMobile_is_useMediaQuery_after_mount
    (mw : MobileWorld) (i : nat) (b : JSNumber) (q : string) :
  window (world mw) <> None ->
  useMobile_effect i q (world mw) = effect i q (world mw) /\
  useMobile_flush i (world mw) = flushPassiveEffects i (world mw) /\
  useMobile_unmount i (world mw) = unmount i (world mw) /\
  (forall v, setViewport_with useMobile_handleChange v (world mw) =
             setViewport v (world mw)) /\
  (mobile_reachable mw -> is_Some (fibers (world mw) !! i) ->
   (forall prev, breakpoints mw !! i = Some prev ->
                 mobile_query prev = mobile_query b -> prev = b) ->
   in_World (useMobile i b mw) = useMediaQuery i (mobile_query b) (world mw)).
Proof.
  intros Hw.
  pose proof (useMobile_flush_window i (world mw) Hw) as Hflush.
  split; [exact (useMobile_effect_window i q (world mw) Hw) |].
  split; [exact Hflush |]. split; [| split].
  - unfold useMobile_unmount, unmount, bind. rewrite Hflush. reflexivity.
  - intros v. apply useMobile_dispatch.
  - intros Hreach [hk Hi] Hinj.
    destruct (mobile_reachable_Inv mw Hreach) as (HI & _ & HL).
    destruct (HL i hk Hi) as (n & Hn & Hq).
    unfold useMobile, useMediaQuery, bind. rewrite Hi, Hflush.
    destruct (flushPassiveEffects i (world mw)) as [e | [[] w1]] eqn:Hf;
      [reflexivity |].
    destruct (flush_fibers i _ w1 HI Hf) as (Hkeep & _).
    destruct (Hkeep hk Hi) as (hk1 & Hi1 & _ & Hd1).
    rewrite Hi1. simpl.
    destruct (decide (breakpoints mw !! i = Some b)) as [Hb | Hb];
      destruct (decide (deps hk1 = mobile_query b)) as [Hs | Hs];
      try reflexivity; exfalso.
    + apply Hs. rewrite Hd1, Hq. rewrite Hb in Hn. injection Hn as <-.
      reflexivity.
    + apply Hb. rewrite Hn. f_equal. apply (Hinj n Hn). congruence.
Qed.

(** X10. In every world that components calling [useMobile] reach, an
    instance whose effect has run gives, when rendered with the breakpoint
    of its last render, the match state of [(max-width: <breakpoint>px)] at
    the current viewport, changes nothing by that render, and has exactly
    one listener. *)
Theorem useMobile_gives_the_current_match_state
    (mw : MobileWorld) (i : nat) (b : JSNumber) (win : Window) (hk : Hook) :
  mobile_reachable mw -> window (world mw) = Some win ->
  fibers (world mw) !! i = Some hk -> pending hk = false ->
  breakpoints mw !! i = Some b ->
  useMobile i b mw = inr (evalMedia (mobile_query b) (viewport win), mw) /\
  subscriptions (world mw) i = 1.
Proof.
  intros Hreach Hw Hi Hp Hb.
  destruct (mobile_reachable_Inv mw Hreach) as (HI & HC & HL).
  destruct (HL i hk Hi) as (n & Hn & Hq). rewrite Hb in Hn. injection Hn as <-.
  split.
  - rewrite (useMobile_idle i b mw hk Hi Hp), decide_True by exact Hb.
    rewrite (HC i hk win Hw Hi Hp), Hq. destruct mw; reflexivity.
  - apply (subscriptions_live (world mw) i (mobile_query b) HI).
    split; [rewrite Hw; discriminate |]. exists hk.
    split; [exact Hi |]. split; [exact Hq | exact Hp].
Qed.

(** ** [useMobile] beside [useIsMobile] *)

Lemma mobile_mount_and_subscribe b f v :
  parseMedia (mobile_query b) = inr f ->
  exists w1 w,
    useMobile 0 b (mobile_initial (Some v)) =
      inr (false, mkMobile w1 (<[0 := b]> ∅)) /\
    useMobile_flush 0 w1 = inr (tt, w) /\
    Inv w /\ Current w /\ live w 0 (mobile_query b) /\
    exists qs, window w = Some (mkWindow v qs).
Proof.
  intros Hq.
  set (hk := mkHook false (mobile_query b) true None).
  set (w1 := mkWorld (Some (mkWindow v [])) (<[0 := hk]> ∅) 0 []).
  assert (Hmount : useMobile 0 b (mobile_initial (Some v)) =
                   inr (false, mkMobile w1 (<[0 := b]> ∅))).
  { apply useMobile_mount. apply lookup_empty. }
  assert (Hflush : exists w, useMobile_flush 0 w1 = inr (tt, w) /\
                     live w 0 (mobile_query b) /\
                     exists qs, window w = Some (mkWindow v qs)).
  { rewrite useMobile_flush_window by discriminate.
    rewrite (flush_window 0 w1 hk (mkWindow v []) f
               (lookup_insert_eq _ _ _) eq_refl eq_refl Hq).
    eexists. split; [reflexivity |]. split.
    - split; [discriminate |]. eexists. split; [apply lookup_insert_eq |].
      split; reflexivity.
    - eexists. reflexivity. }
  destruct Hflush as (w & Hflush & Hlive & Hwin).
  assert (HG : Inv w /\ Current w /\ Linked (mkMobile w (<[0 := b]> ∅))).
  { apply (mobile_run_Inv [MRender 0 b; MFlush 0] (mobile_initial (Some v))
             (mkMobile w (<[0 := b]> ∅)) (mobile_initial_Inv _)).
    cbn [mobile_run mobile_step].
    rewrite (mobile_bind_inr _ _ _ tt (mkMobile w1 (<[0 := b]> ∅)))
      by (rewrite (mobile_bind_inr _ _ _ _ _ Hmount); reflexivity).
    rewrite (mobile_bind_inr _ _ _ tt (mkMobile w (<[0 := b]> ∅)));
      [reflexivity |].
    pose proof (in_world_inr (useMobile_flush 0) (mkMobile w1 (<[0 := b]> ∅))
                  tt w Hflush) as Hin.
    simpl in Hin. exact Hin. }
  destruct HG as (HI & HC & _).
  exists w1, w. split; [exact Hmount |]. split; [exact Hflush |].
  split; [exact HI |]. split; [exact HC |]. split; [exact Hlive | exact Hwin].
Qed.

Lemma mobile_observe_from_current b vs w bps :
  Inv w -> Current w -> live w 0 (mobile_query b) -> bps !! 0 = Some b ->
  mobile_value_of (mobile_observe_from b vs (mkMobile w bps)) =
  Some (map (evalMedia (mobile_query b)) vs).
Proof.
  revert w. induction vs as [| v vs IH]; intros w HI HC Hlive Hb;
    [reflexivity |].
  pose proof Hlive as (Hw & hk & Hi & _).
  destruct (window w) as [win |] eqn:Hwin; [| contradiction].
  destruct (setViewport_live w 0 _ win hk v HI Hlive Hwin Hi) as (_ & _ & Hw').
  pose proof (Inv_setViewport v w HI) as HI'.
  pose proof (Current_setViewport v w HI HC) as HC'.
  pose proof (live_setViewport w 0 _ v HI Hlive) as Hlive'.
  pose proof Hlive' as (_ & hk' & Hi' & Hq' & Hp').
  pose proof (useMobile_idle 0 b (mkMobile (setViewport v w) bps) hk' Hi' Hp')
    as Hr.
  simpl in Hr. rewrite decide_True in Hr by exact Hb.
  rewrite (HC' 0 hk' _ Hw' Hi' Hp'), Hq' in Hr. simpl in Hr.
  specialize (IH _ HI' HC' Hlive' Hb).
  simpl. unfold mobile_bind at 1, in_world, lift. simpl.
  rewrite useMobile_dispatch. rewrite (mobile_bind_inr _ _ _ _ _ Hr).
  unfold mobile_bind, mobile_ret.
  destruct (mobile_observe_from b vs (mkMobile (setViewport v w) bps))
    as [e | [bs mw1]]; [discriminate |].
  simpl in IH |- *. injection IH as ->. reflexivity.
Qed.

(** X11. Once its effect has run, [useMobile] gives what [useMediaQuery]
    gives for [(max-width: <breakpoint>px)], value for value over any
    sequence of viewports: the engine's verdict on each of them. The two
    differ in the first render: [useMobile] starts at [false],
    [useMediaQuery] at the verdict on the current viewport. With no argument
    the breakpoint is the number 768, and for a breakpoint that prints as
    [768] the query is that of [useIsMobile]. *)
Theorem useMobile_agrees_with_useMediaQuery
    (b : JSNumber) (f : Viewport -> bool) (vs : list Viewport) (v : Viewport) :
  parseMedia (mobile_query b) = inr f ->
  mobile_observe_through b vs = Some (map f vs) /\
  observe_through (fun i => useMediaQuery i (mobile_query b)) vs =
    Some (map f vs) /\
  mobile_value_of (useMobile 0 b (mobile_initial (Some v))) = Some false /\
  observe_first (fun i => useMediaQuery i (mobile_query b)) v = Some (f v) /\
  (b = number_768 -> useMobile_default = (fun i => useMobile i b)) /\
  (Number_toString b = "768" ->
   useIsMobile = (fun i => useMediaQuery i (mobile_query b))).
Proof.
  intros Hq. split; [| split; [| split; [| split; [| split]]]].
  - destruct vs as [| v0 vs]; [reflexivity |]. unfold mobile_observe_through.
    destruct (mobile_mount_and_subscribe b f v0 Hq)
      as (w1 & w & Hmount & Hflush & HI & HC & Hlive & _).
    rewrite (mobile_bind_inr _ _ _ _ _ Hmount).
    rewrite (mobile_bind_inr _ _ _ _ _
               (in_world_inr _ (mkMobile w1 (<[0 := b]> ∅)) _ _ Hflush)).
    simpl breakpoints.
    rewrite (mobile_observe_from_current b (v0 :: vs) w _ HI HC Hlive
               (lookup_insert_eq _ _ _)).
    f_equal. apply map_ext. intros v'. apply evalMedia_parsed, Hq.
  - apply observe_through_query, Hq.
  - reflexivity.
  - apply observe_first_query, Hq.
  - intros ->. reflexivity.
  - intros Hs. unfold useIsMobile, mobile_query. rewrite Hs. reflexivity.
Qed.

(** ** A changed breakpoint, and disposal *)

(** X12. React compares the dependency array [[breakpoint]] by [Object.is]:
    a render of a live [useMobile] instance with another number answers for
    the old one and schedules the effect, whose run removes the old
    listener, publishes the match state of the new query and adds one
    listener for it; this also when the two numbers print the same. *)
Theorem useMobile_breakpoint_change
    (mw : MobileWorld) (i : nat) (b b' : JSNumber) (win : Window) (hk : Hook)
    (f : Viewport -> bool) :
  mobile_reachable mw -> window (world mw) = Some win ->
  fibers (world mw) !! i = Some hk -> pending hk = false ->
  breakpoints mw !! i = Some b ->
  b' <> b -> parseMedia (mobile_query b') = inr f ->
  exists mw1 w2,
    useMobile i b' mw = inr (evalMedia (mobile_query b) (viewport win), mw1) /\
    breakpoints mw1 = <[i := b']> (breakpoints mw) /\
    useMobile_flush i (world mw1) = inr (tt, w2) /\
    trace w2 =
      trace (world mw)
        ++ removal (cleanup hk)
        ++ [EvSetMatches i (f (viewport win));
            EvAddListener (length (mqls win))
                          (mkHandler (closures (world mw)) i)] /\
    useMobile i b' (mkMobile w2 (breakpoints mw1)) =
      inr (f (viewport win), mkMobile w2 (breakpoints mw1)) /\
    subscriptions w2 i = 1.
Proof.
  intros Hreach Hw Hi Hp Hb Hne Hq'.
  destruct (mobile_reachable_Inv mw Hreach) as (HI & HC & HL).
  destruct (HL i hk Hi) as (n & Hn & Hq). rewrite Hb in Hn. injection Hn as <-.
  assert (Hwin : window (world mw) <> None) by (rewrite Hw; discriminate).
  pose proof (useMobile_idle i b' mw hk Hi Hp) as Hrender.
  rewrite decide_False in Hrender by (rewrite Hb; congruence).
  rewrite (HC i hk win Hw Hi Hp), Hq in Hrender.
  set (q' := mobile_query b') in *.
  set (w1 := alter_fiber (with_effect q') i (world mw)) in *.
  assert (Hi1 : fibers w1 !! i = Some (with_effect q' hk)).
  { unfold w1. simpl. rewrite lookup_alter_eq, Hi. reflexivity. }
  pose proof (flush_window i w1 (with_effect q' hk) win f Hi1 eq_refl Hw Hq')
    as Hflush.
  simpl in Hflush.
  match type of Hflush with _ = inr (tt, ?W) => set (w2 := W) in * end.
  assert (HI2 : Inv w2).
  { apply (Inv_flush i w1 w2); [| exact Hflush]. apply Inv_schedule, HI. }
  assert (Hlive2 : live w2 i q').
  { split; [discriminate |]. eexists. split; [apply lookup_insert_eq |].
    split; reflexivity. }
  exists (mkMobile w1 (<[i := b']> (breakpoints mw))), w2.
  split; [exact Hrender |]. split; [reflexivity |].
  split; [| split; [| split]].
  - rewrite useMobile_flush_window by (unfold w1; simpl; exact Hwin).
    exact Hflush.
  - reflexivity.
  - pose proof (useMobile_idle i b' (mkMobile w2 (<[i := b']> (breakpoints mw)))
                  _ (lookup_insert_eq _ _ _) eq_refl) as Hagain.
    simpl in Hagain.
    rewrite decide_True in Hagain by apply lookup_insert_eq.
    exact Hagain.
  - exact (subscriptions_live w2 i q' HI2 Hlive2).
Qed.

(** X13. The destroy closure of [useMobile] removes its listener: once
    [useMobile_unmount] has returned the instance has no listener, and no
    sequence of viewport changes calls its [setIsMobile] again. *)
Theorem useMobile_unmount_removes_the_listener
    (mw : MobileWorld) (i : nat) (w1 : World) (vs : list Viewport) :
  mobile_reachable mw -> useMobile_unmount i (world mw) = inr (tt, w1) ->
  fibers w1 !! i = None /\ subscriptions w1 i = 0 /\
  updates_of i (trace (mobile_resizes vs w1)) = updates_of i (trace w1) /\
  subscriptions (mobile_resizes vs w1) i = 0.
Proof.
  intros Hreach Hrun. destruct (mobile_reachable_Inv mw Hreach) as (HI & _).
  apply useMobile_unmount_sim in Hrun.
  pose proof (Inv_unmount i _ w1 HI Hrun) as HI1.
  pose proof (unmount_absent i _ w1 HI Hrun) as Hi1.
  split; [exact Hi1 |]. split; [exact (subscriptions_unmounted w1 i HI1 Hi1) |].
  rewrite mobile_resizes_resizes.
  destruct (quiet_run i (map Resize vs) w1 (resizes vs w1) HI1 Hi1)
    as (HI2 & Hi2 & Hu2).
  - intros q Hin. apply list_elem_of_fmap in Hin as (v & Hv & _). discriminate.
  - apply run_resizes.
  - split; [exact Hu2 | exact (subscriptions_unmounted _ i HI2 Hi2)].
Qed.

End NumbersProofs.

End Observer.

(** * The presets, on the test double *)

Module Presets.

Import TestDouble.

Lemma parse_768 :
  parseMedia "(max-width: 768px)" = inr (fun width => (width <=? 768)%Z).
Proof. reflexivity. Qed.

Lemma parse_1024 :
  parseMedia "(max-width: 1024px)" = inr (fun width => (width <=? 1024)%Z).
Proof. reflexivity. Qed.

(** C3. [useIsMobile] is [useMediaQuery] applied to ['(max-width: 768px)'],
    on every platform. On the test double it gives [width <= 768]: when a
    component calls it for the first time at that width, when the component
    renders again after its effect has run, and in one component that stays
    mounted while the viewport takes a sequence of widths; over 320, 375,
    428, 768, 769, 1024, 1200 that is true, true, true, true, false, false,
    false each time. *)
Theorem useIsMobile_max_width_768 :
  (forall (Viewport Exn : Type) (RE : Exn)
          (engine : string -> Exn + (Viewport -> bool)) (i : nat),
     useIsMobile RE engine i = useMediaQuery RE engine i "(max-width: 768px)") /\
  (forall width,
     observe_first
       (useIsMobile ReferenceError parseMedia) width =
     Some (width <=? 768)%Z) /\
  (forall width,
     observe_at ReferenceError parseMedia
       (useIsMobile ReferenceError parseMedia) width =
     Some (width <=? 768)%Z) /\
  (forall ws,
     observe_through ReferenceError parseMedia
       (useIsMobile ReferenceError parseMedia) ws =
     Some (map (fun width => (width <=? 768)%Z) ws)) /\
  map (observe_first
         (useIsMobile ReferenceError parseMedia)) widths =
    map Some [true; true; true; true; false; false; false] /\
  map (observe_at ReferenceError parseMedia
         (useIsMobile ReferenceError parseMedia)) widths =
    map Some [true; true; true; true; false; false; false] /\
  observe_through ReferenceError parseMedia
    (useIsMobile ReferenceError parseMedia) widths =
    Some [true; true; true; true; false; false; false].
Proof.
  split; [reflexivity |].
  split; [intros width; apply (observe_first_query _ _ _ _ _ parse_768) |].
  split; [intros width; apply (observe_at_query _ _ _ _ _ parse_768) |].
  split; [intros ws; apply (observe_through_query _ _ _ _ _ parse_768) |].
  split; [vm_compute; reflexivity |].
  split; vm_compute; reflexivity.
Qed.

(** C4. [useIsTablet] is [useMediaQuery] applied to ['(max-width: 1024px)'],
    on every platform. On the test double it gives [width <= 1024]: when a
    component calls it for the first time at that width, when the component
    renders again after its effect has run, and in one component that stays
    mounted while the viewport takes a sequence of widths; over 320, 375,
    428, 768, 769, 1024, 1200 that is true, true, true, true, true, true,
    false each time. *)
Theorem useIsTablet_max_width_1024 :
  (forall (Viewport Exn : Type) (RE : Exn)
          (engine : string -> Exn + (Viewport -> bool)) (i : nat),
     useIsTablet RE engine i = useMediaQuery RE engine i "(max-width: 1024px)") /\
  (forall width,
     observe_first
       (useIsTablet ReferenceError parseMedia) width =
     Some (width <=? 1024)%Z) /\
  (forall width,
     observe_at ReferenceError parseMedia
       (useIsTablet ReferenceError parseMedia) width =
     Some (width <=? 1024)%Z) /\
  (forall ws,
     observe_through ReferenceError parseMedia
       (useIsTablet ReferenceError parseMedia) ws =
     Some (map (fun width => (width <=? 1024)%Z) ws)) /\
  map (observe_first
         (useIsTablet ReferenceError parseMedia)) widths =
    map Some [true; true; true; true; true; true; false] /\
  map (observe_at ReferenceError parseMedia
         (useIsTablet ReferenceError parseMedia)) widths =
    map Some [true; true; true; true; true; true; false] /\
  observe_through ReferenceError parseMedia
    (useIsTablet ReferenceError parseMedia) widths =
    Some [true; true; true; true; true; true; false].
Proof.
  split; [reflexivity |].
  split; [intros width; apply (observe_first_query _ _ _ _ _ parse_1024) |].
  split; [intros width; apply (observe_at_query _ _ _ _ _ parse_1024) |].
  split; [intros ws; apply (observe_through_query _ _ _ _ _ parse_1024) |].
  split; [vm_compute; reflexivity |].
  split; vm_compute; reflexivity.
Qed.

End Presets.

(** * The theorems at concrete inputs, on the test double *)

Module Instances.

Import TestDouble.

(** A fresh instance in a 500px wide viewport starts at [true] for the
    mobile query. *)
Lemma useMediaQuery_initial_value_witness :
  fibers (initial (Some 500%Z)) !! 0 = None /\
  value_of (useMediaQuery ReferenceError parseMedia 0 "(max-width: 768px)"
              (initial (Some 500%Z))) = Some true.
Proof.
  split; [reflexivity |].
  exact (proj2 (useMediaQuery_initial_value ReferenceError parseMedia
                  "(max-width: 768px)" 0 (initial (Some 500%Z)) eq_refl)
               (mkWindow 500%Z []) _ eq_refl Presets.parse_768).
Defined.

(** An observer of the mobile query, mounted at 500px, when the viewport
    grows to 800px. *)
Lemma threshold_crossing_one_update_witness :
  exists w,
    run ReferenceError parseMedia
        [Render 0 "(max-width: 768px)"; Flush 0] (initial (Some 500%Z)) =
      inr (tt, w) /\
    live w 0 "(max-width: 768px)" /\
    updates_of 0 (trace (setViewport parseMedia 800%Z w)) =
      updates_of 0 (trace w) ++ [false] /\
    value_of (useMediaQuery ReferenceError parseMedia 0 "(max-width: 768px)"
                (setViewport parseMedia 800%Z w)) = Some false.
Proof.
  eexists. split; [vm_compute; reflexivity |].
  match goal with |- live ?W _ _ /\ _ =>
    assert (Hlive : live W 0 "(max-width: 768px)")
  end.
  { split; [discriminate |]. eexists. split; [vm_compute; reflexivity |].
    split; reflexivity. }
  split; [exact Hlive |].
  match goal with |- context [setViewport _ _ ?W] =>
    assert (Hreach : reachable ReferenceError parseMedia W)
  end.
  { exists (Some 500%Z), [Render 0 "(max-width: 768px)"; Flush 0].
    vm_compute. reflexivity. }
  destruct (threshold_crossing_one_update ReferenceError parseMedia _ 0
              "(max-width: 768px)" _ 800%Z Hreach Hlive eq_refl)
    as (Hupd & _ & Hval & _).
  { vm_compute. discriminate. }
  split; [exact Hupd | exact Hval].
Defined.

(** The same observer, unmounted, while the viewport goes to 800px, back to
    500px and on to 900px. *)
Lemma no_update_after_disposal_witness :
  exists w w1,
    run ReferenceError parseMedia
        [Render 0 "(max-width: 768px)"; Flush 0] (initial (Some 500%Z)) =
      inr (tt, w) /\
    unmount ReferenceError parseMedia 0 w = inr (tt, w1) /\
    subscriptions w 0 = 1 /\
    subscriptions w1 0 = 0 /\
    updates_of 0 (trace (resizes parseMedia [800%Z; 500%Z; 900%Z] w1)) =
      updates_of 0 (trace w1).
Proof.
  eexists. eexists. split; [vm_compute; reflexivity |].
  split; [vm_compute; reflexivity |].
  split; [vm_compute; reflexivity |].
  match goal with |- subscriptions ?W1 _ = _ /\ _ =>
    destruct (no_update_after_disposal ReferenceError parseMedia
                (mkWorld
                   (Some (mkWindow 500%Z
                            [mkMQL "(max-width: 768px)" [];
                             mkMQL "(max-width: 768px)" [mkHandler 0 0]]))
                   (<[0 := mkHook true "(max-width: 768px)" false
                                  (Some (1, mkHandler 0 0))]> ∅)
                   1
                   [EvSetMatches 0 true; EvAddListener 1 (mkHandler 0 0)])
                0 W1)
      as (Hsub & _ & Hvs & _)
  end.
  - exists (Some 500%Z), [Render 0 "(max-width: 768px)"; Flush 0].
    vm_compute. reflexivity.
  - vm_compute. reflexivity.
  - split; [exact Hsub |].
    exact (proj1 (Hvs [800%Z; 500%Z; 900%Z])).
Defined.

(** An observer of the mobile query, live in a 500px wide viewport, while a
    second component is mounted and disposed a hundred times. *)
Lemma one_subscription_no_residue_witness :
  exists w,
    run ReferenceError parseMedia
        [Render 0 "(max-width: 768px)"; Flush 0] (initial (Some 500%Z)) =
      inr (tt, w) /\
    live w 0 "(max-width: 768px)" /\ fibers w !! 1 = None /\
    subscriptions w 0 = 1 /\ subscriptions w 1 = 0 /\
    (exists w',
       run ReferenceError parseMedia (cycles 100 1 "(max-width: 1024px)") w =
         inr (tt, w') /\
       all_listeners w' = all_listeners w /\ fibers w' = fibers w) /\
    (exists w0,
       run ReferenceError parseMedia (cycles 100 0 "(max-width: 768px)")
           (initial (Some 500%Z)) = inr (tt, w0) /\
       all_listeners w0 = [] /\ fibers w0 = ∅).
Proof.
  eexists. split; [vm_compute; reflexivity |].
  match goal with |- live ?W _ _ /\ _ =>
    assert (Hlive : live W 0 "(max-width: 768px)");
    [| assert (Hreach : reachable ReferenceError parseMedia W);
       [| assert (Hfresh : fibers W !! 1 = None) by (vm_compute; reflexivity);
          destruct (one_subscription_no_residue ReferenceError parseMedia W Hreach)
            as (_ & Hone & Hzero & Hcycles) ] ]
  end.
  - split; [discriminate |]. eexists. split; [vm_compute; reflexivity |].
    split; reflexivity.
  - exists (Some 500%Z), [Render 0 "(max-width: 768px)"; Flush 0].
    vm_compute. reflexivity.
  - destruct (Hcycles 100 1 "(max-width: 1024px)" _ _ eq_refl Hfresh
                Presets.parse_1024) as (w' & Hrun & Hf & Hl & _).
    split; [exact Hlive |]. split; [exact Hfresh |].
    split; [exact (Hone 0 _ Hlive) |]. split; [exact (Hzero 1 Hfresh) |].
    split; [exists w'; split; [exact Hrun |]; split; [exact Hl | exact Hf] |].
    assert (Hinit : reachable ReferenceError parseMedia (initial (Some 500%Z))).
    { exists (Some 500%Z), []. reflexivity. }
    destruct (one_subscription_no_residue ReferenceError parseMedia _ Hinit)
      as (_ & _ & _ & Hcycles0).
    destruct (Hcycles0 100 0 "(max-width: 768px)" _ _ eq_refl eq_refl
                Presets.parse_768) as (w0 & Hrun0 & Hf0 & _ & _ & Hl0).
    exists w0. split; [exact Hrun0 |]. split; [exact (Hl0 eq_refl) | exact Hf0].
Defined.

(** The engine of the test double rejects a [min-width] query: a first
    render with it raises, and so does the effect of a mounted observer
    that is rendered with it. *)
Lemma matchMedia_exception_propagates_witness :
  exists w,
    run ReferenceError parseMedia
        [Render 0 "(max-width: 768px)"; Flush 0; Render 0 "(min-width: 1px)"]
        (initial (Some 500%Z)) = inr (tt, w) /\
    matchMedia ReferenceError parseMedia "(min-width: 1px)" w =
      inl "SyntaxError" /\
    useMediaQuery ReferenceError parseMedia 1 "(min-width: 1px)" w =
      inl "SyntaxError" /\
    effect ReferenceError parseMedia 1 "(min-width: 1px)" w =
      inl "SyntaxError" /\
    flushPassiveEffects ReferenceError parseMedia 0 w = inl "SyntaxError".
Proof.
  eexists. split; [vm_compute; reflexivity |].
  match goal with |- matchMedia _ _ _ ?W = _ /\ _ =>
    destruct (matchMedia_exception_propagates ReferenceError parseMedia
                "(min-width: 1px)" W "SyntaxError")
      as (Hrender & Heffect & Hflush);
    assert (Hraise : window W <> None /\
                     matchMedia ReferenceError parseMedia "(min-width: 1px)" W =
                       inl "SyntaxError")
      by (split; [discriminate | vm_compute; reflexivity]);
    assert (Hfresh : fibers W !! 1 = None) by (vm_compute; reflexivity);
    assert (Hsched : fibers W !! 0 =
                     Some (mkHook true "(min-width: 1px)" true
                                  (Some (1, mkHandler 0 0))))
      by (vm_compute; reflexivity)
  end.
  split; [exact (proj2 Hraise) |].
  split; [exact (proj2 (Hrender 1 Hfresh) Hraise) |].
  split; [exact (proj2 (Heffect 1) Hraise) |].
  exact (proj2 (Hflush 0 _ Hsched eq_refl eq_refl) Hraise).
Defined.

(** The observer of the mobile query, in a 900px wide viewport, rendered
    with the tablet query. *)
Lemma query_change_resubscribes_witness :
  exists w,
    run ReferenceError parseMedia
        [Render 0 "(max-width: 768px)"; Flush 0] (initial (Some 900%Z)) =
      inr (tt, w) /\
    live w 0 "(max-width: 768px)" /\
    exists w1 w2,
      useMediaQuery ReferenceError parseMedia 0 "(max-width: 1024px)" w =
        inr (false, w1) /\
      flushPassiveEffects ReferenceError parseMedia 0 w1 = inr (tt, w2) /\
      trace w2 = trace w ++ [EvRemoveListener 1 (mkHandler 0 0);
                             EvSetMatches 0 true;
                             EvAddListener 2 (mkHandler 1 0)] /\
      live w2 0 "(max-width: 1024px)" /\ subscriptions w2 0 = 1.
Proof.
  eexists. split; [vm_compute; reflexivity |].
  match goal with |- live ?W _ _ /\ _ =>
    assert (Hlive : live W 0 "(max-width: 768px)");
    [| assert (Hreach : reachable ReferenceError parseMedia W);
       [| destruct (query_change_resubscribes ReferenceError parseMedia W 0
                      "(max-width: 768px)" "(max-width: 1024px)" _
                      (fun width => (width <=? 1024)%Z)
                      Hreach Hlive eq_refl)
            as (hk & m & h & w1 & w2 & m' & h' & -> & -> & Hi & Hc & _ & _ &
                Hrender & _ & _ & Hflush & Htrace & _ & _ & _ & _ & _ &
                Hlive2 & Hsub2) ] ]
  end.
  - split; [discriminate |]. eexists. split; [vm_compute; reflexivity |].
    split; reflexivity.
  - exists (Some 900%Z), [Render 0 "(max-width: 768px)"; Flush 0].
    vm_compute. reflexivity.
  - discriminate.
  - exact Presets.parse_1024.
  - split; [exact Hlive |].
    vm_compute in Hi. injection Hi as <-. simpl in Hc, Hrender.
    injection Hc as <- <-.
    exists w1, w2. split; [exact Hrender |]. split; [exact Hflush |].
    split; [exact Htrace |]. split; [exact Hlive2 | exact Hsub2].
Defined.

End Instances.

(** * Further theorems at concrete inputs, on the test double *)

Module MoreInstances.

Import TestDouble.

Lemma accepts_768 : accepts parseMedia "(max-width: 768px)".
Proof. eexists. exact Presets.parse_768. Qed.

Lemma accepts_1024 : accepts parseMedia "(max-width: 1024px)".
Proof. eexists. exact Presets.parse_1024. Qed.

(** A live observer of the mobile query at 500px: rendering it again, and
    running its effects, changes nothing. *)
Lemma live_render_is_current_and_idle_witness :
  exists w,
    run ReferenceError parseMedia
        [Render 0 "(max-width: 768px)"; Flush 0] (initial (Some 500%Z)) =
      inr (tt, w) /\
    live w 0 "(max-width: 768px)" /\
    useMediaQuery ReferenceError parseMedia 0 "(max-width: 768px)" w =
      inr (true, w) /\
    flushPassiveEffects ReferenceError parseMedia 0 w = inr (tt, w).
Proof.
  eexists. split; [vm_compute; reflexivity |].
  match goal with |- live ?W _ _ /\ _ =>
    assert (Hlive : live W 0 "(max-width: 768px)");
    [| assert (Hreach : reachable ReferenceError parseMedia W);
       [| destruct (live_render_is_current_and_idle ReferenceError parseMedia
                      W 0 "(max-width: 768px)" _ Hreach Hlive eq_refl)
            as (Hrender & Hflush & _) ] ]
  end.
  - split; [discriminate |]. eexists. split; [vm_compute; reflexivity |].
    split; reflexivity.
  - exists (Some 500%Z), [Render 0 "(max-width: 768px)"; Flush 0].
    vm_compute. reflexivity.
  - split; [exact Hlive |]. split; [exact Hrender | exact Hflush].
Defined.

(** The same observer when the viewport goes from 500px to 600px. *)
Lemma resize_without_crossing_is_silent_witness :
  exists w,
    run ReferenceError parseMedia
        [Render 0 "(max-width: 768px)"; Flush 0] (initial (Some 500%Z)) =
      inr (tt, w) /\
    live w 0 "(max-width: 768px)" /\
    updates_of 0 (trace (setViewport parseMedia 600%Z w)) =
      updates_of 0 (trace w) /\
    useMediaQuery ReferenceError parseMedia 0 "(max-width: 768px)"
      (setViewport parseMedia 600%Z w) =
      inr (true, setViewport parseMedia 600%Z w).
Proof.
  eexists. split; [vm_compute; reflexivity |].
  match goal with |- live ?W _ _ /\ _ =>
    assert (Hlive : live W 0 "(max-width: 768px)");
    [| assert (Hreach : reachable ReferenceError parseMedia W);
       [| destruct (resize_without_crossing_is_silent ReferenceError parseMedia
                      W 0 "(max-width: 768px)" _ 600%Z Hreach Hlive eq_refl)
            as (Hupd & _ & Hrender) ] ]
  end.
  - split; [discriminate |]. eexists. split; [vm_compute; reflexivity |].
    split; reflexivity.
  - exists (Some 500%Z), [Render 0 "(max-width: 768px)"; Flush 0].
    vm_compute. reflexivity.
  - vm_compute. reflexivity.
  - split; [exact Hlive |]. split; [exact Hupd | exact Hrender].
Defined.

(** A whole life of one component, over two accepted queries. *)
Lemma accepted_queries_never_raise_witness :
  (forall i q,
     Render i q ∈ [Render 0 "(max-width: 768px)"; Flush 0; Resize 900%Z;
                   Render 0 "(max-width: 1024px)"; Flush 0; Unmount 0] ->
     accepts parseMedia q) /\
  exists w,
    run ReferenceError parseMedia
        [Render 0 "(max-width: 768px)"; Flush 0; Resize 900%Z;
         Render 0 "(max-width: 1024px)"; Flush 0; Unmount 0]
        (initial (Some 500%Z)) = inr (tt, w).
Proof.
  assert (Hall : forall i q,
            Render i q ∈ [Render 0 "(max-width: 768px)"; Flush 0; Resize 900%Z;
                          Render 0 "(max-width: 1024px)"; Flush 0; Unmount 0] ->
            accepts parseMedia q).
  { intros i q Hin.
    repeat (apply elem_of_cons in Hin as [Hin | Hin];
            [first [discriminate
                   | injection Hin as -> ->;
                     first [exact accepts_768 | exact accepts_1024]] |]).
    inversion Hin. }
  split; [exact Hall |].
  exact (accepted_queries_never_raise ReferenceError parseMedia
           (Some 500%Z) _ Hall).
Defined.

(** An observer of the mobile query at 900px, rendered with the tablet
    query: that render still says [false]; the next one, after the effect,
    says [true]. *)
Lemma changed_query_is_answered_after_the_effect_witness :
  exists w,
    run ReferenceError parseMedia
        [Render 0 "(max-width: 768px)"; Flush 0] (initial (Some 900%Z)) =
      inr (tt, w) /\
    live w 0 "(max-width: 768px)" /\
    exists w1 w2,
      useMediaQuery ReferenceError parseMedia 0 "(max-width: 1024px)" w =
        inr (false, w1) /\
      flushPassiveEffects ReferenceError parseMedia 0 w1 = inr (tt, w2) /\
      useMediaQuery ReferenceError parseMedia 0 "(max-width: 1024px)" w2 =
        inr (true, w2).
Proof.
  eexists. split; [vm_compute; reflexivity |].
  match goal with |- live ?W _ _ /\ _ =>
    assert (Hlive : live W 0 "(max-width: 768px)");
    [| assert (Hreach : reachable ReferenceError parseMedia W);
       [| destruct (changed_query_is_answered_after_the_effect
                      ReferenceError parseMedia W 0
                      "(max-width: 768px)" "(max-width: 1024px)" _
                      (fun width => (width <=? 1024)%Z)
                      Hreach Hlive eq_refl)
            as (w1 & w2 & Hrender & Hflush & Hagain) ] ]
  end.
  - split; [discriminate |]. eexists. split; [vm_compute; reflexivity |].
    split; reflexivity.
  - exists (Some 900%Z), [Render 0 "(max-width: 768px)"; Flush 0].
    vm_compute. reflexivity.
  - discriminate.
  - exact Presets.parse_1024.
  - split; [exact Hlive |]. exists w1, w2.
    split; [exact Hrender |]. split; [exact Hflush | exact Hagain].
Defined.

(** A component first rendered at 500px whose effect runs only after the
    viewport went to 900px and then to 800px. *)
Lemma effect_publishes_state_at_subscription_witness :
  exists w',
    run ReferenceError parseMedia
        (Render 0 "(max-width: 768px)" :: map Resize [900%Z; 800%Z] ++ [Flush 0])
        (initial (Some 500%Z)) = inr (tt, w') /\
    updates_of 0 (trace w') = [false] /\
    useMediaQuery ReferenceError parseMedia 0 "(max-width: 768px)" w' =
      inr (false, w') /\
    live w' 0 "(max-width: 768px)".
Proof.
  assert (Hreach : reachable ReferenceError parseMedia (initial (Some 500%Z))).
  { exists (Some 500%Z), []. reflexivity. }
  destruct (effect_publishes_state_at_subscription ReferenceError parseMedia
              (initial (Some 500%Z)) 0 "(max-width: 768px)" _ _
              [900%Z; 800%Z] Hreach eq_refl eq_refl Presets.parse_768)
    as (w' & Hrun & Hupd & Hrender & Hlive).
  exists w'. split; [exact Hrun |]. split; [exact Hupd |].
  split; [exact Hrender | exact Hlive].
Defined.

(** A live observer of the mobile query while a second component, for the
    tablet query, is rendered for the first time. *)
Lemma observers_are_independent_witness :
  exists w w',
    run ReferenceError parseMedia
        [Render 0 "(max-width: 768px)"; Flush 0] (initial (Some 500%Z)) =
      inr (tt, w) /\
    step ReferenceError parseMedia (Render 1 "(max-width: 1024px)") w =
      inr (tt, w') /\
    fibers w' !! 0 = fibers w !! 0 /\
    updates_of 0 (trace w') = updates_of 0 (trace w) /\
    listeners_of w' 0 = listeners_of w 0.
Proof.
  eexists. eexists. split; [vm_compute; reflexivity |].
  split; [vm_compute; reflexivity |].
  match goal with |- fibers ?W' !! _ = fibers ?W !! _ /\ _ =>
    apply (observers_are_independent ReferenceError parseMedia W 0 1
             (Render 1 "(max-width: 1024px)") W')
  end.
  - exists (Some 500%Z), [Render 0 "(max-width: 768px)"; Flush 0].
    vm_compute. reflexivity.
  - reflexivity.
  - discriminate.
  - vm_compute. reflexivity.
Defined.

(** Two components, one of them re-rendered with another query and
    unmounted: its two closures were added and removed, the closure of the
    other is registered. *)
Lemma listeners_are_accounted_for_witness :
  exists w,
    run ReferenceError parseMedia
        [Render 0 "(max-width: 768px)"; Flush 0;
         Render 1 "(max-width: 1024px)"; Flush 1;
         Render 0 "(max-width: 1024px)"; Flush 0; Unmount 0]
        (initial (Some 500%Z)) = inr (tt, w) /\
    calls_on 1 (mkHandler 0 0) (trace w) = [CallAdd; CallRemove] /\
    calls_on 4 (mkHandler 2 0) (trace w) = [CallAdd; CallRemove] /\
    calls_on 3 (mkHandler 1 1) (trace w) = [CallAdd] /\
    (mkHandler 1 1 ∈ listeners_at w 3 /\
       calls_on 3 (mkHandler 1 1) (trace w) = [CallAdd] \/
     (mkHandler 1 1 ∉ listeners_at w 3) /\
       (calls_on 3 (mkHandler 1 1) (trace w) = [] \/
        calls_on 3 (mkHandler 1 1) (trace w) = [CallAdd; CallRemove])) /\
    added (trace w) = 3 /\ removed (trace w) = 2 /\
    length (all_listeners w) = 1 /\
    added (trace w) = removed (trace w) + length (all_listeners w).
Proof.
  eexists. split; [vm_compute; reflexivity |].
  split; [vm_compute; reflexivity |]. split; [vm_compute; reflexivity |].
  split; [vm_compute; reflexivity |].
  match goal with |- _ /\ _ /\ _ /\ _ /\ added (trace ?W) = _ =>
    destruct (listeners_are_accounted_for ReferenceError parseMedia W)
      as (Hpaired & Hcount & _)
  end.
  - exists (Some 500%Z),
      [Render 0 "(max-width: 768px)"; Flush 0;
       Render 1 "(max-width: 1024px)"; Flush 1;
       Render 0 "(max-width: 1024px)"; Flush 0; Unmount 0].
    vm_compute. reflexivity.
  - split; [exact (Hpaired 3 (mkHandler 1 1)) |].
    split; [vm_compute; reflexivity |]. split; [vm_compute; reflexivity |].
    split; [vm_compute; reflexivity | exact Hcount].
Defined.

(** [useMobile()] where there is no [window]. *)
Lemma useMobile_needs_a_window_witness :
  window (world (mobile_initial (Viewport := Z) (JSNumber := number) None)) =
    None /\
  fibers (world (mobile_initial (Viewport := Z) (JSNumber := number) None))
    !! 0 = None /\
  mobile_run ReferenceError parseMedia [MRender 0 (Integer 768); MFlush 0]
    (mobile_initial None) = inl ReferenceError.
Proof.
  split; [reflexivity |]. split; [reflexivity |].
  destruct (useMobile_needs_a_window ReferenceError parseMedia
              (mobile_initial None) 0 (Integer 768) eq_refl eq_refl)
    as (w1 & _ & _ & Hrun & _).
  exact Hrun.
Defined.

(** A [useMobile] component after its first render at 500px, rendered again
    with the same number. *)
Lemma useMobile_is_useMediaQuery_after_mount_witness :
  exists mw,
    mobile_run ReferenceError parseMedia [MRender 0 (Integer 768)]
      (mobile_initial (Some 500%Z)) = inr (tt, mw) /\
    window (world mw) <> None /\ is_Some (fibers (world mw) !! 0) /\
    breakpoints mw !! 0 = Some (Integer 768) /\
    useMobile_flush ReferenceError parseMedia 0 (world mw) =
      flushPassiveEffects ReferenceError parseMedia 0 (world mw) /\
    in_World (useMobile ReferenceError parseMedia 0 (Integer 768) mw) =
      useMediaQuery ReferenceError parseMedia 0 (mobile_query (Integer 768))
        (world mw).
Proof.
  eexists. split; [vm_compute; reflexivity |].
  match goal with |- window (world ?W) <> None /\ _ =>
    assert (Hw : window (world W) <> None) by discriminate;
    assert (Hi : is_Some (fibers (world W) !! 0))
      by (eexists; vm_compute; reflexivity);
    assert (Hb : breakpoints W !! 0 = Some (Integer 768))
      by (vm_compute; reflexivity);
    assert (Hreach : mobile_reachable ReferenceError parseMedia W)
      by (exists (Some 500%Z), [MRender 0 (Integer 768)];
          vm_compute; reflexivity);
    destruct (useMobile_is_useMediaQuery_after_mount ReferenceError parseMedia
                W 0 (Integer 768) (mobile_query (Integer 768)) Hw)
      as (_ & Hflush & _ & _ & Hrender)
  end.
  split; [exact Hw |]. split; [exact Hi |]. split; [exact Hb |].
  split; [exact Hflush |].
  apply (Hrender Hreach Hi). intros prev Hprev _.
  rewrite Hb in Hprev. injection Hprev as <-. reflexivity.
Defined.

(** A [useMobile] component at 500px whose effect has run. *)
Lemma useMobile_gives_the_current_match_state_witness :
  exists mw,
    mobile_run ReferenceError parseMedia [MRender 0 (Integer 768); MFlush 0]
      (mobile_initial (Some 500%Z)) = inr (tt, mw) /\
    breakpoints mw !! 0 = Some (Integer 768) /\
    useMobile ReferenceError parseMedia 0 (Integer 768) mw = inr (true, mw) /\
    subscriptions (world mw) 0 = 1.
Proof.
  eexists. split; [vm_compute; reflexivity |].
  match goal with |- breakpoints ?W !! _ = _ /\ _ =>
    assert (Hreach : mobile_reachable ReferenceError parseMedia W);
    [| destruct (useMobile_gives_the_current_match_state
                   ReferenceError parseMedia W 0 (Integer 768) _
                   (mkHook true "(max-width: 768px)" false
                           (Some (0, mkHandler 0 0)))
                   Hreach eq_refl) as (Hrender & Hsub) ]
  end.
  - exists (Some 500%Z), [MRender 0 (Integer 768); MFlush 0].
    vm_compute. reflexivity.
  - vm_compute. reflexivity.
  - reflexivity.
  - vm_compute. reflexivity.
  - split; [vm_compute; reflexivity |]. split; [| exact Hsub].
    etransitivity; [exact Hrender |]. vm_compute. reflexivity.
Defined.

(** [useMobile()] beside [useIsMobile()] over the widths 320 ... 1200,
    and their first renders at 375px. *)
Lemma useMobile_agrees_with_useMediaQuery_witness :
  mobile_observe_through ReferenceError parseMedia (Integer 768) widths =
    Some [true; true; true; true; false; false; false] /\
  observe_through ReferenceError parseMedia
    (useIsMobile ReferenceError parseMedia) widths =
    Some [true; true; true; true; false; false; false] /\
  mobile_value_of (useMobile_default ReferenceError parseMedia 0
                     (mobile_initial (Some 375%Z))) = Some false /\
  observe_first (useIsMobile ReferenceError parseMedia) 375%Z = Some true.
Proof.
  assert (Hparse : parseMedia (mobile_query (Integer 768)) =
                   inr (fun width => (width <=? 768)%Z))
    by (vm_compute; reflexivity).
  destruct (useMobile_agrees_with_useMediaQuery ReferenceError parseMedia
              (Integer 768) (fun width => (width <=? 768)%Z) widths 375%Z
              Hparse)
    as (Hmobile & Hquery & Hfirst & Hfirst' & Hdefault & Hsame).
  assert (Hprint : Number_toString (Integer 768) = "768")
    by (vm_compute; reflexivity).
  split; [exact Hmobile |]. split; [rewrite (Hsame Hprint); exact Hquery |].
  split; [rewrite (Hdefault eq_refl); exact Hfirst |].
  rewrite (Hsame Hprint). exact Hfirst'.
Defined.

(** A [useMobile(768)] component at 900px, rendered as [useMobile(1024)];
    and a [useMobile(0)] component rendered as [useMobile(-0)], which
    prints the same. *)
Lemma useMobile_breakpoint_change_witness :
  (exists mw,
     mobile_run ReferenceError parseMedia [MRender 0 (Integer 768); MFlush 0]
       (mobile_initial (Some 900%Z)) = inr (tt, mw) /\
     exists mw1 w2,
       useMobile ReferenceError parseMedia 0 (Integer 1024) mw =
         inr (false, mw1) /\
       useMobile_flush ReferenceError parseMedia 0 (world mw1) = inr (tt, w2) /\
       useMobile ReferenceError parseMedia 0 (Integer 1024)
                 (mkMobile w2 (breakpoints mw1)) =
         inr (true, mkMobile w2 (breakpoints mw1)) /\
       subscriptions w2 0 = 1) /\
  (mobile_query NegativeZero = mobile_query (Integer 0) /\
   exists mw,
     mobile_run ReferenceError parseMedia [MRender 0 (Integer 0); MFlush 0]
       (mobile_initial (Some 900%Z)) = inr (tt, mw) /\
     exists mw1 w2,
       useMobile ReferenceError parseMedia 0 NegativeZero mw =
         inr (false, mw1) /\
       useMobile_flush ReferenceError parseMedia 0 (world mw1) = inr (tt, w2) /\
       added (trace w2) = 2 /\ removed (trace w2) = 1 /\
       subscriptions w2 0 = 1).
Proof.
  split.
  - eexists. split; [vm_compute; reflexivity |].
    match goal with |- exists mw1 w2, useMobile _ _ _ _ ?W = _ /\ _ =>
      assert (Hreach : mobile_reachable ReferenceError parseMedia W);
      [| destruct (useMobile_breakpoint_change ReferenceError parseMedia W 0
                     (Integer 768) (Integer 1024) _
                     (mkHook false "(max-width: 768px)" false
                             (Some (0, mkHandler 0 0)))
                     (fun width => (width <=? 1024)%Z) Hreach eq_refl)
           as (mw1 & w2 & Hrender & Hbps & Hflush & _ & Hagain & Hsub) ]
    end.
    + exists (Some 900%Z), [MRender 0 (Integer 768); MFlush 0].
      vm_compute. reflexivity.
    + vm_compute. reflexivity.
    + reflexivity.
    + vm_compute. reflexivity.
    + discriminate.
    + vm_compute. reflexivity.
    + exists mw1, w2. split; [etransitivity; [exact Hrender | reflexivity] |].
      split; [exact Hflush |]. split; [exact Hagain | exact Hsub].
  - split; [vm_compute; reflexivity |].
    eexists. split; [vm_compute; reflexivity |].
    match goal with |- exists mw1 w2, useMobile _ _ _ _ ?W = _ /\ _ =>
      assert (Hreach : mobile_reachable ReferenceError parseMedia W);
      [| destruct (useMobile_breakpoint_change ReferenceError parseMedia W 0
                     (Integer 0) NegativeZero _
                     (mkHook false "(max-width: 0px)" false
                             (Some (0, mkHandler 0 0)))
                     (fun width => (width <=? 0)%Z) Hreach eq_refl)
           as (mw1 & w2 & Hrender & Hbps & Hflush & Htrace & _ & Hsub) ]
    end.
    + exists (Some 900%Z), [MRender 0 (Integer 0); MFlush 0].
      vm_compute. reflexivity.
    + vm_compute. reflexivity.
    + reflexivity.
    + vm_compute. reflexivity.
    + discriminate.
    + vm_compute. reflexivity.
    + exists mw1, w2. split; [etransitivity; [exact Hrender | reflexivity] |].
      split; [exact Hflush |].
      split; [rewrite Htrace; vm_compute; reflexivity |].
      split; [rewrite Htrace; vm_compute; reflexivity | exact Hsub].
Defined.

(** A [useMobile] component, unmounted, while the viewport goes to 900px
    and back to 500px. *)
Lemma useMobile_unmount_removes_the_listener_witness :
  exists mw w1,
    mobile_run ReferenceError parseMedia [MRender 0 (Integer 768); MFlush 0]
      (mobile_initial (Some 500%Z)) = inr (tt, mw) /\
    subscriptions (world mw) 0 = 1 /\
    useMobile_unmount ReferenceError parseMedia 0 (world mw) = inr (tt, w1) /\
    subscriptions w1 0 = 0 /\
    updates_of 0 (trace (mobile_resizes parseMedia [900%Z; 500%Z] w1)) =
      updates_of 0 (trace w1).
Proof.
  eexists. eexists. split; [vm_compute; reflexivity |].
  split; [vm_compute; reflexivity |]. split; [vm_compute; reflexivity |].
  match goal with |- subscriptions ?W1 _ = _ /\ _ =>
    destruct (useMobile_unmount_removes_the_listener ReferenceError parseMedia
                (mkMobile
                   (mkWorld
                      (Some (mkWindow 500%Z
                               [mkMQL "(max-width: 768px)" [mkHandler 0 0]]))
                      (<[0 := mkHook true "(max-width: 768px)" false
                                     (Some (0, mkHandler 0 0))]> ∅)
                      1
                      [EvSetMatches 0 true; EvAddListener 0 (mkHandler 0 0)])
                   (<[0 := Integer 768]> ∅))
                0 W1 [900%Z; 500%Z])
      as (_ & Hsub & Hupd & _)
  end.
  - exists (Some 500%Z), [MRender 0 (Integer 768); MFlush 0].
    vm_compute. reflexivity.
  - vm_compute. reflexivity.
  - split; [exact Hsub | exact Hupd].
Defined.

End MoreInstances.
